(** * DOM analyzer core: accessibility parser, element indexer, page-state cache

    A shallow embedding of [dom_analyzer/accessibility_parser.py],
    [dom_analyzer/element_indexer.py], [dom_analyzer/dom_analyzer.py],
    [dom_analyzer/types.py] and [dom_analyzer/config.py], followed by the
    properties established about them.

    Layout. The modules [Py], [Types], [Config], [Parser], [Indexer] and
    [Analyzer] hold the embedding, one module per source file, each function
    under its source name. [ParserSpec], [IndexerSpec] and [AnalyzerSpec] hold
    the predicates and the concrete inputs the statements use. [PyFacts],
    [ParserFacts], [IndexerFacts] and [AnalyzerFacts] hold the lemmas and
    theorems; [ParserProps], [IndexerProps] and [AnalyzerProps] hold further
    properties of the same functions and of the queries and statistics built
    on them.

    Conventions of the embedding.
    - Python values of type [Any] (decoded JSON) are the inductive [PyVal];
      JSON numbers are integers; a JSON object is its list of bindings with
      lookup returning the first binding of a key.
    - A Python [str] is a [string] whose characters stand for code points.
    - Exceptions are the [Raise] outcome of the [Res] monad; every
      [try/except Exception] of the source is a [match] on the outcome.
    - A [dict] whose iteration order does not reach any result is a [gmap].
    - The clock [time.time()] is read by the caller and passed as a rational;
      the awaited browser calls of [analyze_page] are passed as their
      outcomes.
    - The only loop of the source without an evident bound, the parent walk of
      [_calculate_depth], takes fuel; [None] means the fuel ran out.
    - [hashlib.md5] is a parameter [md5].
    - Logging is not modelled.
    - A quotient of two numbers that Python computes as a [float] is read as
      the rational quotient; division by zero is the outcome [None].
    - pydantic is not among the sources; its validation of the fields of
      [AccessibilityNode] is modelled with its coercions, and the part that
      depends on the version of the library is the parameter [Pydantic]. *)

From Stdlib Require Import ZArith QArith String Ascii List Sorting.Sorted Lia.
From Stdlib Require Import DecimalString DecimalPos.
From stdpp Require Import base option list gmap strings sorting fin_maps.

Set Warnings "-register-all".
Local Open Scope string_scope.
Local Open Scope Z_scope.

(* ===================================================================== *)
(** * Python values and exceptions *)
(* ===================================================================== *)

Module Py.

Inductive PyVal : Type :=
| PNone
| PBool (b : bool)
| PInt (z : Z)
| PStr (s : string)
| PList (l : list PyVal)
| PDict (kv : list (string * PyVal)).

Inductive exn : Type :=
| AttributeError | TypeError | ValueError | KeyError | ValidationError.

Inductive Res (A : Type) : Type :=
| Ok (a : A)
| Raise (e : exn).
Arguments Ok {A} a.
Arguments Raise {A} e.

#[global] Instance Res_ret : MRet Res := λ A a, Ok a.
#[global] Instance Res_bind : MBind Res := λ A B f m,
  match m with Ok a => f a | Raise e => Raise e end.

(** [bool(v)] *)
Definition truthy (v : PyVal) : bool :=
  match v with
  | PNone => false
  | PBool b => b
  | PInt z => negb (z =? 0)
  | PStr s => negb (String.eqb s "")
  | PList l => match l with [] => false | _ => true end
  | PDict kv => match kv with [] => false | _ => true end
  end.

Definition is_None (v : PyVal) : bool :=
  match v with PNone => true | _ => false end.

(** [v is True], [v is False] *)
Definition is_True (v : PyVal) : bool :=
  match v with PBool true => true | _ => false end.
Definition is_False (v : PyVal) : bool :=
  match v with PBool false => true | _ => false end.

Fixpoint assoc_get (k : string) (kv : list (string * PyVal)) : option PyVal :=
  match kv with
  | [] => None
  | (k', v) :: rest => if String.eqb k k' then Some v else assoc_get k rest
  end.

(** [d.get(k, default)]; only a dict has the method. *)
Definition py_get (d : PyVal) (k : string) (default : PyVal) : Res PyVal :=
  match d with
  | PDict kv => Ok (match assoc_get k kv with Some v => v | None => default end)
  | _ => Raise AttributeError
  end.

(** [k in d] for a dict [d] *)
Definition dict_has (kv : list (string * PyVal)) (k : string) : bool :=
  match assoc_get k kv with Some _ => true | None => false end.

Fixpoint chars_of (s : string) : list PyVal :=
  match s with
  | EmptyString => []
  | String c rest => PStr (String c EmptyString) :: chars_of rest
  end.

(** The items a [for] loop over [v] visits. *)
Definition py_iter (v : PyVal) : Res (list PyVal) :=
  match v with
  | PList l => Ok l
  | PDict kv => Ok (map (λ p, PStr (fst p)) kv)
  | PStr s => Ok (chars_of s)
  | _ => Raise TypeError
  end.

Definition mem_str (s : string) (l : list string) : bool :=
  existsb (String.eqb s) l.

(** [v in S] for a Python set [S] of strings: lists and dicts are not
    hashable, values that are not strings are never members. *)
Definition py_in_strs (v : PyVal) (S : list string) : Res bool :=
  match v with
  | PStr s => Ok (mem_str s S)
  | PList _ | PDict _ => Raise TypeError
  | _ => Ok false
  end.

Definition hashable (v : PyVal) : bool :=
  match v with PList _ | PDict _ => false | _ => true end.

(** Characters for which [str.isspace()] holds, among code points below 256. *)
Definition is_space (c : ascii) : bool :=
  let n := Z.of_nat (nat_of_ascii c) in
  ((9 <=? n) && (n <=? 13)) || ((28 <=? n) && (n <=? 32))
  || (n =? 133) || (n =? 160).

Fixpoint lstrip (s : string) : string :=
  match s with
  | EmptyString => EmptyString
  | String c rest => if is_space c then lstrip rest else s
  end.

Fixpoint rstrip (s : string) : string :=
  match s with
  | EmptyString => EmptyString
  | String c rest =>
      match rstrip rest with
      | EmptyString => if is_space c then EmptyString else String c EmptyString
      | r => String c r
      end
  end.

(** [s.strip()] *)
Definition py_strip (s : string) : string := rstrip (lstrip s).

(** [len(s)] *)
Definition py_len (s : string) : Z := Z.of_nat (String.length s).

(** [str(z)] for an [int] *)
Definition str_of_int (z : Z) : string := NilZero.string_of_int (Z.to_int z).

End Py.
Export Py.

(* ===================================================================== *)
(** * types.py *)
(* ===================================================================== *)

Module Types.

Inductive ElementRole : Type :=
| BUTTON | LINK | TEXTBOX | CHECKBOX | RADIO | COMBOBOX | LISTBOX | MENU
| MENUITEM | TAB | TABPANEL | DIALOG | ALERT | STATUS | TOOLBAR | TOOLTIP
| GRID | GRIDCELL | ROW | COLUMN | ROWHEADER | COLUMNHEADER | GENERIC.

(** [role.value] *)
Definition ElementRole_value (r : ElementRole) : string :=
  match r with
  | BUTTON => "button" | LINK => "link" | TEXTBOX => "textbox"
  | CHECKBOX => "checkbox" | RADIO => "radio" | COMBOBOX => "combobox"
  | LISTBOX => "listbox" | MENU => "menu" | MENUITEM => "menuitem"
  | TAB => "tab" | TABPANEL => "tabpanel" | DIALOG => "dialog"
  | ALERT => "alert" | STATUS => "status" | TOOLBAR => "toolbar"
  | TOOLTIP => "tooltip" | GRID => "grid" | GRIDCELL => "gridcell"
  | ROW => "row" | COLUMN => "column" | ROWHEADER => "rowheader"
  | COLUMNHEADER => "columnheader" | GENERIC => "generic"
  end.

Definition all_roles : list ElementRole :=
  [BUTTON; LINK; TEXTBOX; CHECKBOX; RADIO; COMBOBOX; LISTBOX; MENU;
   MENUITEM; TAB; TABPANEL; DIALOG; ALERT; STATUS; TOOLBAR; TOOLTIP;
   GRID; GRIDCELL; ROW; COLUMN; ROWHEADER; COLUMNHEADER; GENERIC].

(** [ElementRole(s)]: the member whose value is [s], [ValueError] otherwise. *)
Definition ElementRole_of_value (s : string) : Res ElementRole :=
  match List.find (λ r, String.eqb (ElementRole_value r) s) all_roles with
  | Some r => Ok r
  | None => Raise ValueError
  end.

Inductive ElementState : Type :=
| VISIBLE | HIDDEN | DISABLED | READONLY | REQUIRED | INVALID
| EXPANDED | COLLAPSED | SELECTED | CHECKED | FOCUSED.

Definition ElementState_value (s : ElementState) : string :=
  match s with
  | VISIBLE => "visible" | HIDDEN => "hidden" | DISABLED => "disabled"
  | READONLY => "readonly" | REQUIRED => "required" | INVALID => "invalid"
  | EXPANDED => "expanded" | COLLAPSED => "collapsed"
  | SELECTED => "selected" | CHECKED => "checked" | FOCUSED => "focused"
  end.

(** The member names, the keys of [ElementState.__members__]. *)
Definition ElementState_name (s : ElementState) : string :=
  match s with
  | VISIBLE => "VISIBLE" | HIDDEN => "HIDDEN" | DISABLED => "DISABLED"
  | READONLY => "READONLY" | REQUIRED => "REQUIRED" | INVALID => "INVALID"
  | EXPANDED => "EXPANDED" | COLLAPSED => "COLLAPSED"
  | SELECTED => "SELECTED" | CHECKED => "CHECKED" | FOCUSED => "FOCUSED"
  end.

Definition all_states : list ElementState :=
  [VISIBLE; HIDDEN; DISABLED; READONLY; REQUIRED; INVALID;
   EXPANDED; COLLAPSED; SELECTED; CHECKED; FOCUSED].

Definition ElementState_members : list string :=
  map ElementState_name all_states.

(** [ElementState(s)] *)
Definition ElementState_of_value (s : string) : Res ElementState :=
  match List.find (λ e, String.eqb (ElementState_value e) s) all_states with
  | Some e => Ok e
  | None => Raise ValueError
  end.

Record IndexedElement : Type := mkIndexedElement {
  index : Z;
  role : ElementRole;
  text : string;
  tag_name : string;
  attributes : gmap string string;
  states : list ElementState;
  xpath : string;
  bounding_box : option (gmap string Z);
  is_interactive : bool;
  parent_index : option Z;
  children_indices : list Z
}.

Record AccessibilityNode : Type := mkAccessibilityNode {
  node_id : Z;
  node_role : string;
  name : string;
  value : option string;
  description : option string;
  state : gmap string PyVal;
  children : list Z;
  parent_id : option Z;
  backend_dom_node_id : option Z
}.

(** pydantic is not part of the sources, and what it does with a value
    that has not the declared type depends on its version: that part is a
    parameter. [str_of_numbers] tells whether a [str] field takes a number
    and stores its text, as the first major version does and the second does
    not; [int_of_str] is the library's reading of a string given for an
    [int] field, [None] when it refuses the string. *)
Record Pydantic : Type := mkPydantic {
  str_of_numbers : bool;
  int_of_str : string → option Z
}.

(** A library that turns no number into a string and reads a string as an
    [int] when it is a decimal numeral. *)
Definition decimal_numerals : Pydantic :=
  mkPydantic false (λ s, option_map Z.of_int (NilZero.int_of_string s)).

(** Field validators of the pydantic model [AccessibilityNode]. An [int]
    field keeps an [int], takes a [bool] as 0 or 1 and a string as the
    library reads it. *)
Definition validate_int (pydantic : Pydantic) (v : PyVal) : Res Z :=
  match v with
  | PInt z => Ok z
  | PBool b => Ok (if b then 1 else 0)
  | PStr s =>
      match int_of_str pydantic s with
      | Some z => Ok z
      | None => Raise ValidationError
      end
  | _ => Raise ValidationError
  end.

(** A [str] field keeps a [str]; [str(True)] is ["True"]. *)
Definition validate_str (pydantic : Pydantic) (v : PyVal) : Res string :=
  match v with
  | PStr s => Ok s
  | PInt z =>
      if str_of_numbers pydantic then Ok (str_of_int z)
      else Raise ValidationError
  | PBool b =>
      if str_of_numbers pydantic then Ok (if b then "True" else "False")
      else Raise ValidationError
  | _ => Raise ValidationError
  end.

Definition validate_opt_int (pydantic : Pydantic) (v : PyVal)
  : Res (option Z) :=
  match v with
  | PNone => Ok None
  | _ => z ← validate_int pydantic v; Ok (Some z)
  end.

Definition validate_opt_str (pydantic : Pydantic) (v : PyVal)
  : Res (option string) :=
  match v with
  | PNone => Ok None
  | _ => s ← validate_str pydantic v; Ok (Some s)
  end.

Fixpoint validate_ints (pydantic : Pydantic) (l : list PyVal) : Res (list Z) :=
  match l with
  | [] => Ok []
  | v :: rest =>
      z ← validate_int pydantic v; zs ← validate_ints pydantic rest; Ok (z :: zs)
  end.

Definition validate_int_list (pydantic : Pydantic) (v : PyVal) : Res (list Z) :=
  match v with
  | PList l => validate_ints pydantic l
  | _ => Raise ValidationError
  end.

End Types.
Export Types.

(* ===================================================================== *)
(** * config.py *)
(* ===================================================================== *)

Module Config.

Record AccessibilityConfig : Type := mkAccessibilityConfig {
  min_text_length : Z;
  max_text_length : Z;
  interactive_roles : list string
}.

Record IndexingConfig : Type := mkIndexingConfig {
  use_stable_indices : bool;
  cache_duration : Z;
  max_elements : Z;
  max_interactive : Z
}.

Record DOMAnalyzerConfig : Type := mkDOMAnalyzerConfig {
  accessibility : AccessibilityConfig;
  indexing : IndexingConfig
}.

Definition default_interactive_roles : list string :=
  ["button"; "link"; "textbox"; "checkbox"; "radio";
   "combobox"; "listbox"; "menu"; "menuitem"; "tab";
   "dialog"; "alert"; "toolbar"; "grid"; "gridcell"].

Definition default_AccessibilityConfig : AccessibilityConfig :=
  {| min_text_length := 1; max_text_length := 500;
     interactive_roles := default_interactive_roles |}.

Definition default_IndexingConfig : IndexingConfig :=
  {| use_stable_indices := true; cache_duration := 30;
     max_elements := 1000; max_interactive := 200 |}.

Definition DEFAULT_CONFIG : DOMAnalyzerConfig :=
  {| accessibility := default_AccessibilityConfig;
     indexing := default_IndexingConfig |}.

End Config.
Export Config.

(* ===================================================================== *)
(** * accessibility_parser.py *)
(* ===================================================================== *)

Module Parser.

Record AXProperty : Type := mkAXProperty {
  prop_name : PyVal;
  prop_value : PyVal;
  source : string
}.

Record ParsedAXNode : Type := mkParsedAXNode {
  node_id : PyVal;
  role : PyVal;
  name : PyVal;
  value : PyVal;
  description : PyVal;
  properties : list AXProperty;
  states : list string;
  children : PyVal;
  parent_id : PyVal;
  backend_dom_node_id : PyVal;
  ignored : PyVal;
  is_interactive : bool
}.

Definition important_states : list string :=
  ["expanded"; "collapsed"; "selected"; "checked"; "pressed";
   "disabled"; "readonly"; "required"; "invalid"; "focused";
   "hidden"; "visible"; "busy"; "live"].

(** The two reads at the head of both property loops:
    [prop_data.get('name', {}).get('value', '')] and
    [prop_data.get('value', {}).get('value')]. *)
Definition read_prop (prop_data : PyVal) : Res (PyVal * PyVal) :=
  name_d ← py_get prop_data "name" (PDict []);
  pname ← py_get name_d "value" (PStr "");
  value_d ← py_get prop_data "value" (PDict []);
  pvalue ← py_get value_d "value" PNone;
  Ok (pname, pvalue).

(** The [for prop_data in ax_properties] loop of [_parse_node_properties];
    the list built so far survives an exception. *)
Fixpoint properties_loop (items : list PyVal) (acc : list AXProperty)
  : list AXProperty * option exn :=
  match items with
  | [] => (acc, None)
  | prop_data :: rest =>
      match read_prop prop_data with
      | Raise e => (acc, Some e)
      | Ok (pname, pvalue) =>
          properties_loop rest
            (if truthy pname && negb (is_None pvalue)
             then acc ++ [mkAXProperty pname pvalue "accessibility"]
             else acc)
      end
  end.

(** [if k in node_data: properties.append(AXProperty(k, node_data[k], 'node'))] *)
Definition node_field_property (kv : list (string * PyVal)) (k : string)
  : list AXProperty :=
  match assoc_get k kv with
  | Some v => [mkAXProperty (PStr k) v "node"]
  | None => []
  end.

Definition _parse_node_properties (node_data : PyVal) : list AXProperty :=
  match node_data with
  | PDict kv =>
      let ax_properties :=
        match assoc_get "properties" kv with Some v => v | None => PList [] end in
      match py_iter ax_properties with
      | Raise _ => []
      | Ok items =>
          match properties_loop items [] with
          | (acc, Some _) => acc
          | (acc, None) =>
              acc ++ node_field_property kv "checked"
                  ++ node_field_property kv "expanded"
                  ++ node_field_property kv "selected"
                  ++ node_field_property kv "disabled"
          end
      end
  | _ => []
  end.

(** The [for prop_data in ax_properties] loop of [_extract_node_states]. *)
Fixpoint states_loop (items : list PyVal) (acc : list string)
  : list string * option exn :=
  match items with
  | [] => (acc, None)
  | prop_data :: rest =>
      match read_prop prop_data with
      | Raise e => (acc, Some e)
      | Ok (pname, pvalue) =>
          match py_in_strs pname important_states with
          | Raise e => (acc, Some e)
          | Ok important =>
              states_loop rest
                (if important && truthy pvalue
                 then match pname with PStr s => acc ++ [s] | _ => acc end
                 else acc)
          end
      end
  end.

(** [if node_data.get(k): states.append(k)] *)
Definition node_field_state (kv : list (string * PyVal)) (k : string)
  : list string :=
  match assoc_get k kv with
  | Some v => if truthy v then [k] else []
  | None => []
  end.

(** [node_data.get('hidden')] is truthy *)
Definition marked_hidden (kv : list (string * PyVal)) : bool :=
  match assoc_get "hidden" kv with
  | Some v => truthy v
  | None => false
  end.

Definition _extract_node_states (node_data : PyVal) : list string :=
  match node_data with
  | PDict kv =>
      let ax_properties :=
        match assoc_get "properties" kv with Some v => v | None => PList [] end in
      match py_iter ax_properties with
      | Raise _ => []
      | Ok items =>
          match states_loop items [] with
          | (acc, Some _) => acc
          | (acc, None) =>
              acc ++ node_field_state kv "checked"
                  ++ node_field_state kv "expanded"
                  ++ node_field_state kv "selected"
                  ++ node_field_state kv "disabled"
                  ++ node_field_state kv "readonly"
                  ++ node_field_state kv "required"
                  ++ node_field_state kv "invalid"
                  ++ node_field_state kv "focused"
                  ++ (if marked_hidden kv then ["hidden"] else ["visible"])
          end
      end
  | _ => []
  end.

Definition is_text_valid (config : AccessibilityConfig) (text : PyVal) : Res bool :=
  if negb (truthy text) then Ok false
  else match text with
       | PStr s =>
           let text_length := py_len (py_strip s) in
           Ok ((min_text_length config <=? text_length)
               && (text_length <=? max_text_length config))
       | _ => Raise AttributeError
       end.

(** [d.get('value', default) if d else default] *)
Definition value_of (d : PyVal) (default : PyVal) : Res PyVal :=
  if truthy d then py_get d "value" default else Ok default.

(** [Raise] stands for the [except] branch, which returns [None]. *)
Definition _parse_single_node (config : AccessibilityConfig) (node_data : PyVal)
  : Res ParsedAXNode :=
  node_id ← py_get node_data "nodeId" (PInt 0);
  role_data ← py_get node_data "role" (PDict []);
  name_data ← py_get node_data "name" (PDict []);
  value_data ← py_get node_data "value" (PDict []);
  description_data ← py_get node_data "description" (PDict []);
  role ← value_of role_data (PStr "generic");
  name ← value_of name_data (PStr "");
  value ← value_of value_data PNone;
  description ← value_of description_data PNone;
  let properties := _parse_node_properties node_data in
  let states := _extract_node_states node_data in
  children ← py_get node_data "childIds" (PList []);
  parent_id ← py_get node_data "parentId" PNone;
  backend_dom_node_id ← py_get node_data "backendDOMNodeId" PNone;
  ignored ← py_get node_data "ignored" (PBool false);
  valid ← is_text_valid config name;
  let name := if (valid : bool) then name else PStr "" in
  Ok (mkParsedAXNode node_id role name value description properties states
        children parent_id backend_dom_node_id ignored false).

(** [any(p(x) for x in l)], where the test may raise. *)
Fixpoint py_any {A : Type} (p : A → Res bool) (l : list A) : Res bool :=
  match l with
  | [] => Ok false
  | x :: rest =>
      match p x with
      | Raise e => Raise e
      | Ok true => Ok true
      | Ok false => py_any p rest
      end
  end.

Definition interactive_states : list string :=
  ["button"; "link"; "menuitem"; "tab"].
Definition interactive_properties : list string :=
  ["clickable"; "pressable"; "selectable"].
Definition event_properties : list string :=
  ["onclick"; "onkeydown"; "onkeyup"; "onsubmit"].

Definition _is_node_interactive (config : AccessibilityConfig) (node : ParsedAXNode)
  : Res bool :=
  match py_in_strs (role node) (interactive_roles config) with
  | Raise e => Raise e
  | Ok true => Ok true
  | Ok false =>
      if existsb (λ s, mem_str s interactive_states) (states node) then Ok true
      else
        match py_any (λ prop,
                 named ← py_in_strs (prop_name prop) interactive_properties;
                 Ok (named && truthy (prop_value prop))) (properties node) with
        | Raise e => Raise e
        | Ok true => Ok true
        | Ok false =>
            match py_any (λ prop, py_in_strs (prop_name prop) event_properties)
                    (properties node) with
            | Raise e => Raise e
            | Ok true => Ok true
            | Ok false => Ok false
            end
        end
  end.

(** The [properties_dict] loop: a key that is not hashable raises. *)
Definition check_property_keys (props : list AXProperty) : Res unit :=
  if forallb (λ prop, hashable (prop_name prop)) props
  then Ok tt else Raise TypeError.

(** [Raise] stands for the [except] branch, which returns [None]. *)
Definition _convert_to_accessibility_node (pydantic : Pydantic)
  (parsed_node : ParsedAXNode) : Res AccessibilityNode :=
  let state_dict : gmap string PyVal :=
    foldl (λ d s, <[s := PBool true]> d) ∅ (states parsed_node) in
  _ ← check_property_keys (properties parsed_node);
  node_id ← validate_int pydantic (node_id parsed_node);
  role ← validate_str pydantic (role parsed_node);
  name ← validate_str pydantic (name parsed_node);
  value ← validate_opt_str pydantic (value parsed_node);
  description ← validate_opt_str pydantic (description parsed_node);
  children ← validate_int_list pydantic (children parsed_node);
  parent_id ← validate_opt_int pydantic (parent_id parsed_node);
  backend_dom_node_id ←
    validate_opt_int pydantic (backend_dom_node_id parsed_node);
  Ok (mkAccessibilityNode node_id role name value description state_dict
        children parent_id backend_dom_node_id).

Definition set_is_interactive (node : ParsedAXNode) (b : bool) : ParsedAXNode :=
  mkParsedAXNode (node_id node) (role node) (name node) (value node)
    (description node) (properties node) (states node) (children node)
    (parent_id node) (backend_dom_node_id node) (ignored node) b.

(** First pass: the nodes [_parse_single_node] returns. *)
Definition parse_all (config : AccessibilityConfig) (nodes_data : list PyVal)
  : list ParsedAXNode :=
  omap (λ node_data,
          match _parse_single_node config node_data with
          | Ok n => Some n | Raise _ => None end) nodes_data.

(** Second pass: [node.is_interactive = self._is_node_interactive(node)]. *)
Fixpoint classify_all (config : AccessibilityConfig) (nodes : list ParsedAXNode)
  : Res (list ParsedAXNode) :=
  match nodes with
  | [] => Ok []
  | n :: rest =>
      b ← _is_node_interactive config n;
      rest' ← classify_all config rest;
      Ok (set_is_interactive n b :: rest')
  end.

Definition convert_all (pydantic : Pydantic) (nodes : list ParsedAXNode)
  : list AccessibilityNode :=
  omap (λ n, match _convert_to_accessibility_node pydantic n with
             | Ok a => Some a | Raise _ => None end) nodes.

Definition parse_accessibility_tree (pydantic : Pydantic)
  (config : AccessibilityConfig) (ax_tree_data : PyVal)
  : list AccessibilityNode :=
  match ax_tree_data with
  | PDict kv =>
      match assoc_get "nodes" kv with
      | None => []
      | Some nodes_data =>
          match py_iter nodes_data with
          | Raise _ => []
          | Ok items =>
              match classify_all config (parse_all config items) with
              | Raise _ => []
              | Ok parsed_nodes => convert_all pydantic parsed_nodes
              end
          end
      end
  | _ => []
  end.

End Parser.

(* ===================================================================== *)
(** * element_indexer.py *)
(* ===================================================================== *)

Module Indexer.

Record IndexedNode : Type := mkIndexedNode {
  node : AccessibilityNode;
  index : Z;
  parent_index : option Z;
  children_indices : list Z;
  depth : Z;
  is_new : bool;
  bounding_box : option (gmap string Z);
  xpath : string;
  tag_name : string;
  attributes : gmap string string;
  is_interactive : bool;
  interactive_type : string
}.

Record IndexingContext : Type := mkIndexingContext {
  timestamp : Q;
  dom_hash : string;
  total_elements : Z;
  interactive_elements : Z;
  new_elements : Z;
  removed_elements : Z
}.

Record IndexingStats : Type := mkIndexingStats {
  total_indexed : Z;
  interactive_indexed : Z;
  cached_hits : Z;
  cache_misses : Z
}.

Record ElementIndexer : Type := mkElementIndexer {
  config : DOMAnalyzerConfig;
  _element_counter : Z;
  _index_to_node : gmap Z IndexedNode;
  _node_id_to_index : gmap Z Z;
  _xpath_to_index : gmap string Z;
  _previous_indices : gmap Z Z;
  _previous_xpaths : gmap string Z;
  _indexing_context : option IndexingContext;
  _indexing_stats : IndexingStats
}.

(** [ElementIndexer(config)] *)
Definition __init__ (config : DOMAnalyzerConfig) : ElementIndexer :=
  mkElementIndexer config 0 ∅ ∅ ∅ ∅ ∅ None (mkIndexingStats 0 0 0 0).

(** [dict.get(k, False)] read for its truth value *)
Definition state_flag (node : AccessibilityNode) (k : string) : bool :=
  match state node !! k with Some v => truthy v | None => false end.

Definition _should_index_node (self : ElementIndexer) (node : AccessibilityNode)
  : bool :=
  if state_flag node "hidden" then false
  else if String.eqb (name node) "" && String.eqb (node_role node) "generic"
  then false
  else if negb (String.eqb (name node) "")
          && (max_text_length (accessibility (config self)) <? py_len (name node))
  then false
  else true.

Definition indexer_interactive_roles : list string :=
  ["button"; "link"; "textbox"; "checkbox"; "radio";
   "combobox"; "listbox"; "menu"; "menuitem"; "tab";
   "dialog"; "alert"; "toolbar"; "grid"; "gridcell"].

Definition indexer_interactive_states : list string :=
  ["clickable"; "pressable"; "selectable"; "focusable"].

Definition _determine_index_type (node : AccessibilityNode) : string :=
  if mem_str (node_role node) indexer_interactive_roles then "interactive"
  else if existsb (λ s, bool_decide (is_Some (state node !! s)))
            indexer_interactive_states
  then "interactive"
  else "element".

Definition bump_hits (s : IndexingStats) : IndexingStats :=
  mkIndexingStats (total_indexed s) (interactive_indexed s)
    (cached_hits s + 1) (cache_misses s).

Definition bump_misses (s : IndexingStats) : IndexingStats :=
  mkIndexingStats (total_indexed s) (interactive_indexed s)
    (cached_hits s) (cache_misses s + 1).

Definition with_counter_stats (self : ElementIndexer) (c : Z) (s : IndexingStats)
  : ElementIndexer :=
  mkElementIndexer (config self) c (_index_to_node self)
    (_node_id_to_index self) (_xpath_to_index self) (_previous_indices self)
    (_previous_xpaths self) (_indexing_context self) s.

(** The tail shared by both allocators: take the counter, advance it. *)
Definition allocate (self : ElementIndexer) : ElementIndexer * Z :=
  (with_counter_stats self (_element_counter self + 1)
     (bump_misses (_indexing_stats self)),
   _element_counter self).

Definition hit (self : ElementIndexer) (cached_index : Z) : ElementIndexer * Z :=
  (with_counter_stats self (_element_counter self)
     (bump_hits (_indexing_stats self)),
   cached_index).

Definition _get_or_create_interactive_index (self : ElementIndexer)
  (node : AccessibilityNode) : ElementIndexer * Z :=
  match _node_id_to_index self !! node_id node with
  | Some cached_index =>
      match _index_to_node self !! cached_index with
      | Some cached_node =>
          if is_interactive cached_node then hit self cached_index
          else allocate self
      | None => allocate self
      end
  | None => allocate self
  end.

Definition _get_or_create_element_index (self : ElementIndexer)
  (node : AccessibilityNode) : ElementIndexer * Z :=
  match _node_id_to_index self !! node_id node with
  | Some cached_index =>
      match _index_to_node self !! cached_index with
      | Some _ => hit self cached_index
      | None => allocate self
      end
  | None => allocate self
  end.

Definition _get_parent_index (self : ElementIndexer) (node : AccessibilityNode)
  : option Z :=
  match parent_id node with
  | None => None
  | Some p => _node_id_to_index self !! p
  end.

Definition _get_children_indices (self : ElementIndexer)
  (node : AccessibilityNode) : list Z :=
  omap (λ child_id, _node_id_to_index self !! child_id) (children node).

(** The [while current_parent_id is not None] loop; one unit of fuel per
    iteration. *)
Fixpoint depth_walk (fuel : nat) (self : ElementIndexer)
  (current_parent_id : option Z) (depth : Z) : option Z :=
  match current_parent_id with
  | None => Some depth
  | Some pid =>
      match fuel with
      | O => None
      | S fuel' =>
          let depth := depth + 1 in
          match _node_id_to_index self !! pid with
          | None => Some depth
          | Some parent_index =>
              match _index_to_node self !! parent_index with
              | None => Some depth
              | Some parent_node =>
                  depth_walk fuel' self (parent_id (node parent_node)) depth
              end
          end
      end
  end.

Definition _calculate_depth (fuel : nat) (self : ElementIndexer)
  (node : AccessibilityNode) : option Z :=
  depth_walk fuel self (parent_id node) 0.

Definition dquote : ascii := ascii_of_nat 34.
Definition squote : ascii := ascii_of_nat 39.
Definition backslash : ascii := ascii_of_nat 92.

(** [s.replace(c, '\\' + c)] for a single character [c] *)
Fixpoint escape_char (c : ascii) (s : string) : string :=
  match s with
  | EmptyString => EmptyString
  | String a rest =>
      if Ascii.eqb a c then String backslash (String a (escape_char c rest))
      else String a (escape_char c rest)
  end.

Definition clean_for_xpath (s : string) : string :=
  escape_char squote (escape_char dquote s).

Definition opt_str_truthy (v : option string) : option string :=
  match v with
  | Some s => if String.eqb s "" then None else Some s
  | None => None
  end.

Definition _generate_xpath (node : AccessibilityNode) : string :=
  let parts : list string :=
    ((if negb (String.eqb (node_role node) "")
         && negb (String.eqb (node_role node) "generic")
      then [node_role node] else [])
     ++ (if negb (String.eqb (name node) "")
         then ["[@name=" +:+ String dquote (clean_for_xpath (name node))
               +:+ String dquote "]"]
         else [])
     ++ (match opt_str_truthy (value node) with
         | Some v => ["[@value=" +:+ String dquote (clean_for_xpath v)
                      +:+ String dquote "]"]
         | None => []
         end))%list in
  let parts := match parts with [] => ["generic"] | _ => parts end in
  "//" +:+ String.concat "" parts.

Definition _is_node_new (self : ElementIndexer) (node : AccessibilityNode)
  : bool :=
  if bool_decide (is_Some (_previous_indices self !! node_id node)) then false
  else if bool_decide (is_Some (_previous_xpaths self !! _generate_xpath node))
  then false
  else true.

Definition _extract_bounding_box (node : AccessibilityNode)
  : option (gmap string Z) := None.

Definition _extract_tag_name (node : AccessibilityNode) : string :=
  if String.eqb (node_role node) "" then "generic" else node_role node.

Definition set_if {V} (c : bool) (k : string) (v : V) (m : gmap string V)
  : gmap string V :=
  if c then <[k := v]> m else m.

Definition _extract_attributes (node : AccessibilityNode) : gmap string string :=
  let from_states : gmap string string :=
    omap (λ v, if is_True v then Some "true"
               else if is_False v then Some "false" else None) (state node) in
  let a1 := set_if (negb (String.eqb (node_role node) "")) "role"
              (node_role node) from_states in
  let a2 := set_if (negb (String.eqb (name node) "")) "name" (name node) a1 in
  match opt_str_truthy (value node) with
  | Some v => <["value" := v]> a2
  | None => a2
  end.

(** The [states] loop: a label is kept when it is a member name of
    [ElementState] and also the value of a member. *)
Definition convert_states (st : gmap string PyVal) : list ElementState :=
  omap (λ kv : string * PyVal,
          if mem_str (fst kv) ElementState_members
          then match ElementState_of_value (fst kv) with
               | Ok s => Some s
               | Raise _ => None
               end
          else None) (map_to_list st).

Definition _convert_to_indexed_element (indexed_node : IndexedNode)
  : Res IndexedElement :=
  let states := convert_states (state (node indexed_node)) in
  role ← (if String.eqb (node_role (node indexed_node)) "" then Ok GENERIC
          else ElementRole_of_value (node_role (node indexed_node)));
  Ok (mkIndexedElement (index indexed_node) role (name (node indexed_node))
        (tag_name indexed_node) (attributes indexed_node) states
        (xpath indexed_node) (bounding_box indexed_node)
        (is_interactive indexed_node) (parent_index indexed_node)
        (children_indices indexed_node)).

(** The three map writes at the end of [_index_single_node]. *)
Definition store (self : ElementIndexer) (n : IndexedNode) : ElementIndexer :=
  mkElementIndexer (config self) (_element_counter self)
    (<[index n := n]> (_index_to_node self))
    (<[node_id (node n) := index n]> (_node_id_to_index self))
    (<[xpath n := index n]> (_xpath_to_index self))
    (_previous_indices self) (_previous_xpaths self)
    (_indexing_context self) (_indexing_stats self).

(** The outer [None] is a parent walk that did not finish within the fuel;
    the inner one is the source's [return None]. *)
Definition _index_single_node (fuel : nat) (self : ElementIndexer)
  (node : AccessibilityNode) : option (ElementIndexer * option IndexedElement) :=
  if negb (_should_index_node self node) then Some (self, None)
  else
    let index_type := _determine_index_type node in
    let '(self, index) :=
      if String.eqb index_type "interactive"
      then _get_or_create_interactive_index self node
      else _get_or_create_element_index self node in
    match _calculate_depth fuel self node with
    | None => None
    | Some depth =>
        let indexed_node :=
          mkIndexedNode node index (_get_parent_index self node)
            (_get_children_indices self node) depth (_is_node_new self node)
            (_extract_bounding_box node) (_generate_xpath node)
            (_extract_tag_name node) (_extract_attributes node)
            (String.eqb index_type "interactive")
            (if String.eqb index_type "interactive" then index_type else "") in
        let self := store self indexed_node in
        match _convert_to_indexed_element indexed_node with
        | Ok indexed_element => Some (self, Some indexed_element)
        | Raise _ => Some (self, None)
        end
    end.

(** The [for node in accessibility_nodes] loop of [index_elements]. *)
Fixpoint index_loop (fuel : nat) (self : ElementIndexer)
  (nodes : list AccessibilityNode)
  : option (ElementIndexer * list IndexedElement) :=
  match nodes with
  | [] => Some (self, [])
  | node :: rest =>
      match _index_single_node fuel self node with
      | None => None
      | Some (self, r) =>
          match index_loop fuel self rest with
          | None => None
          | Some (self, out) =>
              Some (self, match r with Some e => e :: out | None => out end)
          end
      end
  end.

Definition str_of_opt (v : option string) : string :=
  match v with Some s => s | None => "None" end.

Definition node_info (n : AccessibilityNode) : string :=
  str_of_int (node_id n) +:+ ":" +:+ node_role n +:+ ":" +:+ name n
  +:+ ":" +:+ str_of_opt (value n).

Section Hash.
Variable md5 : string → string.

(** [dom_data] is [None] at the only call site. *)
Definition _calculate_dom_hash (nodes : list AccessibilityNode) : string :=
  md5 (String.concat "" (map (λ n, node_info n +:+ "|") nodes)).

Definition count_interactive (m : gmap Z IndexedNode) : Z :=
  Z.of_nat (length (List.filter (λ kv : Z * IndexedNode, is_interactive (snd kv))
                      (map_to_list m))).

Definition _update_indexing_stats (self : ElementIndexer) (total : Z)
  : ElementIndexer :=
  let interactive_count := count_interactive (_index_to_node self) in
  mkElementIndexer (config self) (_element_counter self) (_index_to_node self)
    (_node_id_to_index self) (_xpath_to_index self) (_previous_indices self)
    (_previous_xpaths self)
    (match _indexing_context self with
     | Some c => Some (mkIndexingContext (timestamp c) (dom_hash c) total
                         interactive_count (new_elements c) (removed_elements c))
     | None => None
     end)
    (mkIndexingStats total interactive_count
       (cached_hits (_indexing_stats self)) (cache_misses (_indexing_stats self))).

Definition _save_current_indices (self : ElementIndexer) : ElementIndexer :=
  mkElementIndexer (config self) (_element_counter self) (_index_to_node self)
    (_node_id_to_index self) (_xpath_to_index self)
    (_node_id_to_index self) (_xpath_to_index self)
    (_indexing_context self) (_indexing_stats self).

(** The state at the head of the loop: fresh context, counter at zero,
    the three current maps cleared. *)
Definition begin_pass (start_time : Q) (self : ElementIndexer)
  (nodes : list AccessibilityNode) : ElementIndexer :=
  mkElementIndexer (config self) 0 ∅ ∅ ∅
    (_previous_indices self) (_previous_xpaths self)
    (Some (mkIndexingContext start_time (_calculate_dom_hash nodes)
             (Z.of_nat (length nodes)) 0 0 0))
    (_indexing_stats self).

Definition index_elements (fuel : nat) (start_time : Q) (self : ElementIndexer)
  (accessibility_nodes : list AccessibilityNode)
  : option (ElementIndexer * list IndexedElement) :=
  match index_loop fuel (begin_pass start_time self accessibility_nodes)
          accessibility_nodes with
  | None => None
  | Some (self, indexed_elements) =>
      let self := _update_indexing_stats self
                    (Z.of_nat (length indexed_elements)) in
      Some (_save_current_indices self, indexed_elements)
  end.

End Hash.

Definition index_le (a b : IndexedElement) : Prop := Types.index a ≤ Types.index b.

#[global] Instance index_le_dec a b : Decision (index_le a b).
Proof. unfold index_le. apply _. Defined.

(** [sorted(l, key=lambda x: x.index)] *)
Definition sorted_by_index (l : list IndexedElement) : list IndexedElement :=
  merge_sort index_le l.

Definition stored_nodes (self : ElementIndexer) : list IndexedNode :=
  map snd (map_to_list (_index_to_node self)).

Definition get_element_by_index (self : ElementIndexer) (i : Z)
  : Res (option IndexedElement) :=
  match _index_to_node self !! i with
  | Some indexed_node =>
      e ← _convert_to_indexed_element indexed_node; Ok (Some e)
  | None => Ok None
  end.

Definition get_interactive_elements (self : ElementIndexer)
  : Res (list IndexedElement) :=
  interactive_elements ←
    mapM _convert_to_indexed_element
      (List.filter is_interactive (stored_nodes self));
  Ok (sorted_by_index interactive_elements).

Definition get_elements_by_role (self : ElementIndexer) (role : ElementRole)
  : Res (list IndexedElement) :=
  elements ←
    mapM _convert_to_indexed_element
      (List.filter (λ n, String.eqb (node_role (node n)) (ElementRole_value role))
         (stored_nodes self));
  Ok (sorted_by_index elements).

Definition clear_cache (self : ElementIndexer) : ElementIndexer :=
  mkElementIndexer (config self) (_element_counter self) (_index_to_node self)
    (_node_id_to_index self) (_xpath_to_index self) ∅ ∅
    (_indexing_context self)
    (mkIndexingStats (total_indexed (_indexing_stats self))
       (interactive_indexed (_indexing_stats self)) 0 0).


(** A value of a statistics dictionary. *)
Inductive StatValue : Type :=
| SInt (z : Z)
| SFloat (q : Q)
| SStr (s : string).

(** [get_indexing_stats]: a copy of the counters, updated with four entries
    of the indexing context when there is one. *)
Definition get_indexing_stats (self : ElementIndexer) : gmap string StatValue :=
  let s := _indexing_stats self in
  let stats : gmap string StatValue :=
    <["cache_misses" := SInt (cache_misses s)]>
      (<["cached_hits" := SInt (cached_hits s)]>
         (<["interactive_indexed" := SInt (interactive_indexed s)]>
            (<["total_indexed" := SInt (total_indexed s)]> ∅))) in
  match _indexing_context self with
  | Some c =>
      <["removed_elements" := SInt (removed_elements c)]>
        (<["new_elements" := SInt (new_elements c)]>
           (<["dom_hash" := SStr (dom_hash c)]>
              (<["timestamp" := SFloat (timestamp c)]> stats)))
  | None => stats
  end.

(** [get_cache_efficiency]; the quotient of the two counters is read as a
    rational. *)
Definition get_cache_efficiency (self : ElementIndexer) : Q :=
  let total_requests :=
    cached_hits (_indexing_stats self) + cache_misses (_indexing_stats self) in
  if total_requests =? 0 then 0%Q
  else (inject_Z (cached_hits (_indexing_stats self)) / inject_Z total_requests)%Q.

End Indexer.

(* ===================================================================== *)
(** * dom_analyzer.py *)
(* ===================================================================== *)

Module Analyzer.

Record PageAnalysisResult : Type := mkPageAnalysisResult {
  target_id : string;
  timestamp : Q;
  url : PyVal;
  title : PyVal;
  accessibility_nodes : list AccessibilityNode;
  indexed_elements : list IndexedElement;
  interactive_elements : list IndexedElement;
  page_metrics : option PyVal;
  dom_hash : string;
  analysis_time : Q;
  total_elements : Z;
  interactive_count : Z
}.

Record AnalysisStats : Type := mkAnalysisStats {
  total_analyses : Z;
  cache_hits : Z;
  cache_misses : Z;
  total_analysis_time : Q
}.

Record DOMAnalyzer : Type := mkDOMAnalyzer {
  config : DOMAnalyzerConfig;
  cdp_connected : bool;
  element_indexer : Indexer.ElementIndexer;
  _analysis_cache : gmap string PageAnalysisResult;
  _last_analysis_time : gmap string Q;
  _analysis_stats : AnalysisStats
}.

(** [DOMAnalyzer(config)] *)
Definition __init__ (config : DOMAnalyzerConfig) : DOMAnalyzer :=
  mkDOMAnalyzer config false (Indexer.__init__ config) ∅ ∅
    (mkAnalysisStats 0 0 0 0%Q).

(** What the world hands to one call of [analyze_page]: the readings of
    [time.time()] in the order they are taken, and the outcomes of the awaited
    helpers that talk to the browser. *)
Record World : Type := mkWorld {
  t_start : Q;          (* analyze_page, first line *)
  t_check : Q;          (* _should_use_cached_result *)
  t_index : Q;          (* index_elements, first line *)
  t_end : Q;            (* analysis_time = time.time() - start_time *)
  ensure_cdp_connection : Res unit;
  get_page_info : Res (PyVal * PyVal);      (* the url and title entries *)
  get_accessibility_tree : Res PyVal;
  get_page_metrics : option PyVal
}.

Definition Qltb (a b : Q) : bool := negb (Qle_bool b a).

Definition _should_use_cached_result (self : DOMAnalyzer) (now : Q)
  (target_id : string) : bool :=
  match _analysis_cache self !! target_id with
  | None => false
  | Some _ =>
      match _last_analysis_time self !! target_id with
      | None => false
      | Some last =>
          let cache_age := (now - last)%Q in
          let max_cache_age := inject_Z (cache_duration (indexing (config self))) in
          Qltb cache_age max_cache_age
      end
  end.

Definition element_info (e : IndexedElement) : string :=
  str_of_int (Types.index e) +:+ ":" +:+ ElementRole_value (Types.role e)
  +:+ ":" +:+ Types.text e.

Section Hash.
Variable md5 : string → string.
Variable pydantic : Pydantic.

Definition _calculate_dom_hash (accessibility_nodes : list AccessibilityNode)
  (indexed_elements : list IndexedElement) : string :=
  md5 (String.concat "" (map (λ n, Indexer.node_info n +:+ "|") accessibility_nodes)
       +:+ String.concat "" (map (λ e, element_info e +:+ "|") indexed_elements)).

Definition with_stats (self : DOMAnalyzer) (s : AnalysisStats) : DOMAnalyzer :=
  mkDOMAnalyzer (config self) (cdp_connected self) (element_indexer self)
    (_analysis_cache self) (_last_analysis_time self) s.

Definition bump_cache_hits (self : DOMAnalyzer) : DOMAnalyzer :=
  let s := _analysis_stats self in
  with_stats self (mkAnalysisStats (total_analyses s) (cache_hits s + 1)
                     (cache_misses s) (total_analysis_time s)).

Definition bump_cache_misses (self : DOMAnalyzer) : DOMAnalyzer :=
  let s := _analysis_stats self in
  with_stats self (mkAnalysisStats (total_analyses s) (cache_hits s)
                     (cache_misses s + 1) (total_analysis_time s)).

Definition _update_analysis_stats (self : DOMAnalyzer) (analysis_time : Q)
  : DOMAnalyzer :=
  let s := _analysis_stats self in
  with_stats self (mkAnalysisStats (total_analyses s + 1) (cache_hits s)
                     (cache_misses s) (total_analysis_time s + analysis_time)%Q).

Definition with_connected (self : DOMAnalyzer) : DOMAnalyzer :=
  mkDOMAnalyzer (config self) true (element_indexer self)
    (_analysis_cache self) (_last_analysis_time self) (_analysis_stats self).

Definition with_indexer (self : DOMAnalyzer) (ix : Indexer.ElementIndexer)
  : DOMAnalyzer :=
  mkDOMAnalyzer (config self) (cdp_connected self) ix
    (_analysis_cache self) (_last_analysis_time self) (_analysis_stats self).

(** [self._analysis_cache[target_id] = result] and
    [self._last_analysis_time[target_id] = start_time] *)
Definition save_result (self : DOMAnalyzer) (target_id : string)
  (result : PageAnalysisResult) (start_time : Q) : DOMAnalyzer :=
  mkDOMAnalyzer (config self) (cdp_connected self) (element_indexer self)
    (<[target_id := result]> (_analysis_cache self))
    (<[target_id := start_time]> (_last_analysis_time self))
    (_analysis_stats self).

(** The outer [None] is an indexing pass that did not finish within the
    fuel; [Raise] is the exception [analyze_page] re-raises. *)
Definition analyze_page (fuel : nat) (w : World) (self : DOMAnalyzer)
  (target_id : string) (force_refresh : bool)
  : option (DOMAnalyzer * Res PageAnalysisResult) :=
  let start_time := t_start w in
  if negb force_refresh && _should_use_cached_result self (t_check w) target_id
  then
    let self := bump_cache_hits self in
    match _analysis_cache self !! target_id with
    | Some cached_result => Some (self, Ok cached_result)
    | None => Some (self, Raise KeyError)
    end
  else
    let self := bump_cache_misses self in
    match (if cdp_connected self then Ok tt else ensure_cdp_connection w) with
    | Raise e => Some (self, Raise e)
    | Ok _ =>
    let self := with_connected self in
    match get_page_info w with
    | Raise e => Some (self, Raise e)
    | Ok (page_url, page_title) =>
    match get_accessibility_tree w with
    | Raise e => Some (self, Raise e)
    | Ok accessibility_tree =>
    let accessibility_nodes :=
      Parser.parse_accessibility_tree pydantic (accessibility (config self))
        accessibility_tree in
    match Indexer.index_elements md5 fuel (t_index w) (element_indexer self)
            accessibility_nodes with
    | None => None
    | Some (ix, indexed_elements) =>
    let self := with_indexer self ix in
    match Indexer.get_interactive_elements ix with
    | Raise e => Some (self, Raise e)
    | Ok interactive_elements =>
    let page_metrics := get_page_metrics w in
    let dom_hash := _calculate_dom_hash accessibility_nodes indexed_elements in
    let analysis_time := (t_end w - start_time)%Q in
    let result :=
      mkPageAnalysisResult target_id start_time page_url page_title
        accessibility_nodes indexed_elements interactive_elements page_metrics
        dom_hash analysis_time
        (Z.of_nat (length indexed_elements))
        (Z.of_nat (length interactive_elements)) in
    let self := save_result self target_id result start_time in
    let self := _update_analysis_stats self analysis_time in
    Some (self, Ok result)
    end end end end end.

End Hash.

(** [if target_id:] is false for [None] and for the empty string. *)
Definition clear_cache (self : DOMAnalyzer) (target_id : option string)
  : DOMAnalyzer :=
  match Indexer.opt_str_truthy target_id with
  | Some t =>
      mkDOMAnalyzer (config self) (cdp_connected self) (element_indexer self)
        (delete t (_analysis_cache self))
        (delete t (_last_analysis_time self))
        (_analysis_stats self)
  | None =>
      mkDOMAnalyzer (config self) (cdp_connected self) (element_indexer self)
        ∅ ∅ (_analysis_stats self)
  end.


(** The dataclass [ElementInteractionInfo]. *)
Module ElementInteractionInfo.
Record t : Type := mk {
  index : Z;
  role : string;
  text : string;
  tag_name : string;
  xpath : string;
  is_interactive : bool;
  states : list string;
  attributes : gmap string string;
  bounding_box : option (gmap string Z)
}.
End ElementInteractionInfo.

(** The dictionary [get_page_summary] returns. *)
Module PageSummary.
Record t : Type := mk {
  url : PyVal;
  title : PyVal;
  total_elements : Z;
  interactive_elements : Z;
  dom_hash : string;
  analysis_time : Q;
  timestamp : Q;
  role_distribution : gmap string Z
}.
End PageSummary.

(** The dictionary [get_analysis_stats] returns. *)
Module AnalysisReport.
Record t : Type := mk {
  total_analyses : Z;
  cache_hits : Z;
  cache_misses : Z;
  total_analysis_time : Q;
  average_analysis_time : Q;
  cache_hit_rate : Q
}.
End AnalysisReport.

(** The [ElementInteractionInfo] built from one element in
    [get_interactive_elements]. *)
Definition interaction_info (element : IndexedElement) : ElementInteractionInfo.t :=
  ElementInteractionInfo.mk (Types.index element)
    (ElementRole_value (Types.role element)) (Types.text element)
    (Types.tag_name element) (Types.xpath element)
    (Types.is_interactive element)
    (map ElementState_value (Types.states element))
    (Types.attributes element) (Types.bounding_box element).

(** One step of the [role_stats] loop of [get_page_summary]. *)
Definition count_role (role_stats : gmap string Z) (element : IndexedElement)
  : gmap string Z :=
  let role := ElementRole_value (Types.role element) in
  let role_stats :=
    match role_stats !! role with
    | None => <[role := 0]> role_stats
    | Some _ => role_stats
    end in
  <[role := role_stats !!! role + 1]> role_stats.

(** [a / b]: [None] stands for [ZeroDivisionError]; the quotient is read as
    a rational. *)
Definition py_truediv (a b : Q) : option Q :=
  if Qeq_bool b 0 then None else Some (a / b)%Q.

Definition get_analysis_stats (self : DOMAnalyzer) : option AnalysisReport.t :=
  let stats := _analysis_stats self in
  if 0 <? total_analyses stats then
    average_analysis_time ←
      py_truediv (total_analysis_time stats) (inject_Z (total_analyses stats));
    cache_hit_rate ←
      py_truediv (inject_Z (cache_hits stats))
        (inject_Z (cache_hits stats + cache_misses stats));
    Some (AnalysisReport.mk (total_analyses stats) (cache_hits stats)
            (cache_misses stats) (total_analysis_time stats)
            average_analysis_time cache_hit_rate)
  else
    Some (AnalysisReport.mk (total_analyses stats) (cache_hits stats)
            (cache_misses stats) (total_analysis_time stats) 0%Q 0%Q).

Section Queries.
Variable md5 : string → string.
Variable pydantic : Pydantic.

(** [DOMAnalyzer.get_interactive_elements]: exceptions are re-raised. *)
Definition get_interactive_elements (fuel : nat) (w : World)
  (self : DOMAnalyzer) (target_id : string)
  : option (DOMAnalyzer * Res (list ElementInteractionInfo.t)) :=
  match analyze_page md5 pydantic fuel w self target_id false with
  | None => None
  | Some (self, Raise e) => Some (self, Raise e)
  | Some (self, Ok analysis_result) =>
      Some (self, Ok (map interaction_info (interactive_elements analysis_result)))
  end.

(** [DOMAnalyzer.find_element_by_role]: an exception gives the empty list. *)
Definition find_element_by_role (fuel : nat) (w : World) (self : DOMAnalyzer)
  (target_id : string) (role : ElementRole)
  : option (DOMAnalyzer * list ElementInteractionInfo.t) :=
  match get_interactive_elements fuel w self target_id with
  | None => None
  | Some (self, Raise _) => Some (self, [])
  | Some (self, Ok interactive_elements) =>
      Some (self,
            List.filter (λ elem, String.eqb (ElementInteractionInfo.role elem)
                                   (ElementRole_value role))
              interactive_elements)
  end.

(** [DOMAnalyzer.get_element_by_index]: the first interactive element with
    the index; an exception gives [None]. *)
Definition get_element_by_index (fuel : nat) (w : World) (self : DOMAnalyzer)
  (target_id : string) (index : Z)
  : option (DOMAnalyzer * option ElementInteractionInfo.t) :=
  match get_interactive_elements fuel w self target_id with
  | None => None
  | Some (self, Raise _) => Some (self, None)
  | Some (self, Ok interactive_elements) =>
      Some (self,
            List.find (λ element, ElementInteractionInfo.index element =? index)
              interactive_elements)
  end.

(** [DOMAnalyzer.get_page_summary]: exceptions are re-raised. *)
Definition get_page_summary (fuel : nat) (w : World) (self : DOMAnalyzer)
  (target_id : string) : option (DOMAnalyzer * Res PageSummary.t) :=
  match analyze_page md5 pydantic fuel w self target_id false with
  | None => None
  | Some (self, Raise e) => Some (self, Raise e)
  | Some (self, Ok analysis_result) =>
      let role_stats := foldl count_role ∅ (indexed_elements analysis_result) in
      Some (self,
            Ok (PageSummary.mk (url analysis_result) (title analysis_result)
                  (total_elements analysis_result)
                  (interactive_count analysis_result)
                  (dom_hash analysis_result) (analysis_time analysis_result)
                  (timestamp analysis_result) role_stats))
  end.

End Queries.

End Analyzer.

(* ===================================================================== *)
(** * Predicates used in the statements *)
(* ===================================================================== *)

Module ParserSpec.
Import Parser.

(** The declared field types of [ParsedAXNode] and [AXProperty] make the role
    and every property name a string; hashability is all the classifier
    needs of them. *)
Definition names_hashable (node : ParsedAXNode) : Prop :=
  hashable (role node) = true
  ∧ Forall (λ p, hashable (prop_name p) = true) (properties node).

Definition named_in (S : list string) (p : AXProperty) : bool :=
  match prop_name p with PStr s => mem_str s S | _ => false end.

Definition role_in (S : list string) (node : ParsedAXNode) : bool :=
  match role node with PStr r => mem_str r S | _ => false end.

(** The rule of interactivity in the words of the specification: the role
    is in the configured vocabulary, or a state label is one of four role
    names, or a property of one of three names has a truthy value, or a
    property of one of four handler names is present. *)
Definition interactive_rule (config : AccessibilityConfig) (node : ParsedAXNode)
  : Prop :=
  (∃ r, role node = PStr r ∧ r ∈ interactive_roles config)
  ∨ (∃ s, s ∈ states node ∧ s ∈ ["button"; "link"; "menuitem"; "tab"])
  ∨ (∃ p n, p ∈ properties node ∧ prop_name p = PStr n
            ∧ n ∈ ["clickable"; "pressable"; "selectable"]
            ∧ truthy (prop_value p) = true)
  ∨ (∃ p n, p ∈ properties node ∧ prop_name p = PStr n
            ∧ n ∈ ["onclick"; "onkeydown"; "onkeyup"; "onsubmit"]).

(** A parsed node of role "generic" with the given properties. *)
Definition generic_parsed (props : list AXProperty) : ParsedAXNode :=
  mkParsedAXNode (PInt 7) (PStr "generic") (PStr "Save") PNone PNone
    props ["visible"] (PList []) PNone PNone (PBool false) false.


(** A raw node with role "generic" whose only property is an [onclick]
    entry of value [v]. *)
Definition generic_with_onclick (v : PyVal) : PyVal :=
  PDict [("nodeId", PInt 1);
         ("role", PDict [("value", PStr "generic")]);
         ("properties",
          PList [PDict [("name", PDict [("value", PStr "onclick")]);
                        ("value", PDict [("value", v)])]])].


(** A raw node that is not marked hidden at the top level and whose property
    list holds a [hidden] entry of value [True]. *)
Definition hidden_by_property : PyVal :=
  PDict [("nodeId", PInt 1);
         ("role", PDict [("value", PStr "button")]);
         ("name", PDict [("value", PStr "Menu")]);
         ("properties",
          PList [PDict [("name", PDict [("value", PStr "hidden")]);
                        ("value", PDict [("value", PBool true)])]])].

(** A raw node whose property list is not iterable. *)
Definition properties_not_iterable : PyVal :=
  PDict [("nodeId", PInt 2);
         ("role", PDict [("value", PStr "button")]);
         ("name", PDict [("value", PStr "Menu")]);
         ("properties", PInt 5)].


(** The name a raw node carries: [name_data.get('value', '') if name_data
    else ''] for [name_data = node_data.get('name', {})]. *)
Definition raw_name (kv : list (string * PyVal)) : Res PyVal :=
  Parser.value_of (match assoc_get "name" kv with
                   | Some v => v | None => PDict [] end) (PStr "").

(** The snapshot whose node list is [items]. *)
Definition snapshot_of (items : list PyVal) : PyVal :=
  PDict [("nodes", PList items)].

(** A raw node with the given identifier, role value and name. *)
Definition raw_node (id : Z) (role : PyVal) (name : string) : PyVal :=
  PDict [("nodeId", PInt id);
         ("role", PDict [("value", role)]);
         ("name", PDict [("value", PStr name)])].

End ParserSpec.

Module IndexerSpec.
Import Indexer.

(** Agreement of the two classifiers on a parsed node [p] and the
    [AccessibilityNode] [a] it converts to. *)
Definition categories_agree (config : AccessibilityConfig)
  (p : Parser.ParsedAXNode) (a : AccessibilityNode) : Prop :=
  _determine_index_type a = "interactive"
  ↔ Parser._is_node_interactive config p = Ok true.

(** A raw node of role "generic", named "Save", whose property list is
    [props]. *)
Definition generic_node (props : list PyVal) : PyVal :=
  PDict [("nodeId", PInt 42);
         ("role", PDict [("value", PStr "generic")]);
         ("name", PDict [("value", PStr "Save")]);
         ("properties", PList props)].

Definition clickable_property : PyVal :=
  PDict [("name", PDict [("value", PStr "clickable")]);
         ("value", PDict [("value", PBool true)])].


(** The index a node receives: the choice between the two allocators made
    in [_index_single_node]. *)
Definition get_or_create (self : ElementIndexer) (node : AccessibilityNode)
  : ElementIndexer * Z :=
  if String.eqb (_determine_index_type node) "interactive"
  then _get_or_create_interactive_index self node
  else _get_or_create_element_index self node.

(** The [IndexedNode] that [_index_single_node] builds for [node] once its
    index and depth are known. *)
Definition indexed_node_of (self : ElementIndexer) (node : AccessibilityNode)
  (index depth : Z) : IndexedNode :=
  mkIndexedNode node index (_get_parent_index self node)
    (_get_children_indices self node) depth (_is_node_new self node)
    (_extract_bounding_box node) (_generate_xpath node)
    (_extract_tag_name node) (_extract_attributes node)
    (String.eqb (_determine_index_type node) "interactive")
    (if String.eqb (_determine_index_type node) "interactive"
     then _determine_index_type node else "").

(** What holds of the three current maps at every point of a pass over
    [nodes]: indices lie below the counter, the identifier map and the node
    map agree, and every stored node is one of [nodes] filed under its own
    index. *)
Definition pass_invariant (nodes : list AccessibilityNode)
  (self : ElementIndexer) : Prop :=
  0 ≤ _element_counter self
  ∧ (∀ id idx, _node_id_to_index self !! id = Some idx →
       ∃ n, _index_to_node self !! idx = Some n ∧ node_id (node n) = id)
  ∧ (∀ idx n, _index_to_node self !! idx = Some n →
       index n = idx ∧ node n ∈ nodes ∧ 0 ≤ idx < _element_counter self).


(** A node with no parent, no children, no value and the given state. *)
Definition mk_node (id : Z) (role name : string)
  (st : list (string * PyVal)) (parent : option Z) : AccessibilityNode :=
  mkAccessibilityNode id role name None None (list_to_map st) [] parent None.

(** The indexer as first constructed, with the default configuration. *)
Definition fresh_indexer : ElementIndexer := __init__ DEFAULT_CONFIG.

Definition indices (out : list IndexedElement) : list Z :=
  map Types.index out.


(** A state label is included in a node's state when the state dictionary
    maps it to a truthy value; the parser maps every label it emits to
    [True]. *)
Definition state_includes (node : AccessibilityNode) (label : string) : Prop :=
  ∃ v, state node !! label = Some v ∧ truthy v = true.

(** The exclusion rule in the words of the specification. *)
Definition excluded (max_len : Z) (node : AccessibilityNode) : Prop :=
  state_includes node "hidden"
  ∨ (name node = "" ∧ node_role node = "generic")
  ∨ max_len < py_len (name node).

(** [e] is the [IndexedElement] made from [n], under some index. *)
Definition element_of (n : AccessibilityNode) (e : IndexedElement) : Prop :=
  ∃ self idx depth,
    _convert_to_indexed_element (indexed_node_of self n idx depth) = Ok e.

(** The identifier of [node] is filed in the maps of [self], with [node]
    stored under the index. *)
Definition index_assigned (self : ElementIndexer) (node : AccessibilityNode)
  (idx : Z) : Prop :=
  _node_id_to_index self !! node_id node = Some idx
  ∧ ∃ n, _index_to_node self !! idx = Some n ∧ Indexer.node n = node
         ∧ index n = idx.


(** One hop of the parent walk: the identifier [p] is filed in the current
    maps and the node stored for it names [p'] as its parent. *)
Definition parent_step (self : ElementIndexer) (p p' : Z) : Prop :=
  ∃ idx n, _node_id_to_index self !! p = Some idx
           ∧ _index_to_node self !! idx = Some n
           ∧ parent_id (node n) = Some p'.

(** The parent chain that starts at [start] has no cycle: every walk along
    [parent_step] from it is finite. *)
Definition chain_acyclic (self : ElementIndexer) (start : option Z) : Prop :=
  match start with
  | None => True
  | Some p => Acc (λ p' p, parent_step self p p') p
  end.

(** The parent links of a node list are acyclic: some rank decreases from
    every node to its parent. Links to identifiers that are not in the list
    are allowed. *)
Definition parents_ranked (nodes : list AccessibilityNode) (rank : Z → nat)
  : Prop :=
  ∀ n p, n ∈ nodes → parent_id n = Some p → (rank p < rank (node_id n))%nat.

(** A node that names itself as parent, and a second node below it. *)
Definition self_parent : AccessibilityNode :=
  mk_node 1 "button" "Menu" [] (Some 1).
Definition child_of_self_parent : AccessibilityNode :=
  mk_node 2 "link" "Item" [] (Some 1).


(** Fuel that suffices for a pass over [nodes] whose parent links are ranked
    by [rank]. *)
Definition pass_fuel (rank : Z → nat) (nodes : list AccessibilityNode) : nat :=
  S (max_list (map (λ n, match parent_id n with
                         | Some p => rank p
                         | None => 0%nat
                         end) nodes)).


(** Snapshot S1: eight buttons with identifiers 35 to 42; snapshot S2: the
    same without the unrelated node 36. *)
Definition item (id : Z) : AccessibilityNode :=
  mk_node id "button" "Item" [] None.
Definition snapshot_S1 : list AccessibilityNode :=
  map item [35; 36; 37; 38; 39; 40; 41; 42].
Definition snapshot_S2 : list AccessibilityNode :=
  map item [35; 37; 38; 39; 40; 41; 42].

(** A raw tree whose only node has an empty role string. *)
Definition empty_role_tree : PyVal :=
  PDict [("nodes",
          PList [PDict [("nodeId", PInt 7);
                        ("role", PDict [("value", PStr "")]);
                        ("name", PDict [("value", PStr "Caption")])]])].

Definition empty_role_node : AccessibilityNode :=
  mk_node 7 "" "Caption" [("visible", PBool true)] None.

(** A node the indexer categorizes as interactive by its state, with a role
    outside the [ElementRole] vocabulary. *)
Definition focusable_heading : AccessibilityNode :=
  mk_node 8 "heading" "Title" [("focusable", PBool true)] None.


(** The indexer's category of [n] rests on its role. *)
Definition category_by_role (n : AccessibilityNode) : Prop :=
  _determine_index_type n = "interactive" →
  node_role n ∈ indexer_interactive_roles.

(** Every stored node flagged interactive converts to an [IndexedElement]. *)
Definition stored_interactive_convertible (self : ElementIndexer) : Prop :=
  ∀ idx n, _index_to_node self !! idx = Some n → is_interactive n = true →
    ∃ e, _convert_to_indexed_element n = Ok e.


(** [n] with its [is_new] flag blanked: the one field of a stored node that
    depends on the previous-pass maps. *)
Definition erase_new (n : IndexedNode) : IndexedNode :=
  mkIndexedNode (node n) (index n) (parent_index n) (children_indices n)
    (depth n) false (bounding_box n) (xpath n) (tag_name n) (attributes n)
    (is_interactive n) (interactive_type n).

(** Two indexers agree on everything a pass reads when it assigns indices:
    configuration, counter and the three current maps (up to [is_new]). *)
Definition same_current (s1 s2 : ElementIndexer) : Prop :=
  config s1 = config s2
  ∧ _element_counter s1 = _element_counter s2
  ∧ _node_id_to_index s1 = _node_id_to_index s2
  ∧ _xpath_to_index s1 = _xpath_to_index s2
  ∧ erase_new <$> _index_to_node s1 = erase_new <$> _index_to_node s2.

(** Two runs that both diverge, or both return with outcomes related by
    [R]. *)
Definition same_outcome {A B} (R : A → B → Prop) (x : option A) (y : option B)
  : Prop :=
  match x, y with
  | Some a, Some b => R a b
  | None, None => True
  | _, _ => False
  end.


(** The nodes of a snapshot that pass the indexer's filter. *)
Definition eligible (self : ElementIndexer) (nodes : list AccessibilityNode)
  : list AccessibilityNode :=
  List.filter (_should_index_node self) nodes.

(** No two eligible nodes of the snapshot share an identifier. *)
Definition distinct_ids (self : ElementIndexer) (nodes : list AccessibilityNode)
  : Prop :=
  NoDup (map node_id (eligible self nodes)).

(** Every node comes before its children: no child identifier of a node is
    the identifier of a node earlier in the list. *)
Definition parents_first (nodes : list AccessibilityNode) : Prop :=
  ∀ l1 n l2, nodes = (l1 ++ n :: l2)%list →
    ∀ c, c ∈ children n → c ∉ map node_id l1.

(** A node with the given parent and children. *)
Definition tree_node (id : Z) (role name : string) (parent : option Z)
  (kids : list Z) : AccessibilityNode :=
  mkAccessibilityNode id role name None None ∅ kids parent None.

(** A form with two fields, listed parent first. *)
Definition form_snapshot : list AccessibilityNode :=
  [tree_node 1 "dialog" "Sign in" None [2; 3];
   tree_node 2 "textbox" "User" (Some 1) [];
   tree_node 3 "button" "Go" (Some 1) []].


(** A page whose root has a role outside the role vocabulary of the
    elements, with one button below it. *)
Definition page_snapshot : list AccessibilityNode :=
  [tree_node 1 "RootWebArea" "Page" None [2];
   tree_node 2 "button" "Go" (Some 1) []].

(** The links of the element [e] made from the stored node [m], read in the
    node map of [self]: the parent index names the stored node whose
    identifier is the parent identifier of [m], each child index names a
    stored node whose identifier is among the child identifiers of [m], and
    all of them lie below the index of [e]. *)
Definition links_backward (self : ElementIndexer) (m : IndexedNode)
  (e : IndexedElement) : Prop :=
  (∀ pi, Types.parent_index e = Some pi →
     0 ≤ pi < Types.index e
     ∧ ∃ n, _index_to_node self !! pi = Some n
            ∧ parent_id (node m) = Some (node_id (node n)))
  ∧ Forall (λ c, 0 ≤ c < Types.index e
                 ∧ ∃ n, _index_to_node self !! c = Some n
                        ∧ node_id (node n) ∈ children (node m))
      (Types.children_indices e).

(** The indexer after a new index has been handed out, and the node then
    filed under it. *)
Definition missed (self : ElementIndexer) : ElementIndexer :=
  with_counter_stats self (_element_counter self + 1)
    (bump_misses (_indexing_stats self)).

Definition filed (self : ElementIndexer) (node : AccessibilityNode) (depth : Z)
  : IndexedNode :=
  indexed_node_of (missed self) node (_element_counter self) depth.

(** A run of the loop of [index_elements] in which every eligible node
    finds its identifier not yet filed and so receives a new index. *)
Inductive miss_run (fuel : nat)
  : ElementIndexer → list AccessibilityNode → ElementIndexer
    → list IndexedElement → Prop :=
| miss_run_nil (self : ElementIndexer) : miss_run fuel self [] self []
| miss_run_skip (self : ElementIndexer) (node : AccessibilityNode)
    (nodes : list AccessibilityNode) (self' : ElementIndexer)
    (out : list IndexedElement) :
    _should_index_node self node = false →
    miss_run fuel self nodes self' out →
    miss_run fuel self (node :: nodes) self' out
| miss_run_take (self : ElementIndexer) (node : AccessibilityNode)
    (nodes : list AccessibilityNode) (self' : ElementIndexer)
    (out : list IndexedElement) (depth : Z) :
    _should_index_node self node = true →
    _node_id_to_index self !! node_id node = None →
    _calculate_depth fuel (missed self) node = Some depth →
    miss_run fuel (store (missed self) (filed self node depth)) nodes self' out →
    miss_run fuel self (node :: nodes) self'
      (match _convert_to_indexed_element (filed self node depth) with
       | Ok e => e :: out
       | Raise _ => out
       end).

(** The elements of [out] that satisfy [p], in the order of [out]. *)
Definition select (p : IndexedElement → bool) (out : list IndexedElement)
  : list IndexedElement :=
  List.filter p out.

Definition has_role (role : ElementRole) (e : IndexedElement) : bool :=
  String.eqb (ElementRole_value (Types.role e)) (ElementRole_value role).


(** The exclusion rule as the filter applies it: the length of the name is
    compared with the maximum only when the name is not empty. *)
Definition filtered_out (max_len : Z) (node : AccessibilityNode) : Prop :=
  state_includes node "hidden"
  ∨ (name node = "" ∧ node_role node = "generic")
  ∨ (name node ≠ "" ∧ max_len < py_len (name node)).

(** An indexer whose configured maximum text length is -1, and a button
    without a name. *)
Definition negative_limit_indexer : ElementIndexer :=
  __init__ (mkDOMAnalyzerConfig
              (mkAccessibilityConfig 1 (-1) default_interactive_roles)
              default_IndexingConfig).

Definition unnamed_button : AccessibilityNode := mk_node 1 "button" "" [] None.

(** What the walk finds at the identifier [p]: nothing when [p] names no
    stored node, else the parent identifier of the node stored for it. *)
Definition stored_parent (self : ElementIndexer) (p : Z) : option (option Z) :=
  match _node_id_to_index self !! p with
  | None => None
  | Some idx =>
      match _index_to_node self !! idx with
      | None => None
      | Some n => Some (parent_id (node n))
      end
  end.

(** [path] lists the identifiers met on the way up from [start], one for
    each hop: every one but the last names a stored node whose parent is the
    next, and the last names no stored node or a stored node without
    parent. *)
Fixpoint chain_path (self : ElementIndexer) (start : option Z) (path : list Z)
  : Prop :=
  match path with
  | [] => start = None
  | p :: rest =>
      start = Some p
      ∧ match stored_parent self p with
        | None => rest = []
        | Some next => chain_path self next rest
        end
  end.

(** A chain of three nodes, each the parent of the next, and a leaf below
    the last. *)
Definition chain_snapshot : list AccessibilityNode :=
  [mk_node 1 "dialog" "Top" [] None;
   mk_node 2 "toolbar" "Middle" [] (Some 1);
   mk_node 3 "menu" "Bottom" [] (Some 2)].

Definition chain_leaf : AccessibilityNode :=
  mk_node 4 "link" "Leaf" [] (Some 3).

End IndexerSpec.

Module AnalyzerSpec.
Import Analyzer.

(** The two cache tables describe the same analyses: a key has a stored
    result exactly when it has a stored time, and that time is the
    result's timestamp. *)
Definition cache_consistent (self : DOMAnalyzer) : Prop :=
  ∀ k, match _analysis_cache self !! k, _last_analysis_time self !! k with
       | Some r, Some t => t = timestamp r
       | None, None => True
       | _, _ => False
       end.


(** A one-button page, and a world that answers every request, with all
    clock readings of a call at [t]. *)
Definition one_button_tree : PyVal :=
  PDict [("nodes",
          PList [PDict [("nodeId", PInt 42);
                        ("role", PDict [("value", PStr "button")]);
                        ("name", PDict [("value", PStr "Submit")])]])].

Definition world_at (t : Q) : World :=
  mkWorld t t t t (Ok tt) (Ok (PStr "http://localhost/", PStr "Home"))
    (Ok one_button_tree) None.


(** What every cached result satisfies: it is filed under its own key, its
    two counts are the lengths of its two element lists, and its interactive
    elements are in strictly increasing index order, flagged interactive, of
    an interactive role and without states. *)
Definition result_wellformed (k : string) (r : PageAnalysisResult) : Prop :=
  target_id r = k
  ∧ total_elements r = Z.of_nat (length (indexed_elements r))
  ∧ interactive_count r = Z.of_nat (length (interactive_elements r))
  ∧ StronglySorted Z.lt (IndexerSpec.indices (interactive_elements r))
  ∧ Forall (λ e, Types.is_interactive e = true
                 ∧ ElementRole_value (Types.role e)
                   ∈ Indexer.indexer_interactive_roles
                 ∧ Types.states e = [])
      (interactive_elements r).

(** The invariant of the analyzer: the two cache tables agree, every cached
    result is well formed, and the counters are related as the code moves
    them: completed analyses are among the misses, and there is no hit and
    no cached result before the first completed analysis. *)
Definition analyzer_invariant (self : DOMAnalyzer) : Prop :=
  cache_consistent self
  ∧ (∀ k r, _analysis_cache self !! k = Some r → result_wellformed k r)
  ∧ 0 ≤ cache_hits (_analysis_stats self)
  ∧ 0 ≤ total_analyses (_analysis_stats self)
      ≤ cache_misses (_analysis_stats self)
  ∧ (0 < cache_hits (_analysis_stats self)
     ∨ (∃ k, is_Some (_analysis_cache self !! k)) →
     0 < total_analyses (_analysis_stats self)).

(** The analyzers a program can hold: a new one, and what calls of
    [analyze_page] and [clear_cache] that return leave behind. *)
Inductive reachable (md5 : string → string) (P : Pydantic)
  : DOMAnalyzer → Prop :=
| reachable_init (config : DOMAnalyzerConfig) : reachable md5 P (__init__ config)
| reachable_analyze (self self' : DOMAnalyzer) (fuel : nat) (w : World)
    (target_id : string) (force_refresh : bool) (r : Res PageAnalysisResult) :
    reachable md5 P self →
    analyze_page md5 P fuel w self target_id force_refresh = Some (self', r) →
    reachable md5 P self'
| reachable_clear (self : DOMAnalyzer) (target_id : option string) :
    reachable md5 P self → reachable md5 P (clear_cache self target_id).

(** The sum of the counts of a role distribution. *)
Definition total_count (role_stats : gmap string Z) : Z :=
  map_fold (λ _ c acc, c + acc) 0 role_stats.

(** A page with a heading, a button and a link. *)
Definition three_node_tree : PyVal :=
  PDict [("nodes",
          PList [ParserSpec.raw_node 1 (PStr "heading") "News";
                 ParserSpec.raw_node 2 (PStr "button") "More";
                 ParserSpec.raw_node 3 (PStr "link") "Home"])].

(** A world in which the browser cannot be reached. *)
Definition offline_world (t : Q) : World :=
  mkWorld t t t t (Raise ValueError) (Raise ValueError) (Raise ValueError) None.

(** A world that serves the three-node page at [t]. *)
Definition three_node_world (t : Q) : World :=
  mkWorld t t t t (Ok tt) (Ok (PStr "http://localhost/", PStr "News"))
    (Ok three_node_tree) None.

End AnalyzerSpec.


(* ===================================================================== *)
(** * Facts about Python values *)
(* ===================================================================== *)

Module PyFacts.

Lemma mem_str_spec (s : string) (l : list string) :
  mem_str s l = true ↔ s ∈ l.
Proof.
  unfold mem_str. induction l as [|x l IH]; simpl.
  - split; [discriminate | intros H; inversion H].
  - rewrite orb_true_iff, String.eqb_eq, IH, elem_of_cons. tauto.
Qed.

Lemma mem_str_false (s : string) (l : list string) :
  mem_str s l = false ↔ s ∉ l.
Proof.
  rewrite <- mem_str_spec. destruct (mem_str s l); split; intros; congruence.
Qed.

Lemma py_in_strs_hashable (v : PyVal) (S : list string) :
  hashable v = true →
  py_in_strs v S = Ok (match v with PStr s => mem_str s S | _ => false end).
Proof. destruct v; simpl; intros; congruence. Qed.

Lemma existsb_elem_of {A} (f : A → bool) (l : list A) :
  existsb f l = true ↔ ∃ x, x ∈ l ∧ f x = true.
Proof.
  rewrite existsb_exists. split; intros (x & Hx & Hf); exists x; split; auto;
    by apply list_elem_of_In.
Qed.

End PyFacts.

(* ===================================================================== *)
(** * Facts about the parser *)
(* ===================================================================== *)

Module ParserFacts.
Import Parser ParserSpec PyFacts.

Lemma py_any_named_truthy (S : list string) (props : list AXProperty) :
  Forall (λ p, hashable (prop_name p) = true) props →
  py_any (λ prop, named ← py_in_strs (prop_name prop) S;
                  Ok (named && truthy (prop_value prop))) props
  = Ok (existsb (λ p, named_in S p && truthy (prop_value p)) props).
Proof.
  induction 1 as [|p props Hp _ IH]; simpl; [done|].
  rewrite (py_in_strs_hashable _ _ Hp). simpl. fold (named_in S p).
  destruct (named_in S p && truthy (prop_value p)); simpl; [done | apply IH].
Qed.

Lemma py_any_named (S : list string) (props : list AXProperty) :
  Forall (λ p, hashable (prop_name p) = true) props →
  py_any (λ prop, py_in_strs (prop_name prop) S) props
  = Ok (existsb (named_in S) props).
Proof.
  induction 1 as [|p props Hp _ IH]; simpl; [done|].
  rewrite (py_in_strs_hashable _ _ Hp). fold (named_in S p).
  destruct (named_in S p); simpl; [done | apply IH].
Qed.

Lemma named_in_spec (S : list string) (p : AXProperty) :
  named_in S p = true ↔ ∃ n, prop_name p = PStr n ∧ n ∈ S.
Proof.
  unfold named_in. destruct (prop_name p) as [| | |s| |];
    try (split; [discriminate | intros (n & Hn & _); discriminate]).
  rewrite mem_str_spec. split.
  - intros H. by exists s.
  - intros (n & Hn & Hin). by inversion Hn; subst.
Qed.

(** The classifier as one boolean, for nodes with hashable names. *)
Lemma _is_node_interactive_hashable (config : AccessibilityConfig)
  (node : ParsedAXNode) :
  names_hashable node →
  _is_node_interactive config node =
  Ok (role_in (interactive_roles config) node
      || existsb (λ s, mem_str s interactive_states) (states node)
      || existsb (λ p, named_in interactive_properties p && truthy (prop_value p))
           (properties node)
      || existsb (named_in event_properties) (properties node)).
Proof.
  intros [Hrole Hprops]. unfold _is_node_interactive.
  rewrite (py_in_strs_hashable _ _ Hrole). fold (role_in (interactive_roles config) node).
  rewrite (py_any_named_truthy _ _ Hprops), (py_any_named _ _ Hprops).
  destruct (role_in (interactive_roles config) node); simpl; [done|].
  destruct (existsb _ (states node)); simpl; [done|].
  destruct (existsb _ (properties node)); simpl; [done|].
  by destruct (existsb _ (properties node)).
Qed.


Lemma py_in_strs_Ok (v : PyVal) (S : list string) (b : bool) :
  py_in_strs v S = Ok b → (b = true ↔ ∃ s, v = PStr s ∧ s ∈ S).
Proof.
  destruct v as [| | |s| |]; simpl; intros [= <-];
    try (split; [discriminate | by intros (s' & ? & _)]).
  rewrite mem_str_spec. split; [intros ?; by exists s|].
  by intros (s' & [= <-] & ?).
Qed.

Lemma py_any_Ok {A} (f : A → Res bool) (l : list A) (b : bool) :
  py_any f l = Ok b →
  if b then ∃ x, x ∈ l ∧ f x = Ok true else ∀ x, x ∈ l → f x = Ok false.
Proof.
  induction l as [|x l IH]; simpl.
  - intros [= <-]. intros x Hx. by apply elem_of_nil in Hx.
  - destruct (f x) as [[|]|] eqn:Hx; [| |discriminate].
    + intros [= <-]. exists x. split; [by left | done].
    + intros H. specialize (IH H). destruct b.
      * destruct IH as (y & Hy & Hfy). exists y. split; [by right | done].
      * intros y Hy. apply elem_of_cons in Hy as [->|Hy]; [done | by apply IH].
Qed.

(** The classifier returns true exactly under the rule. *)
Lemma _is_node_interactive_rule (config : AccessibilityConfig)
  (node : ParsedAXNode) (b : bool) :
  _is_node_interactive config node = Ok b →
  (b = true ↔ interactive_rule config node).
Proof.
  unfold interactive_rule.
  set (by_state := ∃ s, s ∈ states node ∧ s ∈ ["button"; "link"; "menuitem"; "tab"]).
  set (by_property := ∃ p n, p ∈ properties node ∧ prop_name p = PStr n
           ∧ n ∈ ["clickable"; "pressable"; "selectable"]
           ∧ truthy (prop_value p) = true).
  set (by_event := ∃ p n, p ∈ properties node ∧ prop_name p = PStr n
           ∧ n ∈ ["onclick"; "onkeydown"; "onkeyup"; "onsubmit"]).
  unfold _is_node_interactive.
  destruct (py_in_strs (role node) (interactive_roles config)) as [br|] eqn:Hr;
    [|discriminate].
  apply py_in_strs_Ok in Hr.
  destruct br; [intros [= <-]; split; [intros _; left; by apply Hr | done]|].
  assert (Hnr : ¬ ∃ r, role node = PStr r ∧ r ∈ interactive_roles config)
    by (intros H; by apply Hr in H).
  destruct (existsb _ (states node)) eqn:Hs.
  { intros [= <-]. split; [intros _|done]. right; left.
    apply existsb_elem_of in Hs as (s & Hs & Hm). exists s.
    split; [done | by apply mem_str_spec]. }
  assert (Hns : ¬ by_state).
  { intros (s & Hin & Hm).
    assert (existsb (λ s, mem_str s interactive_states) (states node) = true);
      [|congruence].
    apply existsb_elem_of. exists s. split; [done | by apply mem_str_spec]. }
  destruct (py_any _ (properties node)) as [bp|] eqn:Hp; [|discriminate].
  apply py_any_Ok in Hp.
  assert (Hprop : ∀ p bb,
            (named ← py_in_strs (prop_name p) interactive_properties;
             Ok (named && truthy (prop_value p))) = Ok bb →
            (bb = true ↔ ∃ n, prop_name p = PStr n
                              ∧ n ∈ interactive_properties
                              ∧ truthy (prop_value p) = true)).
  { intros p bb. cbv [mbind Res_bind].
    destruct (py_in_strs (prop_name p) interactive_properties) as [bn|] eqn:Hn;
      [|discriminate].
    apply py_in_strs_Ok in Hn. intros [= <-]. rewrite andb_true_iff, Hn.
    split; [intros [(n & ? & ?) ?]; by exists n
           | intros (n & ? & ? & ?); split; [by exists n | done]]. }
  destruct bp.
  { intros [= <-]. split; [intros _|done]. right; right; left.
    destruct Hp as (p & Hin & Hpt). apply Hprop in Hpt.
    destruct Hpt as [Hpt _]. destruct (Hpt eq_refl) as (n & ? & ? & ?).
    by exists p, n. }
  assert (Hnp : ¬ by_property).
  { intros (p & n & Hin & Hn & Hm & Ht). specialize (Hp p Hin).
    apply Hprop in Hp. destruct Hp as [_ Hp].
    assert (false = true); [|done]. apply Hp. by exists n. }
  destruct (py_any _ (properties node)) as [be|] eqn:He; [|discriminate].
  apply py_any_Ok in He. destruct be.
  { intros [= <-]. split; [intros _|done]. right; right; right.
    destruct He as (p & Hin & Hpt). apply py_in_strs_Ok in Hpt.
    destruct Hpt as [Hpt _]. destruct (Hpt eq_refl) as (n & ? & ?).
    by exists p, n. }
  intros [= <-]. split; [done|].
  intros [?|[?|[?|(p & n & Hin & Hn & Hm)]]]; try done.
  specialize (He p Hin). apply py_in_strs_Ok in He. destruct He as [_ He].
  apply He. by exists n.
Qed.

(** The second pass of the parser changes nothing of a node but its flag,
    which it sets to what the classifier returns. *)
Lemma classify_all_flags (config : AccessibilityConfig)
  (nodes classified : list ParsedAXNode) :
  classify_all config nodes = Ok classified →
  Forall2 (λ node flagged,
             flagged = set_is_interactive node (is_interactive flagged)
             ∧ _is_node_interactive config node = Ok (is_interactive flagged))
    nodes classified.
Proof.
  revert classified. induction nodes as [|n nodes IH]; intros classified.
  - intros [= <-]. constructor.
  - cbn [classify_all]. cbv [mbind Res_bind].
    destruct (_is_node_interactive config n) as [b|] eqn:Hb; [|discriminate].
    destruct (classify_all config nodes) as [rest|]; [|discriminate].
    intros [= <-]. constructor; [by split | by apply IH].
Qed.

Lemma classify_all_hashable (config : AccessibilityConfig)
  (nodes : list ParsedAXNode) :
  Forall names_hashable nodes →
  ∃ classified, classify_all config nodes = Ok classified.
Proof.
  induction 1 as [|n nodes Hn _ [rest IH]]; [by eexists|].
  cbn [classify_all]. cbv [mbind Res_bind].
  rewrite (_is_node_interactive_hashable _ _ Hn), IH. by eexists.
Qed.

(** C6. Parser interactivity classification. The second pass of the parser
    sets the flag [is_interactive] of every parsed node and changes nothing
    else of it; whenever the pass returns, and it does when the role and the
    property names of every node are hashable, the flag of each node it
    returns is true if and only if the role of the node is in the configured
    interactive-role vocabulary, or one of its state labels is button, link,
    menuitem or tab, or one of its properties is named clickable, pressable
    or selectable and has a truthy value, or one of its properties is named
    onclick, onkeydown, onkeyup or onsubmit, whatever its value. In
    particular a node of role "button" is flagged interactive under the
    default vocabulary, a node of role "generic" without a qualifying state
    or property is flagged not interactive, and a raw node of role "generic"
    carrying an onclick property of any extracted value, False included,
    comes out of the two parser passes flagged interactive. *)
Theorem C6_parser_interactivity (config : AccessibilityConfig)
  (nodes : list ParsedAXNode) :
  (∀ classified, classify_all config nodes = Ok classified →
     Forall2 (λ node flagged,
                flagged = set_is_interactive node (is_interactive flagged)
                ∧ (is_interactive flagged = true
                   ↔ interactive_rule config flagged))
       nodes classified)
  ∧ (Forall names_hashable nodes →
     ∃ classified, classify_all config nodes = Ok classified)
  ∧ (∀ node, role node = PStr "button" →
       ∃ n, classify_all default_AccessibilityConfig [node] = Ok [n]
            ∧ is_interactive n = true)
  ∧ (∀ node, role node = PStr "generic" → names_hashable node →
       (∀ s, s ∈ states node → s ∉ ["button"; "link"; "menuitem"; "tab"]) →
       (∀ p n, p ∈ properties node → prop_name p = PStr n →
          (n ∉ ["onclick"; "onkeydown"; "onkeyup"; "onsubmit"])
          ∧ (n ∈ ["clickable"; "pressable"; "selectable"] →
             truthy (prop_value p) = false)) →
       ∃ n, classify_all default_AccessibilityConfig [node] = Ok [n]
            ∧ is_interactive n = false)
  ∧ (∀ v, is_None v = false →
       ∃ n, classify_all default_AccessibilityConfig
              (parse_all default_AccessibilityConfig [generic_with_onclick v])
            = Ok [n]
            ∧ role n = PStr "generic" ∧ is_interactive n = true).
Proof.
  split; [|split; [|split; [|split]]].
  - intros classified Hclass. apply classify_all_flags in Hclass.
    eapply Forall2_impl; [exact Hclass|]. intros node flagged [Heq Hb].
    split; [exact Heq|]. rewrite (_is_node_interactive_rule _ _ _ Hb).
    rewrite Heq. unfold interactive_rule. simpl. reflexivity.
  - apply classify_all_hashable.
  - intros node Hrole. cbn [classify_all]. cbv [mbind Res_bind].
    unfold _is_node_interactive. rewrite Hrole. by eexists.
  - intros node Hrole H Hstates Hprops. cbn [classify_all]. cbv [mbind Res_bind].
    destruct (_is_node_interactive default_AccessibilityConfig node) as [b|] eqn:Hb.
    2:{ rewrite (_is_node_interactive_hashable _ _ H) in Hb. discriminate. }
    eexists. split; [reflexivity|]. simpl.
    apply not_true_is_false. intros Htrue.
    apply (_is_node_interactive_rule _ _ _ Hb) in Htrue.
    destruct Htrue as [(r & Hr & Hin)|[(s & Hs & Hin)|[(p & n & Hp & Hn & Hin & Ht)
                                                      |(p & n & Hp & Hn & Hin)]]].
    + rewrite Hrole in Hr. inversion Hr; subst r.
      apply mem_str_spec in Hin. discriminate Hin.
    + by apply (Hstates s Hs).
    + destruct (Hprops p n Hp Hn) as [_ Hf]. rewrite (Hf Hin) in Ht. discriminate.
    + destruct (Hprops p n Hp Hn) as [Hf _]. by apply Hf.
  - intros v Hv. destruct v; try discriminate Hv; vm_compute; eexists;
      (split; [reflexivity|split; reflexivity]).
Qed.

(** The second pass on two parsed nodes of role "generic", the first with a
    clickable property of value True, the second with none: the first is
    flagged interactive, the second is not. *)
Lemma C6_parser_interactivity_witness :
  ∃ first second,
    classify_all default_AccessibilityConfig
      [generic_parsed [mkAXProperty (PStr "clickable") (PBool true) "accessibility"];
       generic_parsed []]
    = Ok [first; second]
    ∧ is_interactive first = true ∧ is_interactive second = false
    ∧ interactive_rule default_AccessibilityConfig first
    ∧ ¬ interactive_rule default_AccessibilityConfig second.
Proof.
  destruct (C6_parser_interactivity default_AccessibilityConfig
              [generic_parsed [mkAXProperty (PStr "clickable") (PBool true)
                                 "accessibility"];
               generic_parsed []]) as (Hflags & Hret & _).
  destruct Hret as [classified Hclass].
  { repeat constructor. }
  specialize (Hflags classified Hclass).
  assert (Hshape : ∃ first second, classified = [first; second]
                     ∧ is_interactive first = true
                     ∧ is_interactive second = false).
  { vm_compute in Hclass. inversion Hclass. by do 2 eexists. }
  destruct Hshape as (first & second & -> & H1 & H2).
  exists first, second. split; [exact Hclass|]. split; [exact H1|].
  split; [exact H2|].
  inversion Hflags as [|? ? ? ? [_ Ha] Hrest]; subst.
  inversion Hrest as [|? ? ? ? [_ Hb] _]; subst.
  split; [by apply Ha|]. intros Hrule. apply Hb in Hrule. congruence.
Defined.

(** C7. Visibility-state invariant, evaluated on the code: a raw node that
    is not marked hidden but carries a truthy [hidden] property is accepted
    by the parser with both labels "hidden" and "visible" in its state list;
    a raw node whose property list cannot be iterated is accepted with
    neither label. *)
Theorem C7_visibility_labels_not_exclusive :
  (∃ n, _parse_single_node default_AccessibilityConfig hidden_by_property = Ok n
        ∧ states n = ["hidden"; "visible"])
  ∧ (∃ n, _parse_single_node default_AccessibilityConfig properties_not_iterable
          = Ok n
          ∧ states n = []).
Proof. split; vm_compute; eexists; split; reflexivity. Qed.

(** What the visibility rule does guarantee: when the property loop runs to
    its end, the state list ends with the one label the top-level [hidden]
    field selects, and every label before it comes from the property list
    or from the eight top-level boolean fields. *)
Lemma visibility_rule_appends_one (kv : list (string * PyVal))
  (items : list PyVal) (from_props : list string) :
  py_iter (match assoc_get "properties" kv with
           | Some v => v | None => PList [] end) = Ok items →
  states_loop items [] = (from_props, None) →
  ∃ from_fields,
    _extract_node_states (PDict kv)
    = (from_props ++ from_fields
       ++ [(if marked_hidden kv then "hidden" else "visible")])%list
    ∧ ("hidden" ∉ from_fields) ∧ ("visible" ∉ from_fields).
Proof.
  intros Hiter Hloop. unfold _extract_node_states. rewrite Hiter, Hloop.
  exists (node_field_state kv "checked" ++ node_field_state kv "expanded"
          ++ node_field_state kv "selected" ++ node_field_state kv "disabled"
          ++ node_field_state kv "readonly" ++ node_field_state kv "required"
          ++ node_field_state kv "invalid" ++ node_field_state kv "focused")%list.
  split; [rewrite <- !app_assoc; by destruct (marked_hidden kv)|].
  assert (Hf : ∀ k l, l ∈ node_field_state kv k → l = k).
  { intros k l. unfold node_field_state.
    destruct (assoc_get k kv) as [v|]; [destruct (truthy v)|];
      rewrite ?elem_of_cons, ?elem_of_nil; tauto. }
  split; intros Hin; repeat (apply elem_of_app in Hin as [Hin|Hin]);
    apply Hf in Hin; discriminate Hin.
Qed.

End ParserFacts.

(* ===================================================================== *)
(** * Facts about the indexer *)
(* ===================================================================== *)

Module IndexerFacts.
Import Indexer IndexerSpec PyFacts.

(** One step through a sequence of fallible calls that ends in [Ok]. *)
Ltac step_res :=
  match goal with
  | |- (match ?m with Ok _ => _ | Raise _ => _ end) = Ok _ → _ =>
      destruct m; [|discriminate]
  end.

Lemma _determine_index_type_cases (n : AccessibilityNode) :
  _determine_index_type n = "interactive" ∨ _determine_index_type n = "element".
Proof.
  unfold _determine_index_type.
  destruct (mem_str _ _); [by left|]. destruct (existsb _ _); [by left | by right].
Qed.

Lemma _determine_index_type_spec (n : AccessibilityNode) :
  _determine_index_type n = "interactive"
  ↔ node_role n ∈ indexer_interactive_roles
    ∨ ∃ s, s ∈ indexer_interactive_states ∧ is_Some (state n !! s).
Proof.
  unfold _determine_index_type. rewrite <- mem_str_spec.
  destruct (mem_str (node_role n) indexer_interactive_roles); [tauto|].
  destruct (existsb _ _) eqn:He.
  - apply existsb_elem_of in He as (s & Hs & Hb). apply bool_decide_eq_true in Hb.
    split; [intros _; right; by exists s | done].
  - split; [discriminate|]. intros [?|(s & Hs & Hsome)]; [discriminate|].
    assert (existsb (λ s, bool_decide (is_Some (state n !! s)))
              indexer_interactive_states = true); [|congruence].
    apply existsb_elem_of. exists s. split; [done|]. by apply bool_decide_eq_true.
Qed.

(** Every label the state extraction emits belongs to the vocabulary of
    [important_states]. *)
Lemma states_loop_vocabulary (items : list PyVal) (acc out : list string)
  (e : option exn) :
  Forall (λ s, s ∈ Parser.important_states) acc →
  Parser.states_loop items acc = (out, e) →
  Forall (λ s, s ∈ Parser.important_states) out.
Proof.
  revert acc. induction items as [|x items IH]; simpl; intros acc Hacc Hrun.
  - by inversion Hrun; subst.
  - destruct (Parser.read_prop x) as [[pname pvalue]|]; [|by inversion Hrun; subst].
    destruct (py_in_strs pname Parser.important_states) as [b|] eqn:Hin;
      [|by inversion Hrun; subst].
    eapply IH; [|exact Hrun].
    destruct (b && truthy pvalue) eqn:Hb; [|done].
    destruct pname; try done.
    apply Forall_app. split; [done|]. constructor; [|done].
    apply andb_true_iff in Hb as [-> _]. simpl in Hin. inversion Hin.
    by apply mem_str_spec.
Qed.

Lemma node_field_state_vocabulary (kv : list (string * PyVal)) (k : string) :
  k ∈ Parser.important_states →
  Forall (λ s, s ∈ Parser.important_states) (Parser.node_field_state kv k).
Proof.
  intros Hk. unfold Parser.node_field_state.
  destruct (assoc_get k kv) as [v|]; [destruct (truthy v)|];
    repeat (constructor; try done).
Qed.

Lemma _extract_node_states_vocabulary (node_data : PyVal) :
  Forall (λ s, s ∈ Parser.important_states) (Parser._extract_node_states node_data).
Proof.
  unfold Parser._extract_node_states. destruct node_data; try by constructor.
  destruct (py_iter _) as [items|]; [|by constructor].
  destruct (Parser.states_loop items []) as [acc [e|]] eqn:Hloop.
  - eapply states_loop_vocabulary; [|exact Hloop]. constructor.
  - assert (Hv : ∀ k, mem_str k Parser.important_states = true →
                      k ∈ Parser.important_states)
      by (intros k; apply mem_str_spec).
    repeat (apply Forall_app; split);
      try (apply node_field_state_vocabulary, Hv; reflexivity).
    + eapply states_loop_vocabulary; [|exact Hloop]. constructor.
    + destruct (Parser.marked_hidden kv); repeat constructor; by apply Hv.
Qed.

Lemma _parse_single_node_states (config : AccessibilityConfig)
  (node_data : PyVal) (p : Parser.ParsedAXNode) :
  Parser._parse_single_node config node_data = Ok p →
  Parser.states p = Parser._extract_node_states node_data.
Proof.
  unfold Parser._parse_single_node.
  destruct node_data; try discriminate. cbn [py_get mbind Res_bind].
  repeat (match goal with
          | |- context [Parser.value_of ?d ?v] =>
              destruct (Parser.value_of d v); cbn [mbind Res_bind]; [|discriminate]
          end).
  destruct (Parser.is_text_valid _ _); cbn [mbind Res_bind]; [|discriminate].
  by intros [= <-].
Qed.

Lemma state_dict_lookup (l : list string) (m : gmap string PyVal) (k : string) :
  is_Some (foldl (λ d s, <[s := PBool true]> d) m l !! k) →
  k ∈ l ∨ is_Some (m !! k).
Proof.
  revert m. induction l as [|x l IH]; simpl; intros m H; [by right|].
  apply IH in H as [H|H]; [left; by right|].
  destruct (decide (x = k)) as [->|Hne]; [left; by left|].
  rewrite lookup_insert_ne in H by done. by right.
Qed.

(** The text of a number is not the name of an interactive role. *)
Lemma str_of_int_not_role (z : Z) : str_of_int z ∉ indexer_interactive_roles.
Proof.
  intros Hin.
  assert (Hread : NilZero.int_of_string (str_of_int z) = Some (Z.to_int z)).
  { unfold str_of_int. apply NilZero.isi; destruct z; try discriminate;
      simpl; intros [= H]; by apply DecimalPos.Unsigned.to_uint_nonnil in H. }
  unfold indexer_interactive_roles in Hin.
  repeat (apply elem_of_cons in Hin as [Hin|Hin];
          [rewrite Hin in Hread; discriminate Hread|]).
  by apply elem_of_nil in Hin.
Qed.

(** What [validate_str] stores: the string itself, or the text of a number,
    which is never the name of an interactive role. *)
Lemma validate_str_role (P : Pydantic) (v : PyVal) (s : string) :
  validate_str P v = Ok s →
  v = PStr s ∨ (hashable v = true ∧ (∀ r, v ≠ PStr r)
                ∧ s ∉ indexer_interactive_roles).
Proof.
  destruct v as [|b|z|r|l|kv]; simpl; try discriminate.
  - destruct (str_of_numbers P); [|discriminate]. intros [= <-]. right.
    split; [done|]. split; [done|].
    destruct b; unfold indexer_interactive_roles;
      rewrite !not_elem_of_cons; repeat split; try discriminate;
      apply not_elem_of_nil.
  - destruct (str_of_numbers P); [|discriminate]. intros [= <-]. right.
    split; [done|]. split; [done|]. apply str_of_int_not_role.
  - intros [= <-]. by left.
Qed.

Lemma _convert_to_accessibility_node_fields (P : Pydantic)
  (p : Parser.ParsedAXNode) (a : AccessibilityNode) :
  Parser._convert_to_accessibility_node P p = Ok a →
  validate_str P (Parser.role p) = Ok (node_role a)
  ∧ state a = foldl (λ d s, <[s := PBool true]> d) ∅ (Parser.states p).
Proof.
  unfold Parser._convert_to_accessibility_node. cbv [mbind Res_bind].
  destruct (Parser.check_property_keys _); [|discriminate].
  destruct (validate_int P _); [|discriminate].
  destruct (validate_str P (Parser.role p)) as [r|]; [|discriminate].
  repeat step_res. by intros [= <-].
Qed.


(** On a node the parser produced the indexer's category is decided by the
    role alone: the state map has none of the four keys the indexer tests. *)
Lemma parsed_node_category (P : Pydantic) (config : AccessibilityConfig)
  (node_data : PyVal) (p : Parser.ParsedAXNode) (a : AccessibilityNode) :
  Parser._parse_single_node config node_data = Ok p →
  Parser._convert_to_accessibility_node P p = Ok a →
  _determine_index_type a = "interactive"
  ↔ node_role a ∈ indexer_interactive_roles.
Proof.
  intros Hparse Hconv.
  rewrite _determine_index_type_spec. split; [|by left].
  intros [H|(s & Hs & Hsome)]; [done|exfalso].
  destruct (_convert_to_accessibility_node_fields _ _ _ Hconv) as [_ Hstate].
  rewrite Hstate in Hsome. apply state_dict_lookup in Hsome as [Hin|Hin].
  - rewrite (_parse_single_node_states _ _ _ Hparse) in Hin.
    pose proof (_extract_node_states_vocabulary node_data) as Hv.
    rewrite Forall_forall in Hv. apply Hv, mem_str_spec in Hin.
    apply mem_str_spec in Hs.
    unfold indexer_interactive_states, mem_str in Hs. simpl in Hs.
    repeat (apply orb_true_iff in Hs as [Hs|Hs];
            [apply String.eqb_eq in Hs; subst s; discriminate Hin|]).
    discriminate Hs.
  - rewrite lookup_empty in Hin. by destruct Hin.
Qed.

(** C2, as stated, fails: a parsed node of role "generic" with a truthy
    [clickable] property is interactive for the parser, while the node it
    converts to is put in the "element" category by the indexer, the same
    category as without the property. *)
Lemma C2_categories_disagree :
  ∃ p a p' a',
    Parser._parse_single_node default_AccessibilityConfig
      (generic_node [clickable_property]) = Ok p
    ∧ Parser._convert_to_accessibility_node decimal_numerals p = Ok a
    ∧ ¬ categories_agree default_AccessibilityConfig p a
    ∧ Parser._parse_single_node default_AccessibilityConfig (generic_node [])
      = Ok p'
    ∧ Parser._convert_to_accessibility_node decimal_numerals p' = Ok a'
    ∧ _determine_index_type a' = "element"
    ∧ _determine_index_type a = "element".
Proof.
  do 4 eexists.
  split; [vm_compute; reflexivity|].
  split; [vm_compute; reflexivity|].
  split.
  { unfold categories_agree. intros [_ H].
    assert (Hi : _determine_index_type
                   (mkAccessibilityNode 42 "generic" "Save" None None
                      (foldl (λ d s, <[s := PBool true]> d) ∅ ["visible"])
                      [] None None) = "interactive")
      by (apply H; vm_compute; reflexivity).
    vm_compute in Hi. discriminate Hi. }
  split; [vm_compute; reflexivity|].
  split; [vm_compute; reflexivity|].
  split; vm_compute; reflexivity.
Qed.

(** C2, amended. The indexer puts a node in the "interactive" category
    exactly when its role is in the indexer's fixed role set or its state map
    has a key among clickable, pressable, selectable, focusable. On a node
    the parser produced no such key exists, so the category is decided by the
    role alone, a node whose role is outside that set being an "element"
    whatever its properties; with the default role vocabulary every node the
    indexer categorizes as interactive is therefore interactive for the
    parser. *)
Theorem C2_indexer_category (P : Pydantic) (config : AccessibilityConfig)
  (node_data : PyVal) (p : Parser.ParsedAXNode) (a : AccessibilityNode)
  (Hparse : Parser._parse_single_node config node_data = Ok p)
  (Hconv : Parser._convert_to_accessibility_node P p = Ok a) :
  (∀ n, _determine_index_type n = "interactive"
        ↔ node_role n ∈ indexer_interactive_roles
          ∨ ∃ s, s ∈ ["clickable"; "pressable"; "selectable"; "focusable"]
                 ∧ is_Some (state n !! s))
  ∧ (_determine_index_type a = "interactive"
     ↔ node_role a ∈ indexer_interactive_roles)
  ∧ (node_role a ∉ indexer_interactive_roles →
     _determine_index_type a = "element")
  ∧ (interactive_roles config = default_interactive_roles →
     _determine_index_type a = "interactive" →
     Parser._is_node_interactive config p = Ok true).
Proof.
  pose proof (parsed_node_category _ _ _ _ _ Hparse Hconv) as Hrole_only.
  split; [apply _determine_index_type_spec|]. split; [exact Hrole_only|].
  split.
  { intros Hnot. destruct (_determine_index_type_cases a) as [Hi|He]; [|done].
    by apply Hrole_only in Hi. }
  intros Hcfg Hint. apply Hrole_only in Hint.
  destruct (_convert_to_accessibility_node_fields _ _ _ Hconv) as [Hrole _].
  apply validate_str_role in Hrole as [Hrole|(_ & _ & Hout)]; [|done].
  unfold Parser._is_node_interactive. rewrite Hrole, Hcfg. cbn [py_in_strs].
  apply mem_str_spec in Hint.
  change default_interactive_roles with indexer_interactive_roles.
  by rewrite Hint.
Qed.

(** The amended statement at a parsed button. *)
Lemma C2_indexer_category_witness :
  let raw := PDict [("nodeId", PInt 1);
                    ("role", PDict [("value", PStr "button")]);
                    ("name", PDict [("value", PStr "Submit")])] in
  ∃ p a,
    Parser._parse_single_node default_AccessibilityConfig raw = Ok p
    ∧ Parser._convert_to_accessibility_node decimal_numerals p = Ok a
    ∧ _determine_index_type a = "interactive"
    ∧ Parser._is_node_interactive default_AccessibilityConfig p = Ok true.
Proof.
  intros raw.
  assert (Hp : ∃ p, Parser._parse_single_node default_AccessibilityConfig raw = Ok p
                    ∧ ∃ a, Parser._convert_to_accessibility_node decimal_numerals p = Ok a
                           ∧ _determine_index_type a = "interactive").
  { eexists. split; [vm_compute; reflexivity|].
    eexists. split; vm_compute; reflexivity. }
  destruct Hp as (p & Hparse & a & Hconv & Hint).
  exists p, a. repeat split; try assumption.
  destruct (C2_indexer_category _ _ _ _ _ Hparse Hconv) as (_ & _ & _ & H).
  apply H; [reflexivity | exact Hint].
Defined.


(** ** One step of the indexing loop *)

Lemma _should_index_node_config (self self' : ElementIndexer)
  (node : AccessibilityNode) :
  config self' = config self →
  _should_index_node self' node = _should_index_node self node.
Proof. intros H. unfold _should_index_node. by rewrite H. Qed.

(** Both allocators either take the counter and advance it, or return the
    index already filed under the node's identifier; they write no map. *)
Lemma get_or_create_cases (self self1 : ElementIndexer)
  (node : AccessibilityNode) (idx : Z) :
  get_or_create self node = (self1, idx) →
  ∃ c s, self1 = with_counter_stats self c s
    ∧ ((idx = _element_counter self ∧ c = _element_counter self + 1
        ∧ s = bump_misses (_indexing_stats self))
       ∨ (c = _element_counter self
          ∧ s = bump_hits (_indexing_stats self)
          ∧ _node_id_to_index self !! node_id node = Some idx
          ∧ is_Some (_index_to_node self !! idx))).
Proof.
  unfold get_or_create, _get_or_create_interactive_index,
    _get_or_create_element_index, allocate, hit.
  intros H.
  destruct (String.eqb _ _);
    destruct (_node_id_to_index self !! node_id node) as [ci|] eqn:Hid;
    try destruct (_index_to_node self !! ci) as [cn|] eqn:Hci;
    try destruct (is_interactive cn);
    inversion H; subst; do 2 eexists; (split; [reflexivity|]);
    first [ by left | right; repeat split; by rewrite ?Hci ].
Qed.

Lemma _index_single_node_unfold (fuel : nat) (self : ElementIndexer)
  (node : AccessibilityNode) :
  _index_single_node fuel self node =
  if negb (_should_index_node self node) then Some (self, None)
  else
    let '(self1, idx) := get_or_create self node in
    match _calculate_depth fuel self1 node with
    | None => None
    | Some depth =>
        let n := indexed_node_of self1 node idx depth in
        match _convert_to_indexed_element n with
        | Ok e => Some (store self1 n, Some e)
        | Raise _ => Some (store self1 n, None)
        end
    end.
Proof. reflexivity. Qed.

Lemma _index_single_node_excluded (fuel : nat) (self : ElementIndexer)
  (node : AccessibilityNode) :
  _should_index_node self node = false →
  _index_single_node fuel self node = Some (self, None).
Proof. intros H. unfold _index_single_node. by rewrite H. Qed.

Lemma _index_single_node_eligible (fuel : nat) (self self' : ElementIndexer)
  (node : AccessibilityNode) (r : option IndexedElement) :
  _should_index_node self node = true →
  _index_single_node fuel self node = Some (self', r) →
  ∃ self1 idx depth,
    get_or_create self node = (self1, idx)
    ∧ _calculate_depth fuel self1 node = Some depth
    ∧ self' = store self1 (indexed_node_of self1 node idx depth)
    ∧ r = match _convert_to_indexed_element
                  (indexed_node_of self1 node idx depth) with
          | Ok e => Some e
          | Raise _ => None
          end.
Proof.
  intros Hok. rewrite _index_single_node_unfold, Hok. cbn [negb].
  destruct (get_or_create self node) as [self1 idx].
  destruct (_calculate_depth fuel self1 node) as [depth|] eqn:Hd; [|discriminate].
  cbv zeta. intros H. exists self1, idx, depth.
  destruct (_convert_to_indexed_element _); inversion H; subst; by repeat split.
Qed.

Lemma _convert_to_indexed_element_index (n : IndexedNode) (e : IndexedElement) :
  _convert_to_indexed_element n = Ok e →
  Types.index e = index n
  ∧ Types.is_interactive e = is_interactive n
  ∧ (if String.eqb (node_role (node n)) "" then Types.role e = GENERIC
     else ElementRole_value (Types.role e) = node_role (node n)).
Proof.
  unfold _convert_to_indexed_element. cbv [mbind Res_bind].
  destruct (String.eqb (node_role (node n)) "") eqn:Hr.
  - by intros [= <-].
  - unfold ElementRole_of_value.
    destruct (find _ all_roles) as [r|] eqn:Hf; [|discriminate].
    intros [= <-]. simpl. repeat split.
    apply find_some in Hf as [_ Hf]. by apply String.eqb_eq in Hf.
Qed.


(** ** The invariant of a pass *)

Lemma begin_pass_invariant (md5 : string → string) (t : Q)
  (self : ElementIndexer) (nodes all : list AccessibilityNode) :
  pass_invariant all (begin_pass md5 t self nodes).
Proof.
  split; [done|]. split; intros ? ?; simpl; by rewrite lookup_empty.
Qed.

Lemma step_invariant (nodes : list AccessibilityNode) (fuel : nat)
  (self self' : ElementIndexer) (node : AccessibilityNode)
  (r : option IndexedElement) :
  pass_invariant nodes self → node ∈ nodes →
  _index_single_node fuel self node = Some (self', r) →
  pass_invariant nodes self'
  ∧ config self' = config self
  ∧ _previous_indices self' = _previous_indices self
  ∧ _previous_xpaths self' = _previous_xpaths self
  ∧ _element_counter self ≤ _element_counter self'
  ∧ (∀ e, r = Some e → 0 ≤ Types.index e < _element_counter self').
Proof.
  intros (Hc & Hid & Hix) Hin Hstep.
  destruct (_should_index_node self node) eqn:Hok.
  2:{ rewrite (_index_single_node_excluded _ _ _ Hok) in Hstep.
      inversion Hstep; subst.
      split; [done|]. do 3 (split; [done|]). split; [lia | done]. }
  destruct (_index_single_node_eligible _ _ _ _ _ Hok Hstep)
    as (self1 & idx & depth & Hget & _ & -> & ->).
  destruct (get_or_create_cases _ _ _ _ Hget) as (c & s & -> & Hcase).
  set (n := indexed_node_of _ node idx depth).
  assert (Hrange : 0 ≤ idx < c ∧ _element_counter self ≤ c).
  { destruct Hcase as [(-> & -> & _)|(-> & _ & Hcached & [n0 Hn0])]; [lia|].
    destruct (Hix _ _ Hn0) as (_ & _ & ?). lia. }
  assert (Hother : ∀ id' idx', id' ≠ node_id node →
            _node_id_to_index self !! id' = Some idx' → idx' ≠ idx).
  { intros id' idx' Hne Hl ->.
    destruct (Hid _ _ Hl) as (n' & Hn' & Hnid).
    destruct Hcase as [(-> & _)|(_ & _ & Hcached & _)].
    - destruct (Hix _ _ Hn') as (_ & _ & ?). lia.
    - destruct (Hid _ _ Hcached) as (n0 & Hn0 & Hnid0). congruence. }
  split; [|split; [done|split; [done|split; [done|split]]]].
  - split; [simpl; lia|]. split.
    + intros id' idx'. simpl.
      destruct (decide (node_id node = id')) as [<-|Hne].
      * rewrite lookup_insert_eq. intros [= <-]. exists n.
        by rewrite lookup_insert_eq.
      * rewrite lookup_insert_ne by done. intros Hl.
        destruct (Hid _ _ Hl) as (n' & Hn' & Hnid). exists n'.
        rewrite lookup_insert_ne; [done|].
        intros Heq. by eapply (Hother id' idx').
    + intros idx' n'. simpl.
      destruct (decide (idx = idx')) as [<-|Hne].
      * rewrite lookup_insert_eq. intros [= <-]. simpl. repeat split; try done; lia.
      * rewrite lookup_insert_ne by done. intros Hl.
        destruct (Hix _ _ Hl) as (? & ? & ?). repeat split; try done; lia.
  - simpl. lia.
  - intros e He.
    destruct (_convert_to_indexed_element n) as [e'|] eqn:Hconv; [|done].
    inversion He; subst e'.
    apply _convert_to_indexed_element_index in Hconv as (-> & _). simpl. lia.
Qed.

Lemma index_loop_invariant (all : list AccessibilityNode) (fuel : nat)
  (nodes : list AccessibilityNode) (self self' : ElementIndexer)
  (out : list IndexedElement) :
  pass_invariant all self → nodes ⊆ all →
  index_loop fuel self nodes = Some (self', out) →
  pass_invariant all self'
  ∧ config self' = config self
  ∧ _previous_indices self' = _previous_indices self
  ∧ _previous_xpaths self' = _previous_xpaths self
  ∧ _element_counter self ≤ _element_counter self'
  ∧ Forall (λ e, 0 ≤ Types.index e < _element_counter self') out.
Proof.
  revert self self' out.
  induction nodes as [|node nodes IH]; intros self self' out Hinv Hsub Hloop.
  - simpl in Hloop. inversion Hloop; subst.
    split; [done|]. do 3 (split; [done|]). split; [lia | constructor].
  - simpl in Hloop.
    destruct (_index_single_node fuel self node) as [[self1 r]|] eqn:Hstep;
      [|discriminate].
    destruct (index_loop fuel self1 nodes) as [[self2 out2]|] eqn:Hrest;
      [|discriminate].
    inversion Hloop; subst self2 out. clear Hloop.
    assert (Hnode : node ∈ all) by (apply Hsub; by left).
    destruct (step_invariant _ _ _ _ _ _ Hinv Hnode Hstep)
      as (Hinv1 & Hcfg1 & Hp1 & Hx1 & Hc1 & Hr1).
    assert (Hsub' : nodes ⊆ all) by (intros x Hx; apply Hsub; by right).
    destruct (IH _ _ _ Hinv1 Hsub' Hrest)
      as (Hinv2 & Hcfg2 & Hp2 & Hx2 & Hc2 & Hout2).
    split; [done|]. split; [congruence|]. split; [congruence|].
    split; [congruence|]. split; [lia|].
    destruct r as [e|]; [|done]. constructor; [|done].
    destruct (Hr1 e eq_refl). lia.
Qed.


(** ** Indices within one pass *)

Lemma index_loop_distinct (all : list AccessibilityNode) (fuel : nat)
  (nodes : list AccessibilityNode) (self self' : ElementIndexer)
  (out : list IndexedElement) :
  index_loop fuel self nodes = Some (self', out) →
  NoDup (map node_id (List.filter (_should_index_node self) nodes)) →
  (∀ n, n ∈ nodes → _should_index_node self n = true →
        _node_id_to_index self !! node_id n = None) →
  Forall (λ e, _element_counter self ≤ Types.index e) out
  ∧ StronglySorted Z.lt (indices out).
Proof.
  revert self self' out.
  induction nodes as [|node nodes IH]; intros self self' out Hloop Hnd Hfresh.
  - simpl in Hloop. inversion Hloop; subst. split; constructor.
  - simpl in Hloop.
    destruct (_index_single_node fuel self node) as [[self1 r]|] eqn:Hstep;
      [|discriminate].
    destruct (index_loop fuel self1 nodes) as [[self2 out2]|] eqn:Hrest;
      [|discriminate].
    inversion Hloop; subst self2 out. clear Hloop.
    simpl in Hnd.
    destruct (_should_index_node self node) eqn:Hok.
    2:{ rewrite (_index_single_node_excluded _ _ _ Hok) in Hstep.
        inversion Hstep; subst self1 r.
        apply (IH _ _ _ Hrest Hnd). intros n Hn. apply Hfresh. by right. }
    destruct (_index_single_node_eligible _ _ _ _ _ Hok Hstep)
      as (self0 & idx & depth & Hget & _ & -> & ->).
    destruct (get_or_create_cases _ _ _ _ Hget) as (c & s & -> & Hcase).
    destruct Hcase as [(-> & -> & _)|(_ & _ & Hcached & _)].
    2:{ rewrite Hfresh in Hcached; [discriminate | by left | done]. }
    simpl in Hnd. apply NoDup_cons in Hnd as [Hhead Hnd].
    set (n := indexed_node_of _ node _ depth) in *.
    assert (Hsame : ∀ x, _should_index_node (store
                       (with_counter_stats self (_element_counter self + 1) s) n) x
                    = _should_index_node self x)
      by (intros x; by apply _should_index_node_config).
    destruct (IH _ _ _ Hrest) as [Hge Hsorted].
    { erewrite filter_ext; [exact Hnd|]. intros x. apply Hsame. }
    { intros x Hx Hokx. rewrite Hsame in Hokx. simpl.
      rewrite lookup_insert_ne; [apply Hfresh; [by right|done]|].
      intros Heq. apply Hhead. apply list_elem_of_fmap.
      exists x. split; [done|]. apply list_elem_of_In, filter_In.
      split; [by apply list_elem_of_In|done]. }
    simpl in Hge.
    assert (Hge' : Forall (λ e, _element_counter self ≤ Types.index e) out2).
    { eapply Forall_impl; [exact Hge|]. simpl. intros; lia. }
    destruct (_convert_to_indexed_element n) as [e|] eqn:Hconv; [|done].
    apply _convert_to_indexed_element_index in Hconv as (Hidx & _).
    simpl in Hidx. split.
    + constructor; [lia | done].
    + unfold indices. simpl. constructor; [done|].
      rewrite Forall_forall. intros i Hi.
      apply list_elem_of_fmap in Hi as (e' & -> & He').
      rewrite Forall_forall in Hge. specialize (Hge _ He'). lia.
Qed.

Lemma index_elements_loop (md5 : string → string) (fuel : nat) (t : Q)
  (self self' : ElementIndexer) (nodes : list AccessibilityNode)
  (out : list IndexedElement) :
  index_elements md5 fuel t self nodes = Some (self', out) →
  ∃ self1,
    index_loop fuel (begin_pass md5 t self nodes) nodes = Some (self1, out)
    ∧ self' = _save_current_indices
                (_update_indexing_stats self1 (Z.of_nat (length out))).
Proof.
  unfold index_elements.
  destruct (index_loop _ _ _) as [[self1 out1]|]; [|discriminate].
  intros [= <- <-]. by exists self1.
Qed.

Lemma StronglySorted_lt_NoDup (l : list Z) : StronglySorted Z.lt l → NoDup l.
Proof.
  induction 1 as [|x l _ IH Hall]; constructor; [|done].
  intros Hin. rewrite Forall_forall in Hall. specialize (Hall _ Hin). lia.
Qed.

(** C9. Per-snapshot index uniqueness, evaluated on the code: a pass over
    two eligible nodes with the same identifier returns two elements, both
    with index 0, so the indices of the returned list are not pairwise
    distinct. Both allocators return the index their lookup in the current
    identifier map finds, which for the second node is the index the first
    has just been given. *)
Lemma C9_duplicate_identifier_shares_index :
  ∃ self' out,
    index_elements id 1 0 fresh_indexer
      [mk_node 1 "status" "Saved" [] None; mk_node 1 "status" "Saved again" [] None]
    = Some (self', out)
    ∧ indices out = [0; 0]
    ∧ ¬ NoDup (indices out).
Proof.
  do 2 eexists. split; [vm_compute; reflexivity|].
  split; [reflexivity|].
  intros H. apply NoDup_cons in H as [H _]. apply H. by left.
Qed.

(** X23. Every index in the list a pass returns is non-negative.
    At every point of a pass the index handed to a node is either the one
    already filed under the node's identifier or the current counter, which
    is larger than every index filed so far. When no two eligible nodes of
    the input share an identifier the indices are strictly increasing along
    the returned list, hence pairwise distinct and in discovery order. *)
Theorem X23_indices_within_pass (md5 : string → string) (fuel : nat) (t : Q)
  (self self' : ElementIndexer) (nodes : list AccessibilityNode)
  (out : list IndexedElement)
  (Hrun : index_elements md5 fuel t self nodes = Some (self', out)) :
  Forall (λ i, 0 ≤ i) (indices out)
  ∧ (∀ seen rest s outs node s1 idx,
       nodes = (seen ++ rest)%list →
       index_loop fuel (begin_pass md5 t self nodes) seen = Some (s, outs) →
       get_or_create s node = (s1, idx) →
       _node_id_to_index s !! node_id node = Some idx
       ∨ (idx = _element_counter s
          ∧ ∀ id i, _node_id_to_index s !! id = Some i → i < idx))
  ∧ (NoDup (map node_id (List.filter (_should_index_node self) nodes)) →
     StronglySorted Z.lt (indices out) ∧ NoDup (indices out)).
Proof.
  apply index_elements_loop in Hrun as (self1 & Hloop & _).
  split; [|split].
  - destruct (index_loop_invariant nodes _ _ _ _ _
                (begin_pass_invariant md5 t self nodes nodes)
                (reflexivity _) Hloop) as (_ & _ & _ & _ & _ & Hout).
    unfold indices. apply Forall_fmap. eapply Forall_impl; [exact Hout|].
    simpl. intros; lia.
  - intros seen rest s outs node s1 idx Hsplit Hseen Hget.
    assert (Hsub : seen ⊆ nodes).
    { rewrite Hsplit. intros x Hx. apply elem_of_app. by left. }
    destruct (index_loop_invariant nodes fuel seen _ s outs
                (begin_pass_invariant md5 t self nodes nodes) Hsub Hseen)
      as ((_ & Hid & Hix) & _).
    destruct (get_or_create_cases _ _ _ _ Hget)
      as (c & st & _ & [(-> & _)|(_ & _ & Hcached & _)]); [right|by left].
    split; [done|]. intros id i Hi.
    destruct (Hid _ _ Hi) as (n & Hn & _).
    destruct (Hix _ _ Hn) as (_ & _ & ?). lia.
  - intros Hnd.
    destruct (index_loop_distinct nodes _ _ _ _ _ Hloop) as [_ Hsorted].
    + erewrite filter_ext; [exact Hnd|]. intros x.
      by apply _should_index_node_config.
    + intros n _ _. simpl. apply lookup_empty.
    + split; [done | by apply StronglySorted_lt_NoDup].
Qed.

(** A pass over two nodes with distinct identifiers. *)
Lemma X23_indices_within_pass_witness :
  ∃ self' out,
    index_elements id 1 0 fresh_indexer
      [mk_node 1 "button" "Submit" [] None; mk_node 2 "link" "Home" [] (Some 1)]
    = Some (self', out)
    ∧ Forall (λ i, 0 ≤ i) (indices out)
    ∧ StronglySorted Z.lt (indices out).
Proof.
  assert (Hrun : ∃ self' out,
    index_elements id 1 0 fresh_indexer
      [mk_node 1 "button" "Submit" [] None; mk_node 2 "link" "Home" [] (Some 1)]
    = Some (self', out)).
  { do 2 eexists. vm_compute. reflexivity. }
  destruct Hrun as (self' & out & Hrun). exists self', out.
  split; [exact Hrun|].
  destruct (X23_indices_within_pass _ _ _ _ _ _ _ Hrun) as (Hpos & _ & Hsorted).
  split; [exact Hpos|]. apply Hsorted.
  apply (bool_decide_unpack _). vm_compute. reflexivity.
Defined.


(** ** Eligibility *)

Lemma state_flag_includes (node : AccessibilityNode) (label : string) :
  state_flag node label = true ↔ state_includes node label.
Proof.
  unfold state_flag, state_includes.
  destruct (state node !! label) as [v|].
  - split; [intros H; by exists v | by intros (v' & [= <-] & H)].
  - split; [discriminate | by intros (v' & ? & _)].
Qed.

Lemma _should_index_node_spec (self : ElementIndexer) (node : AccessibilityNode) :
  _should_index_node self node = false
  ↔ filtered_out (max_text_length (accessibility (config self))) node.
Proof.
  unfold _should_index_node, filtered_out.
  rewrite <- state_flag_includes.
  destruct (state_flag node "hidden"); [by split; [left|]|].
  destruct (String.eqb (name node) "") eqn:Hn.
  - apply String.eqb_eq in Hn. rewrite Hn. cbn [andb negb].
    destruct (String.eqb (node_role node) "generic") eqn:Hr.
    + apply String.eqb_eq in Hr. split; [right; by left | done].
    + apply String.eqb_neq in Hr. split; [done|].
      intros [?|[[_ ?]|[? _]]]; done.
  - apply String.eqb_neq in Hn. cbn [andb negb].
    destruct (Z.ltb_spec (max_text_length (accessibility (config self)))
                (py_len (name node))).
    + split; [by right; right | done].
    + split; [done|]. intros [?|[[? _]|[_ ?]]]; [done | done | lia].
Qed.

(** With a maximum that is not negative the rule of the filter is the rule
    without the test on the name. *)
Lemma filtered_out_excluded (max_len : Z) (node : AccessibilityNode) :
  0 ≤ max_len → filtered_out max_len node ↔ excluded max_len node.
Proof.
  intros Hmax. unfold filtered_out, excluded. split.
  - intros [?|[?|[_ ?]]]; [by left | right; by left | right; by right].
  - intros [?|[?|Hlen]]; [by left | right; by left |].
    right; right. split; [|done]. intros Hn. rewrite Hn in Hlen.
    unfold py_len in Hlen. simpl in Hlen. lia.
Qed.

Lemma index_loop_sources (fuel : nat) (nodes : list AccessibilityNode)
  (self self' : ElementIndexer) (out : list IndexedElement) :
  index_loop fuel self nodes = Some (self', out) →
  ∃ srcs, srcs `sublist_of` nodes
    ∧ Forall2 element_of srcs out
    ∧ Forall (λ n, _should_index_node self n = true) srcs.
Proof.
  revert self self' out.
  induction nodes as [|node nodes IH]; intros self self' out Hloop.
  - simpl in Hloop. inversion Hloop; subst. exists []. by repeat constructor.
  - simpl in Hloop.
    destruct (_index_single_node fuel self node) as [[self1 r]|] eqn:Hstep;
      [|discriminate].
    destruct (index_loop fuel self1 nodes) as [[self2 out2]|] eqn:Hrest;
      [|discriminate].
    inversion Hloop; subst self2 out. clear Hloop.
    destruct (IH _ _ _ Hrest) as (srcs & Hsub & Hel & Hok2).
    destruct (_should_index_node self node) eqn:Hok.
    2:{ rewrite (_index_single_node_excluded _ _ _ Hok) in Hstep.
        inversion Hstep; subst self1 r.
        exists srcs. split; [by constructor | done]. }
    destruct (_index_single_node_eligible _ _ _ _ _ Hok Hstep)
      as (self0 & idx & depth & Hget & _ & -> & ->).
    destruct (get_or_create_cases _ _ _ _ Hget) as (c & s & -> & _).
    assert (Hok2' : Forall (λ n, _should_index_node self n = true) srcs).
    { eapply Forall_impl; [exact Hok2|]. intros x Hx.
      by rewrite <- Hx; symmetry; apply _should_index_node_config. }
    destruct (_convert_to_indexed_element _) as [e|] eqn:Hconv.
    + exists (node :: srcs). split; [by constructor|]. split.
      * constructor; [|done]. by do 3 eexists.
      * by constructor.
    + exists srcs. split; [by constructor | done].
Qed.


(** ** The parent walk *)

Lemma depth_walk_cycle (fuel : nat) (self : ElementIndexer) (p idx depth : Z)
  (n : IndexedNode) :
  _node_id_to_index self !! p = Some idx →
  _index_to_node self !! idx = Some n →
  parent_id (node n) = Some p →
  depth_walk fuel self (Some p) depth = None.
Proof.
  intros Hid Hix Hp. revert depth.
  induction fuel as [|fuel IH]; intros depth; simpl; [done|].
  rewrite Hid, Hix, Hp. apply IH.
Qed.

(** On an acyclic chain the walk makes a definite number of hops: with at
    least that much fuel it returns the start depth plus that number. *)
Lemma depth_walk_acyclic (self : ElementIndexer) (start : option Z) :
  chain_acyclic self start →
  ∃ hops : nat, ∀ fuel depth, (hops ≤ fuel)%nat →
    depth_walk fuel self start depth = Some (depth + Z.of_nat hops).
Proof.
  destruct start as [p|].
  2:{ intros _. exists 0%nat. intros fuel depth _.
      destruct fuel; simpl; f_equal; lia. }
  simpl. induction 1 as [p _ IH].
  destruct (_node_id_to_index self !! p) as [idx|] eqn:Hid.
  2:{ exists 1%nat. intros [|fuel] depth Hf; [lia|]. simpl. by rewrite Hid. }
  destruct (_index_to_node self !! idx) as [n|] eqn:Hix.
  2:{ exists 1%nat. intros [|fuel] depth Hf; [lia|]. simpl. by rewrite Hid, Hix. }
  destruct (parent_id (node n)) as [p'|] eqn:Hp.
  2:{ exists 1%nat. intros [|fuel] depth Hf; [lia|]. simpl.
      rewrite Hid, Hix, Hp. by destruct fuel. }
  destruct (IH p') as [hops Hhops]; [by exists idx, n|].
  exists (S hops). intros [|fuel] depth Hf; [lia|]. simpl.
  rewrite Hid, Hix, Hp, Hhops by lia. f_equal. lia.
Qed.

(** C8, as stated, fails: after a pass over a node that names itself as
    parent, the depth walk for a child of that node returns for no amount of
    fuel, and neither does a pass over the two nodes. *)
Lemma C8_cyclic_chain_diverges :
  ∃ self1 out,
    index_elements id 1 0 fresh_indexer [self_parent] = Some (self1, out)
    ∧ (∀ fuel, _calculate_depth fuel self1 child_of_self_parent = None)
    ∧ (∀ fuel,
         index_elements id fuel 0 fresh_indexer
           [self_parent; child_of_self_parent] = None).
Proof.
  do 2 eexists. split; [vm_compute; reflexivity|]. split.
  - intros fuel. unfold _calculate_depth.
    eapply (depth_walk_cycle fuel _ 1 0); vm_compute; reflexivity.
  - intros [|fuel]; [vm_compute; reflexivity|].
    unfold index_elements.
    assert (Hloop : index_loop (S fuel)
                      (begin_pass id 0 fresh_indexer
                         [self_parent; child_of_self_parent])
                      [self_parent; child_of_self_parent] = None); [|by rewrite Hloop].
    cbn [index_loop].
    assert (Hfirst : ∃ s e, _index_single_node (S fuel)
                      (begin_pass id 0 fresh_indexer
                         [self_parent; child_of_self_parent]) self_parent
                    = Some (s, Some e)
                    ∧ _should_index_node s child_of_self_parent = true
                    ∧ ∃ s' idx n,
                        get_or_create s child_of_self_parent = (s', idx)
                        ∧ _node_id_to_index s' !! 1 = Some 0
                        ∧ _index_to_node s' !! 0 = Some n
                        ∧ parent_id (node n) = Some 1).
    { do 2 eexists. split; [vm_compute; reflexivity|].
      split; [vm_compute; reflexivity|].
      do 3 eexists. split; [vm_compute; reflexivity|].
      split; [vm_compute; reflexivity|].
      split; vm_compute; reflexivity. }
    destruct Hfirst as (s & e & -> & Hok & s' & idx & n & Hget & Hid & Hix & Hp).
    rewrite (_index_single_node_unfold (S fuel) s), Hok, Hget. cbn [negb].
    unfold _calculate_depth.
    change (parent_id child_of_self_parent) with (Some 1).
    by rewrite (depth_walk_cycle (S fuel) s' 1 0 0 n Hid Hix Hp).
Qed.

(** A dangling chain is acyclic. *)
Lemma chain_acyclic_dangling (self : ElementIndexer) (p : Z) :
  _node_id_to_index self !! p = None → chain_acyclic self (Some p).
Proof.
  intros Hnone. constructor. intros p' (idx & n & Hid & _). congruence.
Qed.

Lemma stored_parent_step (self : ElementIndexer) (p p' : Z) :
  parent_step self p p' ↔ stored_parent self p = Some (Some p').
Proof.
  unfold parent_step, stored_parent. split.
  - intros (idx & n & -> & -> & ->). done.
  - destruct (_node_id_to_index self !! p) as [idx|]; [|done].
    destruct (_index_to_node self !! idx) as [n|] eqn:Hn; [|done].
    intros [= Hp]. by exists idx, n.
Qed.

(** The chain from a start has at most one path, and it has one exactly
    when it has no cycle. *)
Lemma chain_path_unique (self : ElementIndexer) (start : option Z)
  (path path' : list Z) :
  chain_path self start path → chain_path self start path' → path' = path.
Proof.
  revert start path'. induction path as [|p rest IH]; intros start path'.
  - simpl. intros ->. by destruct path' as [|p' rest']; [|intros [? _]].
  - simpl. intros [-> Hrest]. destruct path' as [|p' rest']; [done|].
    simpl. intros [[= <-] Hrest']. f_equal.
    destruct (stored_parent self p) as [next|]; [by eapply IH | congruence].
Qed.

Lemma chain_path_acyclic (self : ElementIndexer) (start : option Z)
  (path : list Z) :
  chain_path self start path → chain_acyclic self start.
Proof.
  revert start. induction path as [|p rest IH]; intros start.
  - simpl. by intros ->.
  - simpl. intros [-> Hrest]. constructor. intros p' Hstep.
    apply stored_parent_step in Hstep. rewrite Hstep in Hrest.
    exact (IH _ Hrest).
Qed.

Lemma chain_acyclic_path (self : ElementIndexer) (start : option Z) :
  chain_acyclic self start → ∃ path, chain_path self start path.
Proof.
  destruct start as [p|]; [|by exists []].
  simpl. induction 1 as [p _ IH].
  destruct (stored_parent self p) as [[p'|]|] eqn:Hp.
  - destruct (IH p') as [rest Hrest]; [by apply stored_parent_step|].
    exists (p :: rest). simpl. by rewrite Hp.
  - exists [p]. simpl. by rewrite Hp.
  - exists [p]. simpl. by rewrite Hp.
Qed.

(** The walk makes one hop for each identifier of the path. *)
Lemma depth_walk_path (self : ElementIndexer) (start : option Z)
  (path : list Z) :
  chain_path self start path →
  ∀ fuel depth,
    ((length path ≤ fuel)%nat →
     depth_walk fuel self start depth
     = Some (depth + Z.of_nat (length path)))
    ∧ (∀ d, depth_walk fuel self start depth = Some d →
            d = depth + Z.of_nat (length path)).
Proof.
  revert start. induction path as [|p rest IH]; intros start.
  - simpl. intros -> fuel depth. rewrite Z.add_0_r.
    destruct fuel; simpl; split; congruence.
  - cbn [chain_path]. intros [-> Hrest] [|fuel] depth.
    { split; [simpl; lia | discriminate]. }
    cbn [depth_walk length]. unfold stored_parent in Hrest.
    destruct (_node_id_to_index self !! p) as [idx|].
    2:{ subst rest. simpl. split; [intros _|intros d [= <-]]; f_equal; lia. }
    destruct (_index_to_node self !! idx) as [n|].
    2:{ subst rest. simpl. split; [intros _|intros d [= <-]]; f_equal; lia. }
    destruct (IH _ Hrest fuel (depth + 1)) as [Hret Hval]. split.
    + intros Hf. rewrite Hret by lia. f_equal. lia.
    + intros d Hd. rewrite (Hval d Hd). lia.
Qed.

(** C8, amended. When the parent chain of a node, followed through the
    current maps, has no cycle, the depth computation terminates and returns
    the number of hops. The hops are those of the one path from the parent
    identifier of the node: each identifier of the path but the last names a
    stored node whose parent is the next, and the last names no stored node,
    where the chain dangles, or a stored node without parent. With at least
    as many iterations as the path is long the computation returns the
    length of the path, and it returns nothing else with fewer. A chain that
    dangles at once, its first identifier being absent from the identifier
    map, has the path of that one identifier and depth 1. *)
Theorem C8_depth_walk_terminates (self : ElementIndexer)
  (node : AccessibilityNode)
  (Hacyclic : chain_acyclic self (parent_id node)) :
  ∃ path,
    chain_path self (parent_id node) path
    ∧ (∀ path', chain_path self (parent_id node) path' → path' = path)
    ∧ (∀ fuel, (length path ≤ fuel)%nat →
         _calculate_depth fuel self node = Some (Z.of_nat (length path)))
    ∧ (∀ fuel d, _calculate_depth fuel self node = Some d →
         d = Z.of_nat (length path))
    ∧ (∀ p, parent_id node = Some p → _node_id_to_index self !! p = None →
         path = [p]).
Proof.
  destruct (chain_acyclic_path _ _ Hacyclic) as [path Hpath].
  exists path. split; [exact Hpath|]. split; [|split; [|split]].
  - intros path' Hpath'. by apply (chain_path_unique _ _ _ _ Hpath).
  - intros fuel Hf. unfold _calculate_depth.
    by rewrite (proj1 (depth_walk_path _ _ _ Hpath fuel 0) Hf).
  - intros fuel d Hd. unfold _calculate_depth in Hd.
    by rewrite (proj2 (depth_walk_path _ _ _ Hpath fuel 0) d Hd).
  - intros p Hp Hnone.
    apply (chain_path_unique self (parent_id node) [p] path); [|exact Hpath].
    rewrite Hp. simpl. unfold stored_parent. by rewrite Hnone.
Qed.

(** The amended statement after a pass over a chain of three nodes: the
    walk from a leaf below the last of them goes through the three
    identifiers and returns 3; and on a fresh indexer, where the parent of
    the leaf is absent from the maps, it returns 1. *)
Lemma C8_depth_walk_terminates_witness :
  ∃ self1 out,
    index_elements id 3 0 fresh_indexer chain_snapshot = Some (self1, out)
    ∧ chain_path self1 (parent_id chain_leaf) [3; 2; 1]
    ∧ chain_acyclic self1 (parent_id chain_leaf)
    ∧ _calculate_depth 3 self1 chain_leaf = Some 3
    ∧ _calculate_depth 1 fresh_indexer chain_leaf = Some 1.
Proof.
  assert (Hrun : ∃ self1 out,
            index_elements id 3 0 fresh_indexer chain_snapshot
            = Some (self1, out)
            ∧ chain_path self1 (parent_id chain_leaf) [3; 2; 1]).
  { do 2 eexists. split; [vm_compute; reflexivity|].
    vm_compute. repeat split. }
  destruct Hrun as (self1 & out & Hrun & Hpath).
  exists self1, out. split; [exact Hrun|]. split; [exact Hpath|].
  assert (H : chain_acyclic self1 (parent_id chain_leaf))
    by exact (chain_path_acyclic _ _ _ Hpath).
  split; [exact H|].
  destruct (C8_depth_walk_terminates self1 chain_leaf H)
    as (path & _ & Huniq & Hret & _).
  rewrite <- (Huniq _ Hpath) in Hret. split; [exact (Hret 3%nat (le_n _))|].
  assert (H0 : chain_acyclic fresh_indexer (parent_id chain_leaf))
    by (apply chain_acyclic_dangling; reflexivity).
  destruct (C8_depth_walk_terminates fresh_indexer chain_leaf H0)
    as (path0 & _ & _ & Hret0 & _ & Hdangle).
  rewrite (Hdangle 3 eq_refl eq_refl) in Hret0. exact (Hret0 1%nat (le_n _)).
Defined.


(** ** Termination of a pass over acyclic input *)

Lemma depth_walk_with_counter_stats (fuel : nat) (self : ElementIndexer)
  (c : Z) (s : IndexingStats) (start : option Z) (depth : Z) :
  depth_walk fuel (with_counter_stats self c s) start depth
  = depth_walk fuel self start depth.
Proof.
  revert start depth. induction fuel as [|fuel IH]; intros [p|] depth; simpl;
    try done.
  destruct (_node_id_to_index self !! p) as [idx|]; [|done].
  destruct (_index_to_node self !! idx) as [n|]; [|done]. apply IH.
Qed.

Lemma depth_walk_ranked (nodes : list AccessibilityNode) (rank : Z → nat)
  (self : ElementIndexer) :
  pass_invariant nodes self → parents_ranked nodes rank →
  ∀ fuel p depth, (rank p < fuel)%nat →
    is_Some (depth_walk fuel self (Some p) depth).
Proof.
  intros (_ & Hid & Hix) Hrank.
  induction fuel as [|fuel IH]; intros p depth Hr; [lia|]. simpl.
  destruct (_node_id_to_index self !! p) as [idx|] eqn:Hp; [|by eexists].
  destruct (_index_to_node self !! idx) as [n|] eqn:Hn; [|by eexists].
  destruct (parent_id (node n)) as [p'|] eqn:Hpar.
  2:{ destruct fuel; by eexists. }
  apply IH.
  destruct (Hid _ _ Hp) as (n' & Hn' & Hnid).
  rewrite Hn in Hn'. inversion Hn'; subst n'.
  destruct (Hix _ _ Hn) as (_ & Hin & _).
  specialize (Hrank _ _ Hin Hpar). rewrite Hnid in Hrank. lia.
Qed.

Lemma _index_single_node_total (nodes : list AccessibilityNode)
  (rank : Z → nat) (fuel : nat) (self : ElementIndexer)
  (node : AccessibilityNode) :
  pass_invariant nodes self → parents_ranked nodes rank →
  (∀ p, parent_id node = Some p → (rank p < fuel)%nat) →
  is_Some (_index_single_node fuel self node).
Proof.
  intros Hinv Hrank Hfuel. rewrite _index_single_node_unfold.
  destruct (_should_index_node self node); cbn [negb]; [|by eexists].
  destruct (get_or_create self node) as [self1 idx] eqn:Hget.
  destruct (get_or_create_cases _ _ _ _ Hget) as (c & s & -> & _).
  unfold _calculate_depth. rewrite depth_walk_with_counter_stats.
  destruct (parent_id node) as [p|] eqn:Hp.
  - destruct (depth_walk_ranked _ _ _ Hinv Hrank fuel p 0 (Hfuel p eq_refl))
      as [d ->].
    cbv zeta. destruct (_convert_to_indexed_element _); by eexists.
  - replace (depth_walk fuel self None 0) with (Some 0) by (by destruct fuel).
    cbv zeta. destruct (_convert_to_indexed_element _); by eexists.
Qed.

Lemma index_loop_total (all : list AccessibilityNode) (rank : Z → nat)
  (fuel : nat) :
  parents_ranked all rank →
  (∀ n p, n ∈ all → parent_id n = Some p → (rank p < fuel)%nat) →
  ∀ nodes self, pass_invariant all self → nodes ⊆ all →
    is_Some (index_loop fuel self nodes).
Proof.
  intros Hrank Hfuel. induction nodes as [|node nodes IH]; intros self Hinv Hsub;
    simpl; [by eexists|].
  assert (Hnode : node ∈ all) by (apply Hsub; by left).
  destruct (_index_single_node_total all rank fuel self node Hinv Hrank)
    as [[self1 r] Hstep]; [intros p; by apply Hfuel|].
  rewrite Hstep.
  destruct (step_invariant _ _ _ _ _ _ Hinv Hnode Hstep) as (Hinv1 & _).
  destruct (IH self1 Hinv1) as [[self2 out] Hrest].
  { intros x Hx. apply Hsub. by right. }
  rewrite Hrest. by eexists.
Qed.

(** A pass over a node list whose parent links are acyclic returns, for every
    amount of fuel from [pass_fuel] on. *)
Theorem index_elements_terminates (md5 : string → string) (t : Q)
  (self : ElementIndexer) (nodes : list AccessibilityNode) (rank : Z → nat) :
  parents_ranked nodes rank →
  ∀ fuel, (pass_fuel rank nodes ≤ fuel)%nat →
    ∃ self' out, index_elements md5 fuel t self nodes = Some (self', out).
Proof.
  intros Hrank fuel Hfuel.
  destruct (index_loop_total nodes rank fuel Hrank) with
    (nodes := nodes) (self := begin_pass md5 t self nodes)
    as [[self1 out] Hloop].
  - intros n p Hn Hp. unfold pass_fuel in Hfuel.
    assert (rank p ≤ max_list (map (λ n, match parent_id n with
                                          | Some p => rank p
                                          | None => 0%nat
                                          end) nodes))%nat; [|lia].
    apply max_list_elem_of_le. apply list_elem_of_fmap.
    exists n. by rewrite Hp.
  - apply begin_pass_invariant.
  - done.
  - unfold index_elements. rewrite Hloop. by do 2 eexists.
Qed.

(** ** The eligibility filter *)

(** C5, as stated, fails: with a configured maximum of -1 a button without
    a name is excluded in the words of the claim, its name of length 0 being
    longer than the maximum, and yet it is indexed: the filter compares the
    length only when the name is not empty. *)
Lemma C5_negative_limit_indexes_excluded :
  excluded (max_text_length (accessibility (config negative_limit_indexer)))
    unnamed_button
  ∧ ∃ self' e,
      _index_single_node 1 negative_limit_indexer unnamed_button
      = Some (self', Some e)
      ∧ Types.index e = 0
      ∧ index_assigned self' unnamed_button 0.
Proof.
  split; [right; right; reflexivity|].
  do 2 eexists. split; [vm_compute; reflexivity|].
  split; [reflexivity|]. split; [vm_compute; reflexivity|].
  eexists. repeat split; vm_compute; reflexivity.
Qed.

(** C5, amended. A node is filtered out when its state includes "hidden",
    or its name is empty and its role is "generic", or its name is not empty
    and longer than the configured maximum; with a maximum that is not
    negative that is the rule of the claim. Indexing a node that is filtered
    out returns at once, with no element and the indexer as it was. Indexing
    a node that is not filtered out, when the walk up its parent chain ends,
    returns with the identifier of the node filed under an index, which is
    the index of the element if one is made. A pass over nodes whose parent
    links have no cycle returns, and every element it returns is made from an
    input node that is not filtered out; in particular no node whose state
    includes "hidden" appears in the output, whatever its role. *)
Theorem C5_eligibility_filter (self : ElementIndexer) (node : AccessibilityNode) :
  let max_len := max_text_length (accessibility (config self)) in
  (filtered_out max_len node →
   ∀ fuel, _index_single_node fuel self node = Some (self, None))
  ∧ (¬ filtered_out max_len node → chain_acyclic self (parent_id node) →
     ∃ hops : nat, ∀ fuel, (hops ≤ fuel)%nat →
       ∃ self' r idx,
         _index_single_node fuel self node = Some (self', r)
         ∧ self' ≠ self
         ∧ index_assigned self' node idx
         ∧ ∀ e, r = Some e → Types.index e = idx ∧ element_of node e)
  ∧ (0 ≤ max_len → filtered_out max_len node ↔ excluded max_len node)
  ∧ (∀ md5 t nodes rank, parents_ranked nodes rank →
       ∀ fuel, (pass_fuel rank nodes ≤ fuel)%nat →
       ∃ self' out srcs,
         index_elements md5 fuel t self nodes = Some (self', out)
         ∧ srcs `sublist_of` nodes
         ∧ Forall2 element_of srcs out
         ∧ Forall (λ n, ¬ filtered_out max_len n ∧ ¬ state_includes n "hidden")
             srcs).
Proof.
  intros max_len. split; [|split; [|split]].
  - intros Hex fuel. apply _index_single_node_excluded.
    by apply _should_index_node_spec.
  - intros Hnex Hacyclic.
    assert (Hok : _should_index_node self node = true).
    { apply not_false_iff_true. intros Hf.
      by apply _should_index_node_spec in Hf. }
    destruct (depth_walk_acyclic _ _ Hacyclic) as [hops Hhops].
    exists hops. intros fuel Hfuel.
    rewrite _index_single_node_unfold, Hok. cbn [negb].
    destruct (get_or_create self node) as [self1 idx] eqn:Hget.
    destruct (get_or_create_cases _ _ _ _ Hget) as (c & s & -> & Hcase).
    unfold _calculate_depth.
    rewrite depth_walk_with_counter_stats, (Hhops fuel 0 Hfuel).
    set (n := indexed_node_of _ node idx _).
    assert (Hne : store (with_counter_stats self c s) n ≠ self).
    { intros Heq. apply (f_equal _indexing_stats) in Heq. simpl in Heq.
      destruct Hcase as [(_ & _ & ->)|(_ & -> & _)].
      - apply (f_equal cache_misses) in Heq. simpl in Heq. lia.
      - apply (f_equal cached_hits) in Heq. simpl in Heq. lia. }
    assert (Hassigned : index_assigned (store (with_counter_stats self c s) n)
                          node idx).
    { split; simpl; [by rewrite lookup_insert_eq|].
      exists n. by rewrite lookup_insert_eq. }
    destruct (_convert_to_indexed_element n) as [e|] eqn:Hconv.
    + do 3 eexists. split; [reflexivity|]. split; [exact Hne|].
      split; [exact Hassigned|]. intros e' [= <-]. split.
      * by apply _convert_to_indexed_element_index in Hconv as (-> & _).
      * by do 3 eexists.
    + do 3 eexists. split; [reflexivity|]. split; [exact Hne|].
      split; [exact Hassigned|]. intros e' He'. discriminate He'.
  - apply filtered_out_excluded.
  - intros md5 t nodes rank Hranked fuel Hfuel.
    destruct (index_elements_terminates md5 t self nodes rank Hranked fuel Hfuel)
      as (self' & out & Hrun).
    exists self', out.
    pose proof Hrun as Hrun'.
    apply index_elements_loop in Hrun' as (self1 & Hloop & _).
    destruct (index_loop_sources _ _ _ _ _ Hloop) as (srcs & Hsub & Hel & Hok).
    exists srcs. split; [done|]. split; [done|]. split; [done|].
    eapply Forall_impl; [exact Hok|]. intros n Hn. cbv beta in Hn.
    assert (Hnex : ¬ filtered_out max_len n).
    { intros Hex. apply (_should_index_node_spec self) in Hex.
      rewrite (_should_index_node_config self _ n) in Hn by done. congruence. }
    split; [done|]. intros Hh. apply Hnex. by left.
Qed.

(** The filter on a hidden button, on a button, and on a pass over a
    button, a hidden button and an unnamed generic node, of which only the
    first is indexed. *)
Lemma C5_eligibility_filter_witness :
  _index_single_node 1 fresh_indexer
    (mk_node 2 "button" "Close" [("hidden", PBool true)] None)
  = Some (fresh_indexer, None)
  ∧ (∃ fuel self' r idx,
       _index_single_node fuel fresh_indexer
         (mk_node 1 "button" "Submit" [] None) = Some (self', r)
       ∧ self' ≠ fresh_indexer
       ∧ index_assigned self' (mk_node 1 "button" "Submit" [] None) idx)
  ∧ ∃ self' e,
      index_elements id 1 0 fresh_indexer
        [mk_node 1 "button" "Submit" [] None;
         mk_node 2 "button" "Close" [("hidden", PBool true)] None;
         mk_node 3 "generic" "" [] None]
      = Some (self', [e])
      ∧ element_of (mk_node 1 "button" "Submit" [] None) e.
Proof.
  destruct (C5_eligibility_filter fresh_indexer
              (mk_node 2 "button" "Close" [("hidden", PBool true)] None))
    as (Hex & _ & _ & Hpass).
  destruct (C5_eligibility_filter fresh_indexer
              (mk_node 1 "button" "Submit" [] None)) as (_ & Hin & _ & _).
  split; [|split].
  - apply Hex. left. exists (PBool true). split; reflexivity.
  - destruct Hin as [hops Hhops].
    { intros [(v & Hv & _)|[[Hn _]|[_ Hlen]]];
        [discriminate Hv | discriminate Hn | vm_compute in Hlen; discriminate Hlen]. }
    { exact I. }
    destruct (Hhops hops (le_n _)) as (s & r & idx & Hs & Hne & Hassigned & _).
    by exists hops, s, r, idx.
  - assert (Hranked : parents_ranked
              [mk_node 1 "button" "Submit" [] None;
               mk_node 2 "button" "Close" [("hidden", PBool true)] None;
               mk_node 3 "generic" "" [] None] (λ _, 0%nat)).
    { intros n p Hn Hp.
      repeat (apply elem_of_cons in Hn as [->|Hn]; [discriminate Hp|]).
      by apply elem_of_nil in Hn. }
    destruct (Hpass id 0%Q _ _ Hranked 1%nat) as (self' & out & srcs & Hrun & Hsub & Hel & Hall).
    { vm_compute. lia. }
    assert (Hout : ∃ e, out = [e]).
    { vm_compute in Hrun. inversion Hrun. by eexists. }
    destruct Hout as [e ->]. exists self', e. split; [exact Hrun|].
    inversion Hel as [|n e' srcs' out' Hne Hrest]; subst.
    inversion Hrest; subst.
    apply Forall_cons in Hall as [[Hnex Hnh] _].
    apply sublist_cons_l in Hsub as (k1 & k2 & Hk & _).
    destruct k1 as [|x1 k1]; simpl in Hk.
    { by inversion Hk; subst. }
    exfalso. inversion Hk; subst.
    destruct k1 as [|x2 k1]; simpl in *.
    { inversion H1; subst. apply Hnh. exists (PBool true). split; reflexivity. }
    inversion H1; subst. destruct k1 as [|x3 k1]; simpl in *.
    { inversion H2; subst. apply Hnex. right; left. split; reflexivity. }
    inversion H2; subst. by destruct k1.
Defined.


(** ** A pass does not read the previous-pass maps when assigning indices *)

Lemma same_current_lookup (s1 s2 : ElementIndexer) (i : Z) :
  same_current s1 s2 →
  match _index_to_node s1 !! i, _index_to_node s2 !! i with
  | Some n1, Some n2 => erase_new n1 = erase_new n2
  | None, None => True
  | _, _ => False
  end.
Proof.
  intros (_ & _ & _ & _ & H). apply (f_equal (.!! i)) in H.
  rewrite !lookup_fmap in H.
  destruct (_index_to_node s1 !! i), (_index_to_node s2 !! i); simpl in H;
    [congruence | discriminate | discriminate | exact I].
Qed.

Lemma same_current_with_counter_stats (s1 s2 : ElementIndexer) (c : Z)
  (st1 st2 : IndexingStats) :
  same_current s1 s2 →
  same_current (with_counter_stats s1 c st1) (with_counter_stats s2 c st2).
Proof. intros (? & ? & ? & ? & ?). by repeat split. Qed.

Lemma same_current_get_or_create (s1 s2 s1' s2' : ElementIndexer)
  (node : AccessibilityNode) (i1 i2 : Z) :
  same_current s1 s2 →
  get_or_create s1 node = (s1', i1) → get_or_create s2 node = (s2', i2) →
  i1 = i2 ∧ same_current s1' s2'.
Proof.
  intros Hsame. pose proof Hsame as (_ & Hc & Hid & _ & _).
  unfold get_or_create, _get_or_create_interactive_index,
    _get_or_create_element_index, allocate, hit.
  rewrite Hid, Hc.
  destruct (String.eqb _ _);
    (destruct (_node_id_to_index s2 !! node_id node) as [ci|];
     [pose proof (same_current_lookup _ _ ci Hsame) as Hl;
      destruct (_index_to_node s1 !! ci) as [n1|],
               (_index_to_node s2 !! ci) as [n2|]; try done;
      try (apply (f_equal is_interactive) in Hl; simpl in Hl; rewrite Hl;
           destruct (is_interactive n2))|]);
    intros [= <- <-] [= <- <-]; (split; [done|]);
    by apply same_current_with_counter_stats.
Qed.

Lemma same_current_depth_walk (s1 s2 : ElementIndexer) (fuel : nat)
  (start : option Z) (depth : Z) :
  same_current s1 s2 →
  depth_walk fuel s1 start depth = depth_walk fuel s2 start depth.
Proof.
  intros Hsame. pose proof Hsame as (_ & _ & Hid & _ & _).
  revert start depth. induction fuel as [|fuel IH]; intros [p|] depth; simpl;
    try done.
  rewrite Hid. destruct (_node_id_to_index s2 !! p) as [idx|]; [|done].
  pose proof (same_current_lookup _ _ idx Hsame) as Hl.
  destruct (_index_to_node s1 !! idx) as [n1|],
           (_index_to_node s2 !! idx) as [n2|]; try done.
  apply (f_equal node) in Hl. simpl in Hl. rewrite Hl. apply IH.
Qed.

Lemma same_current_store (s1 s2 : ElementIndexer) (n1 n2 : IndexedNode) :
  same_current s1 s2 → erase_new n1 = erase_new n2 →
  same_current (store s1 n1) (store s2 n2).
Proof.
  intros (? & ? & Hid & Hx & Hix) Hn.
  pose proof (f_equal index Hn) as Hi. pose proof (f_equal node Hn) as Hnode.
  pose proof (f_equal xpath Hn) as Hxp. simpl in Hi, Hnode, Hxp.
  repeat split; simpl; try done.
  - by rewrite Hid, Hi, Hnode.
  - by rewrite Hx, Hi, Hxp.
  - by rewrite !fmap_insert, Hix, Hi, Hn.
Qed.

Lemma same_current_step (fuel : nat) (s1 s2 : ElementIndexer)
  (node : AccessibilityNode) :
  same_current s1 s2 →
  same_outcome (λ a b, same_current (fst a) (fst b) ∧ snd a = snd b)
    (_index_single_node fuel s1 node) (_index_single_node fuel s2 node).
Proof.
  intros Hsame. rewrite !_index_single_node_unfold.
  rewrite (_should_index_node_config s2 s1 node) by apply Hsame.
  destruct (_should_index_node s2 node); cbn [negb]; [|done].
  destruct (get_or_create s1 node) as [s1' i1] eqn:H1.
  destruct (get_or_create s2 node) as [s2' i2] eqn:H2.
  destruct (same_current_get_or_create _ _ _ _ _ _ _ Hsame H1 H2)
    as [<- Hsame'].
  unfold _calculate_depth.
  rewrite (same_current_depth_walk s1' s2' _ _ _ Hsame').
  destruct (depth_walk fuel s2' (parent_id node) 0) as [d|]; [|done].
  cbv zeta.
  assert (Hn : erase_new (indexed_node_of s1' node i1 d)
               = erase_new (indexed_node_of s2' node i1 d)).
  { unfold erase_new, indexed_node_of, _get_parent_index,
      _get_children_indices. simpl.
    destruct Hsame' as (_ & _ & -> & _). done. }
  assert (Hconv : _convert_to_indexed_element (indexed_node_of s1' node i1 d)
                  = _convert_to_indexed_element (indexed_node_of s2' node i1 d)).
  { change (_convert_to_indexed_element
              (erase_new (indexed_node_of s1' node i1 d))
            = _convert_to_indexed_element
                (erase_new (indexed_node_of s2' node i1 d))).
    by rewrite Hn. }
  rewrite Hconv. clear Hconv.
  destruct (_convert_to_indexed_element _); unfold same_outcome; simpl;
    (split; [by apply same_current_store | done]).
Qed.

Lemma same_current_loop (fuel : nat) (nodes : list AccessibilityNode)
  (s1 s2 : ElementIndexer) :
  same_current s1 s2 →
  same_outcome (λ a b, same_current (fst a) (fst b) ∧ snd a = snd b)
    (index_loop fuel s1 nodes) (index_loop fuel s2 nodes).
Proof.
  revert s1 s2. induction nodes as [|node nodes IH]; intros s1 s2 Hsame; simpl;
    [done|].
  pose proof (same_current_step fuel s1 s2 node Hsame) as Hstep.
  destruct (_index_single_node fuel s1 node) as [[s1' r1]|],
           (_index_single_node fuel s2 node) as [[s2' r2]|]; try done.
  simpl in Hstep. destruct Hstep as [Hsame' <-].
  specialize (IH s1' s2' Hsame').
  destruct (index_loop fuel s1' nodes) as [[s1'' o1]|],
           (index_loop fuel s2' nodes) as [[s2'' o2]|]; try done.
  simpl in IH. destruct IH as [Hsame'' <-]. by simpl.
Qed.

(** Whatever an indexer holds from earlier passes, a pass over [nodes]
    returns the same elements and files the same identifiers under the same
    indices as a pass of any other indexer with the same configuration. *)
Theorem index_elements_ignores_history (md5 : string → string) (fuel : nat)
  (t1 t2 : Q) (s1 s2 : ElementIndexer) (nodes : list AccessibilityNode) :
  config s1 = config s2 →
  same_outcome (λ a b, snd a = snd b
                       ∧ _node_id_to_index (fst a) = _node_id_to_index (fst b))
    (index_elements md5 fuel t1 s1 nodes) (index_elements md5 fuel t2 s2 nodes).
Proof.
  intros Hcfg. unfold index_elements.
  assert (Hsame : same_current (begin_pass md5 t1 s1 nodes)
                    (begin_pass md5 t2 s2 nodes)) by (by repeat split).
  pose proof (same_current_loop fuel nodes _ _ Hsame) as Hloop.
  destruct (index_loop fuel (begin_pass md5 t1 s1 nodes) nodes) as [[s1' o1]|],
           (index_loop fuel (begin_pass md5 t2 s2 nodes) nodes) as [[s2' o2]|];
    try done.
  simpl in Hloop. destruct Hloop as [(_ & _ & Hid & _) <-]. by simpl.
Qed.

(** ** Indices across passes *)

(** C1, evaluated on the code. A pass over S1 files identifier 42 under
    index 7 and saves that in the previous-pass map; in the next pass, over
    S1 without the unrelated node 36, node 42 is still eligible and still
    interactive, yet it is given index 6: the saved map is not consulted. *)
Theorem C1_index_not_stable_across_passes :
  ∃ self1 out1 self2 out2,
    index_elements id 1 0 fresh_indexer snapshot_S1 = Some (self1, out1)
    ∧ _node_id_to_index self1 !! 42 = Some 7
    ∧ _previous_indices self1 !! 42 = Some 7
    ∧ _should_index_node self1 (item 42) = true
    ∧ _determine_index_type (item 42) = "interactive"
    ∧ index_elements id 1 1 self1 snapshot_S2 = Some (self2, out2)
    ∧ _node_id_to_index self2 !! 42 = Some 6
    ∧ indices out1 = [0; 1; 2; 3; 4; 5; 6; 7]
    ∧ indices out2 = [0; 1; 2; 3; 4; 5; 6].
Proof.
  do 4 eexists. split; [vm_compute; reflexivity|].
  do 4 (split; [vm_compute; reflexivity|]).
  split; [vm_compute; reflexivity|].
  repeat split; vm_compute; reflexivity.
Qed.

(** ** Queries *)

(** C10, evaluated on the code. A parsed node with an empty role string is
    indexed as an element of role GENERIC, and [get_elements_by_role GENERIC]
    does not return it; a stored node that is interactive by its state and
    whose role is outside the role vocabulary makes
    [get_interactive_elements] raise. *)
Theorem C10_queries_miss_elements (P : Pydantic) :
  Parser.parse_accessibility_tree P default_AccessibilityConfig empty_role_tree
  = [empty_role_node]
  ∧ (∃ self' e,
       index_elements id 1 0 fresh_indexer [empty_role_node] = Some (self', [e])
       ∧ Types.index e = 0 ∧ Types.role e = GENERIC
       ∧ get_element_by_index self' 0 = Ok (Some e)
       ∧ get_elements_by_role self' GENERIC = Ok [])
  ∧ (∃ self',
       index_elements id 1 0 fresh_indexer [focusable_heading] = Some (self', [])
       ∧ (∃ n, _index_to_node self' !! 0 = Some n ∧ is_interactive n = true)
       ∧ get_interactive_elements self' = Raise ValueError).
Proof.
  split; [vm_compute; reflexivity|]. split.
  - do 2 eexists. split; [vm_compute; reflexivity|].
    repeat split; vm_compute; reflexivity.
  - eexists. split; [vm_compute; reflexivity|]. split.
    + eexists. split; vm_compute; reflexivity.
    + vm_compute; reflexivity.
Qed.


(** ** When the interactive query returns *)

Lemma interactive_role_convertible (n : IndexedNode) :
  node_role (node n) ∈ indexer_interactive_roles →
  ∃ e, _convert_to_indexed_element n = Ok e.
Proof.
  intros Hin. unfold _convert_to_indexed_element.
  unfold indexer_interactive_roles in Hin.
  repeat (apply elem_of_cons in Hin as [->|Hin]; [by eexists|]).
  by apply elem_of_nil in Hin.
Qed.

Lemma mapM_Ok {A B} (f : A → Res B) (l : list A) :
  Forall (λ x, ∃ y, f x = Ok y) l → ∃ ys, mapM f l = Ok ys.
Proof.
  induction 1 as [|x l [y Hy] _ [ys Hys]]; [by eexists|].
  exists (y :: ys). simpl. rewrite Hy. simpl. by rewrite Hys.
Qed.

Lemma mapM_Ok_Forall2 {A B} (f : A → Res B) (l : list A) (ys : list B) :
  mapM f l = Ok ys → Forall2 (λ x y, f x = Ok y) l ys.
Proof.
  revert ys. induction l as [|x l IH]; intros ys; simpl.
  - intros [= <-]. constructor.
  - destruct (f x) as [y|] eqn:Hy; simpl; [|discriminate].
    destruct (mapM f l) as [k|]; simpl; [|discriminate].
    intros [= <-]. constructor; [done | by apply IH].
Qed.

Lemma stored_nodes_lookup (self : ElementIndexer) (n : IndexedNode) :
  n ∈ stored_nodes self ↔ ∃ idx, _index_to_node self !! idx = Some n.
Proof.
  unfold stored_nodes. rewrite list_elem_of_fmap. split.
  - intros ([idx n'] & -> & Hin). exists idx. by apply elem_of_map_to_list.
  - intros [idx Hidx]. exists (idx, n). split; [done|].
    by apply elem_of_map_to_list.
Qed.

Lemma get_interactive_elements_returns (self : ElementIndexer) :
  stored_interactive_convertible self →
  ∃ l, get_interactive_elements self = Ok l.
Proof.
  intros Hconv. unfold get_interactive_elements.
  destruct (mapM_Ok _convert_to_indexed_element
              (List.filter is_interactive (stored_nodes self))) as [ys Hys].
  - rewrite Forall_forall. intros n Hn.
    apply list_elem_of_In, filter_In in Hn as [Hn Hi].
    apply list_elem_of_In, stored_nodes_lookup in Hn as [idx Hidx].
    by eapply Hconv.
  - rewrite Hys. by eexists.
Qed.

Lemma step_convertible (fuel : nat) (self self' : ElementIndexer)
  (node : AccessibilityNode) (r : option IndexedElement) :
  category_by_role node → stored_interactive_convertible self →
  _index_single_node fuel self node = Some (self', r) →
  stored_interactive_convertible self'.
Proof.
  intros Hcat Hconv Hstep.
  destruct (_should_index_node self node) eqn:Hok.
  2:{ rewrite (_index_single_node_excluded _ _ _ Hok) in Hstep.
      by inversion Hstep; subst. }
  destruct (_index_single_node_eligible _ _ _ _ _ Hok Hstep)
    as (self1 & idx & depth & Hget & _ & -> & _).
  destruct (get_or_create_cases _ _ _ _ Hget) as (c & s & -> & _).
  intros idx' n'. simpl.
  destruct (decide (idx = idx')) as [<-|Hne].
  - rewrite lookup_insert_eq. intros [= <-]. simpl. intros Hi.
    apply interactive_role_convertible. simpl. apply Hcat.
    by apply String.eqb_eq.
  - rewrite lookup_insert_ne by done. apply Hconv.
Qed.

Lemma index_loop_convertible (fuel : nat) (nodes : list AccessibilityNode)
  (self self' : ElementIndexer) (out : list IndexedElement) :
  Forall category_by_role nodes → stored_interactive_convertible self →
  index_loop fuel self nodes = Some (self', out) →
  stored_interactive_convertible self'.
Proof.
  intros Hcat. revert self self' out.
  induction Hcat as [|node nodes Hnode _ IH]; intros self self' out Hconv Hloop;
    simpl in Hloop.
  - by inversion Hloop; subst.
  - destruct (_index_single_node fuel self node) as [[self1 r]|] eqn:Hstep;
      [|discriminate].
    destruct (index_loop fuel self1 nodes) as [[self2 out2]|] eqn:Hrest;
      [|discriminate].
    inversion Hloop; subst self2 out.
    eapply IH; [|exact Hrest]. by eapply step_convertible.
Qed.

(** After a pass over nodes whose category rests on their role, the
    interactive query returns. *)
Lemma index_elements_interactive_query (md5 : string → string) (fuel : nat)
  (t : Q) (self self' : ElementIndexer) (nodes : list AccessibilityNode)
  (out : list IndexedElement) :
  Forall category_by_role nodes →
  index_elements md5 fuel t self nodes = Some (self', out) →
  ∃ l, get_interactive_elements self' = Ok l.
Proof.
  intros Hcat Hrun.
  apply index_elements_loop in Hrun as (self1 & Hloop & ->).
  apply get_interactive_elements_returns.
  assert (H1 : stored_interactive_convertible self1).
  { eapply index_loop_convertible; [exact Hcat| |exact Hloop].
    intros idx n. simpl. by rewrite lookup_empty. }
  exact H1.
Qed.

Lemma convert_set_is_interactive (P : Pydantic) (p : Parser.ParsedAXNode)
  (b : bool) :
  Parser._convert_to_accessibility_node P (Parser.set_is_interactive p b)
  = Parser._convert_to_accessibility_node P p.
Proof. reflexivity. Qed.

Lemma classify_all_elem (config : AccessibilityConfig)
  (nodes classified : list Parser.ParsedAXNode) (n : Parser.ParsedAXNode) :
  Parser.classify_all config nodes = Ok classified → n ∈ classified →
  ∃ p b, p ∈ nodes ∧ n = Parser.set_is_interactive p b.
Proof.
  revert classified. induction nodes as [|p nodes IH]; intros classified; simpl.
  - intros [= <-] Hin. by apply elem_of_nil in Hin.
  - cbv [mbind Res_bind].
    destruct (Parser._is_node_interactive config p) as [b|]; [|discriminate].
    destruct (Parser.classify_all config nodes) as [rest|]; [|discriminate].
    intros [= <-] Hin. apply elem_of_cons in Hin as [->|Hin].
    + exists p, b. split; [by left | done].
    + destruct (IH rest eq_refl Hin) as (p' & b' & Hp' & ->).
      exists p', b'. split; [by right | done].
Qed.

(** Every node the parser returns for a snapshot has its category decided
    by its role. *)
Lemma parse_accessibility_tree_category (P : Pydantic)
  (config : AccessibilityConfig) (ax_tree_data : PyVal) :
  Forall category_by_role (Parser.parse_accessibility_tree P config ax_tree_data).
Proof.
  unfold Parser.parse_accessibility_tree.
  destruct ax_tree_data; try by constructor.
  destruct (assoc_get "nodes" kv) as [nodes_data|]; [|by constructor].
  destruct (py_iter nodes_data) as [items|]; [|by constructor].
  destruct (Parser.classify_all config (Parser.parse_all config items))
    as [classified|] eqn:Hclass; [|by constructor].
  rewrite Forall_forall. intros a Ha.
  unfold Parser.convert_all in Ha.
  apply list_elem_of_omap in Ha as (n & Hn & Hconv).
  destruct (classify_all_elem _ _ _ _ Hclass Hn) as (p & b & Hp & ->).
  rewrite convert_set_is_interactive in Hconv.
  unfold Parser.parse_all in Hp.
  apply list_elem_of_omap in Hp as (raw & _ & Hraw).
  destruct (Parser._parse_single_node config raw) as [p'|] eqn:Hparse;
    [|discriminate].
  inversion Hraw; subst p'.
  destruct (Parser._convert_to_accessibility_node P p) as [a'|] eqn:Hc;
    [|discriminate].
  inversion Hconv; subst a'.
  intros Hint. by apply (parsed_node_category _ _ _ _ _ Hparse Hc).
Qed.


(** ** What the queries do return *)

#[local] Instance index_le_total : Total index_le.
Proof. intros a b. unfold index_le. lia. Qed.

#[local] Instance index_le_trans : Transitive index_le.
Proof. intros a b c. unfold index_le. lia. Qed.

Lemma ElementRole_of_value_value (r : ElementRole) :
  ElementRole_of_value (ElementRole_value r) = Ok r.
Proof. by destruct r. Qed.

Lemma ElementRole_value_nonempty (r : ElementRole) :
  String.eqb (ElementRole_value r) "" = false.
Proof. by destruct r. Qed.

Lemma Forall2_convert_indices (l : list IndexedNode) (k : list IndexedElement) :
  Forall2 (λ n e, _convert_to_indexed_element n = Ok e) l k →
  indices k = map index l.
Proof.
  induction 1 as [|n e l k Hne _ IH]; [done|].
  unfold indices in *. simpl. rewrite IH.
  by apply _convert_to_indexed_element_index in Hne as (-> & _).
Qed.

Lemma StronglySorted_le_NoDup_lt (l : list IndexedElement) :
  StronglySorted index_le l → NoDup (indices l) →
  StronglySorted Z.lt (indices l).
Proof.
  induction 1 as [|e l _ IH Hall]; simpl; intros Hnd; [constructor|].
  apply NoDup_cons in Hnd as [Hnotin Hnd]. constructor; [by apply IH|].
  rewrite Forall_forall. intros i Hi.
  apply list_elem_of_fmap in Hi as (e' & -> & He').
  rewrite Forall_forall in Hall. specialize (Hall _ He'). unfold index_le in Hall.
  assert (Types.index e ≠ Types.index e'); [|lia].
  intros Heq. apply Hnotin. rewrite Heq. apply list_elem_of_fmap. by exists e'.
Qed.

Lemma NoDup_filter_map {A B} (f : A → B) (p : A → bool) (l : list A) :
  NoDup (map f l) → NoDup (map f (List.filter p l)).
Proof.
  induction l as [|x l IH]; simpl; [done|].
  intros Hnd. apply NoDup_cons in Hnd as [Hx Hnd].
  destruct (p x); simpl; [|by apply IH].
  apply NoDup_cons. split; [|by apply IH].
  intros Hin. apply Hx. apply list_elem_of_fmap in Hin as (y & -> & Hy).
  apply list_elem_of_fmap. exists y. split; [done|].
  apply list_elem_of_In, filter_In in Hy as [Hy _]. by apply list_elem_of_In.
Qed.

Lemma stored_nodes_indices_NoDup (self : ElementIndexer) :
  (∀ idx n, _index_to_node self !! idx = Some n → index n = idx) →
  NoDup (map index (stored_nodes self)).
Proof.
  intros Hix. unfold stored_nodes.
  replace (map index (map snd (map_to_list (_index_to_node self))))
    with ((map_to_list (_index_to_node self)).*1);
    [apply NoDup_fst_map_to_list|].
  rewrite map_map. apply map_ext_in. intros [idx n] Hin. simpl.
  symmetry. apply Hix. by apply elem_of_map_to_list, list_elem_of_In.
Qed.

(** A query that keeps the stored nodes passing [p], converts them and sorts
    by index returns, when the conversions succeed, exactly the conversions
    of those nodes, in strictly ascending index order. *)
Lemma sorted_query (self : ElementIndexer) (p : IndexedNode → bool)
  (l0 : list IndexedElement) :
  (∀ idx n, _index_to_node self !! idx = Some n → index n = idx) →
  mapM _convert_to_indexed_element (List.filter p (stored_nodes self)) = Ok l0 →
  StronglySorted Z.lt (indices (sorted_by_index l0))
  ∧ ∀ e, e ∈ sorted_by_index l0
         ↔ ∃ n, n ∈ stored_nodes self ∧ p n = true
                ∧ _convert_to_indexed_element n = Ok e.
Proof.
  intros Hix Hmap. apply mapM_Ok_Forall2 in Hmap.
  pose proof (merge_sort_Permutation index_le l0) as Hperm.
  fold (sorted_by_index l0) in Hperm. split.
  - apply StronglySorted_le_NoDup_lt.
    + apply (StronglySorted_merge_sort index_le).
    + unfold indices. rewrite Hperm.
      fold (indices l0). rewrite (Forall2_convert_indices _ _ Hmap).
      by apply NoDup_filter_map, stored_nodes_indices_NoDup.
  - intros e. rewrite Hperm. split.
    + intros He. apply list_elem_of_lookup in He as [i Hi].
      destruct (Forall2_lookup_r _ _ _ _ _ Hmap Hi) as (n & Hn & Hne).
      exists n.
      apply list_elem_of_lookup_2, list_elem_of_In, filter_In in Hn as [Hn Hp].
      by rewrite list_elem_of_In.
    + intros (n & Hn & Hp & Hne).
      assert (Hin : n ∈ List.filter p (stored_nodes self)).
      { apply list_elem_of_In, filter_In. by rewrite <- list_elem_of_In. }
      apply list_elem_of_lookup in Hin as [i Hi].
      destruct (Forall2_lookup_l _ _ _ _ _ Hmap Hi) as (e' & He' & Hne').
      rewrite Hne in Hne'. inversion Hne'; subst e'.
      by eapply list_elem_of_lookup_2.
Qed.


(** After any pass: [get_elements_by_role] returns, and
    [get_interactive_elements] returns unless a conversion raises; what
    they return is, in strictly ascending index order, exactly the
    conversions of the stored nodes whose role string is the role's value,
    respectively whose interactive flag is set. *)
Theorem queries_after_pass (md5 : string → string) (fuel : nat) (t : Q)
  (self self' : ElementIndexer) (nodes : list AccessibilityNode)
  (out : list IndexedElement) (role : ElementRole) :
  index_elements md5 fuel t self nodes = Some (self', out) →
  (∀ l, get_interactive_elements self' = Ok l →
     StronglySorted Z.lt (indices l)
     ∧ ∀ e, e ∈ l ↔ ∃ n, n ∈ stored_nodes self' ∧ is_interactive n = true
                         ∧ _convert_to_indexed_element n = Ok e)
  ∧ (∃ l, get_elements_by_role self' role = Ok l
          ∧ StronglySorted Z.lt (indices l)
          ∧ ∀ e, e ∈ l ↔ ∃ n, n ∈ stored_nodes self'
                              ∧ node_role (node n) = ElementRole_value role
                              ∧ _convert_to_indexed_element n = Ok e).
Proof.
  intros Hrun. apply index_elements_loop in Hrun as (self1 & Hloop & ->).
  destruct (index_loop_invariant nodes _ _ _ _ _
              (begin_pass_invariant md5 t self nodes nodes)
              (reflexivity _) Hloop) as ((_ & _ & Hix) & _).
  set (final := _save_current_indices _).
  assert (Hix' : ∀ idx n, _index_to_node final !! idx = Some n → index n = idx).
  { intros idx n Hn. by destruct (Hix idx n Hn) as (? & _). }
  split.
  - intros l. unfold get_interactive_elements. cbv [mbind Res_bind].
    destruct (mapM _ _) as [l0|] eqn:Hmap; [|discriminate].
    intros [= <-]. by apply sorted_query.
  - unfold get_elements_by_role.
    destruct (mapM_Ok _convert_to_indexed_element
                (List.filter (λ n, String.eqb (node_role (node n))
                                     (ElementRole_value role))
                   (stored_nodes final))) as [l0 Hmap].
    { rewrite Forall_forall. intros n Hn.
      apply list_elem_of_In, filter_In in Hn as [_ Hr].
      apply String.eqb_eq in Hr. unfold _convert_to_indexed_element.
      rewrite Hr, ElementRole_value_nonempty, ElementRole_of_value_value.
      by eexists. }
    rewrite Hmap. cbv [mbind Res_bind]. eexists. split; [reflexivity|].
    destruct (sorted_query final _ l0 Hix' Hmap) as [Hsorted Hmem].
    split; [done|]. intros e. rewrite Hmem.
    split; intros (n & Hn & Hr & Hc); exists n; (split; [done|]);
      (split; [|done]); by apply String.eqb_eq.
Qed.

End IndexerFacts.

(* ===================================================================== *)
(** * Facts about the page-state cache *)
(* ===================================================================== *)

Module AnalyzerFacts.
Import Analyzer AnalyzerSpec.


Lemma __init___consistent (config : DOMAnalyzerConfig) :
  cache_consistent (__init__ config).
Proof. intros k. simpl. by rewrite !lookup_empty. Qed.

Lemma clear_cache_consistent (self : DOMAnalyzer) (target_id : option string) :
  cache_consistent self → cache_consistent (clear_cache self target_id).
Proof.
  intros H k. unfold clear_cache.
  destruct (Indexer.opt_str_truthy target_id) as [t|]; simpl.
  - destruct (decide (t = k)) as [->|Hne].
    + by rewrite !lookup_delete_eq.
    + rewrite !lookup_delete_ne by done. apply H.
  - by rewrite !lookup_empty.
Qed.

Lemma save_result_consistent (self : DOMAnalyzer) (target_id : string)
  (result : PageAnalysisResult) :
  cache_consistent self →
  cache_consistent (save_result self target_id result (timestamp result)).
Proof.
  intros H k. simpl. destruct (decide (target_id = k)) as [->|Hne].
  - by rewrite !lookup_insert_eq.
  - rewrite !lookup_insert_ne by done. apply H.
Qed.



(** Consistency of the two cache tables is kept by every call of
    [analyze_page], whatever its outcome. *)
Lemma analyze_page_consistent (md5 : string → string) (P : Pydantic)
  (fuel : nat) (w : World) (self self' : DOMAnalyzer) (target_id : string) (force_refresh : bool)
  (r : Res PageAnalysisResult) :
  cache_consistent self →
  analyze_page md5 P fuel w self target_id force_refresh = Some (self', r) →
  cache_consistent self'.
Proof.
  intros Hinv. unfold analyze_page.
  destruct (negb force_refresh && _) eqn:Huse.
  { destruct (_analysis_cache (bump_cache_hits self) !! target_id);
      by intros [= <- <-]. }
  destruct (if cdp_connected (bump_cache_misses self) then Ok tt
            else ensure_cdp_connection w); [|by intros [= <- <-]].
  destruct (get_page_info w) as [[page_url page_title]|]; [|by intros [= <- <-]].
  destruct (get_accessibility_tree w); [|by intros [= <- <-]].
  destruct (Indexer.index_elements _ _ _ _ _) as [[ix elems]|]; [|discriminate].
  destruct (Indexer.get_interactive_elements ix); [|by intros [= <- <-]].
  intros [= <- <-]. intros k. cbn.
  destruct (decide (target_id = k)) as [->|Hne].
  - by rewrite !lookup_insert_eq.
  - rewrite !lookup_insert_ne by done. apply Hinv.
Qed.





End AnalyzerFacts.

(* ===================================================================== *)
(** * Further properties of the parser *)
(* ===================================================================== *)

Module ParserProps.
Import Parser ParserSpec PyFacts.

Lemma is_text_valid_true (config : AccessibilityConfig) (text : PyVal) :
  is_text_valid config text = Ok true →
  ∃ s, text = PStr s ∧ s ≠ ""
       ∧ min_text_length config ≤ py_len (py_strip s) ≤ max_text_length config.
Proof.
  unfold is_text_valid. destruct (truthy text) eqn:Ht; [|discriminate].
  cbn [negb]. destruct text as [| | |s| |]; try discriminate.
  intros [= H]. apply andb_true_iff in H as [H1 H2].
  exists s. split; [done|]. split.
  - intros ->. discriminate Ht.
  - split; [by apply Z.leb_le | by apply Z.leb_le].
Qed.

Lemma is_text_valid_str (config : AccessibilityConfig) (s : string) :
  is_text_valid config (PStr s)
  = Ok (negb (String.eqb s "")
        && ((min_text_length config <=? py_len (py_strip s))
            && (py_len (py_strip s) <=? max_text_length config))).
Proof.
  unfold is_text_valid. simpl. by destruct (String.eqb s "").
Qed.

(** What [_parse_single_node] makes of the name. *)
Lemma _parse_single_node_name (config : AccessibilityConfig)
  (kv : list (string * PyVal)) (p : ParsedAXNode) :
  _parse_single_node config (PDict kv) = Ok p →
  ∃ v valid, raw_name kv = Ok v ∧ is_text_valid config v = Ok valid
             ∧ name p = if valid then v else PStr "".
Proof.
  unfold _parse_single_node, raw_name. cbn [py_get]. cbv [mbind Res_bind].
  destruct (value_of _ (PStr "generic")); [|discriminate].
  destruct (value_of _ (PStr "")) as [v|]; [|discriminate].
  destruct (value_of _ PNone); [|discriminate].
  destruct (value_of _ PNone); [|discriminate].
  destruct (is_text_valid config v) as [valid|] eqn:Hvalid; [|discriminate].
  intros [= <-]. by exists v, valid.
Qed.


(** X1. Text bounds. The name of a parsed node is always a string. It is
    the raw name when that is a non-empty string whose stripped length lies
    between the configured minimum and maximum, and the empty string in
    every other case; the name is stored unstripped. *)
Theorem X1_parsed_name_within_bounds (config : AccessibilityConfig)
  (kv : list (string * PyVal)) (p : ParsedAXNode)
  (Hparse : _parse_single_node config (PDict kv) = Ok p) :
  let in_bounds (s : string) :=
    min_text_length config ≤ py_len (py_strip s) ≤ max_text_length config in
  ∃ s, name p = PStr s
    ∧ (s ≠ "" → raw_name kv = Ok (PStr s) ∧ in_bounds s)
    ∧ (∀ r, raw_name kv = Ok (PStr r) → r ≠ "" → in_bounds r → s = r)
    ∧ (∀ r, raw_name kv = Ok (PStr r) → ¬ in_bounds r → s = "").
Proof.
  intros in_bounds.
  destruct (_parse_single_node_name _ _ _ Hparse) as (v & valid & Hraw & Hvalid & Hname).
  destruct valid.
  - destruct (is_text_valid_true _ _ Hvalid) as (s & -> & Hne & Hb).
    exists s. split; [done|]. split; [done|]. split.
    + intros r Hr _ _. rewrite Hraw in Hr. by inversion Hr.
    + intros r Hr Hnb. rewrite Hraw in Hr. inversion Hr; subst r. by destruct Hnb.
  - exists "". split; [done|]. split; [done|]. split; [|done].
    intros r Hr Hne Hb. rewrite Hraw in Hr. inversion Hr; subst v.
    rewrite is_text_valid_str in Hvalid. inversion Hvalid as [Hv].
    apply String.eqb_neq in Hne. rewrite Hne in Hv. cbn [negb andb] in Hv.
    destruct Hb as [Hb1 Hb2].
    apply Z.leb_le in Hb1, Hb2. rewrite Hb1, Hb2 in Hv. discriminate Hv.
Qed.

(** A padded name is kept as it is. *)
Lemma X1_parsed_name_within_bounds_witness :
  ∃ p, _parse_single_node default_AccessibilityConfig
         (PDict [("nodeId", PInt 1); ("name", PDict [("value", PStr " OK ")])])
       = Ok p
       ∧ name p = PStr " OK ".
Proof.
  assert (Hp : ∃ p, _parse_single_node default_AccessibilityConfig
            (PDict [("nodeId", PInt 1); ("name", PDict [("value", PStr " OK ")])])
            = Ok p) by (eexists; vm_compute; reflexivity).
  destruct Hp as [p Hp]. exists p. split; [exact Hp|].
  destruct (X1_parsed_name_within_bounds _ _ _ Hp) as (s & Hs & _ & Hkeep & _).
  rewrite Hs. f_equal. apply Hkeep.
  - reflexivity.
  - discriminate.
  - vm_compute. split; discriminate.
Defined.

(** Every node the parser returns comes from a raw node that
    [_parse_single_node] accepted and [_convert_to_accessibility_node]
    validated. *)
Lemma parse_accessibility_tree_elem (P : Pydantic) (config : AccessibilityConfig)
  (ax_tree_data : PyVal) (a : AccessibilityNode) :
  a ∈ parse_accessibility_tree P config ax_tree_data →
  ∃ raw p, _parse_single_node config raw = Ok p
           ∧ _convert_to_accessibility_node P p = Ok a.
Proof.
  unfold parse_accessibility_tree.
  destruct ax_tree_data; try (intros H; by apply elem_of_nil in H).
  destruct (assoc_get "nodes" kv) as [nodes_data|];
    [|intros H; by apply elem_of_nil in H].
  destruct (py_iter nodes_data) as [items|];
    [|intros H; by apply elem_of_nil in H].
  destruct (classify_all config (parse_all config items))
    as [classified|] eqn:Hclass; [|intros H; by apply elem_of_nil in H].
  intros Ha. unfold convert_all in Ha.
  apply list_elem_of_omap in Ha as (n & Hn & Hconv).
  destruct (IndexerFacts.classify_all_elem _ _ _ _ Hclass Hn) as (p & b & Hp & ->).
  rewrite IndexerFacts.convert_set_is_interactive in Hconv.
  unfold parse_all in Hp.
  apply list_elem_of_omap in Hp as (raw & _ & Hraw).
  exists raw, p.
  destruct (_parse_single_node config raw) as [p'|]; [|discriminate].
  inversion Hraw; subst p'. split; [done|].
  destruct (_convert_to_accessibility_node P p) as [a'|]; [|discriminate].
  by inversion Hconv.
Qed.

Lemma state_dict_lookup_true (l : list string) (k : string) (v : PyVal) :
  foldl (λ d s, <[s := PBool true]> d) (∅ : gmap string PyVal) l !! k = Some v →
  v = PBool true ∧ k ∈ l.
Proof.
  assert (H : ∀ (m : gmap string PyVal),
            foldl (λ d s, <[s := PBool true]> d) m l !! k = Some v →
            (v = PBool true ∧ k ∈ l) ∨ m !! k = Some v).
  { induction l as [|x l IH]; simpl; intros m Hm; [by right|].
    destruct (IH _ Hm) as [[-> Hin]|Hm']; [left; split; [done | by right]|].
    destruct (decide (x = k)) as [->|Hne].
    - rewrite lookup_insert_eq in Hm'. inversion Hm'. left. split; [done | by left].
    - rewrite lookup_insert_ne in Hm' by done. by right. }
  intros Hl. destruct (H ∅ Hl) as [?|Hempty]; [done|].
  by rewrite lookup_empty in Hempty.
Qed.

Lemma parse_accessibility_tree_state_values (P : Pydantic) (config : AccessibilityConfig)
  (ax_tree_data : PyVal) (a : AccessibilityNode) :
  a ∈ parse_accessibility_tree P config ax_tree_data →
  ∀ k v, state a !! k = Some v → v = PBool true ∧ k ∈ important_states.
Proof.
  intros Hin.
  destruct (parse_accessibility_tree_elem _ _ _ _ Hin) as (raw & p & Hparse & Hconv).
  destruct (IndexerFacts._convert_to_accessibility_node_fields _ _ _ Hconv)
    as [_ Hstate].
  intros k v Hk. rewrite Hstate in Hk.
  apply state_dict_lookup_true in Hk as [-> Hk]. split; [done|].
  rewrite (IndexerFacts._parse_single_node_states _ _ _ Hparse) in Hk.
  pose proof (IndexerFacts._extract_node_states_vocabulary raw) as Hv.
  rewrite Forall_forall in Hv. by apply Hv.
Qed.

(** X2. In every node the parser returns, the state dictionary maps each of
    its keys to [True] and has no key outside the vocabulary of important
    states; a state label is therefore included exactly when it is a key. *)
Theorem X2_parser_output_states (P : Pydantic) (config : AccessibilityConfig)
  (ax_tree_data : PyVal) (a : AccessibilityNode)
  (Hin : a ∈ parse_accessibility_tree P config ax_tree_data) :
  (∀ k v, state a !! k = Some v → v = PBool true ∧ k ∈ important_states)
  ∧ (∀ label, IndexerSpec.state_includes a label ↔ is_Some (state a !! label)).
Proof.
  pose proof (parse_accessibility_tree_state_values _ _ _ _ Hin) as Hall.
  split; [exact Hall|]. intros label. unfold IndexerSpec.state_includes. split.
  - intros (v & Hv & _). by exists v.
  - intros [v Hv]. exists v. split; [done|].
    by destruct (Hall _ _ Hv) as [-> _].
Qed.

(** The states of the one-button page. *)
Lemma X2_parser_output_states_witness :
  ∃ a, a ∈ parse_accessibility_tree decimal_numerals default_AccessibilityConfig
             AnalyzerSpec.one_button_tree
       ∧ state a !! "visible" = Some (PBool true)
       ∧ IndexerSpec.state_includes a "visible".
Proof.
  assert (Ha : ∃ a, parse_accessibility_tree decimal_numerals default_AccessibilityConfig
                      AnalyzerSpec.one_button_tree = [a]
                    ∧ state a !! "visible" = Some (PBool true)).
  { eexists. split; vm_compute; reflexivity. }
  destruct Ha as (a & Ha & Hv). exists a.
  assert (Hin : a ∈ parse_accessibility_tree decimal_numerals default_AccessibilityConfig
                      AnalyzerSpec.one_button_tree)
    by (rewrite Ha; apply list_elem_of_here).
  split; [exact Hin|]. split; [exact Hv|].
  destruct (X2_parser_output_states decimal_numerals _ _ _ Hin) as [_ Hincl].
  apply Hincl. by exists (PBool true).
Defined.

Lemma parse_all_app (config : AccessibilityConfig) (l1 l2 : list PyVal) :
  parse_all config (l1 ++ l2) = (parse_all config l1 ++ parse_all config l2)%list.
Proof. unfold parse_all. apply omap_app. Qed.

Lemma parse_accessibility_tree_snapshot (P : Pydantic) (config : AccessibilityConfig)
  (items : list PyVal) :
  parse_accessibility_tree P config (snapshot_of items)
  = match classify_all config (parse_all config items) with
    | Raise _ => []
    | Ok parsed_nodes => convert_all P parsed_nodes
    end.
Proof. reflexivity. Qed.

(** X3. A raw node on which [_parse_single_node] raises, be it because the
    node is not an object or because a field has the wrong shape, is skipped:
    the parser returns what it returns for the snapshot without that node. *)
Theorem X3_malformed_node_skipped (P : Pydantic) (config : AccessibilityConfig)
  (l1 l2 : list PyVal) (bad : PyVal) (e : exn)
  (Hbad : _parse_single_node config bad = Raise e) :
  parse_accessibility_tree P config (snapshot_of (l1 ++ bad :: l2))
  = parse_accessibility_tree P config (snapshot_of (l1 ++ l2)).
Proof.
  rewrite !parse_accessibility_tree_snapshot, !parse_all_app.
  replace (parse_all config (bad :: l2)) with (parse_all config l2); [done|].
  unfold parse_all. simpl. by rewrite Hbad.
Qed.

(** A node given as a string between two buttons. *)
Lemma X3_malformed_node_skipped_witness :
  parse_accessibility_tree decimal_numerals default_AccessibilityConfig
    (snapshot_of [raw_node 1 (PStr "button") "A"; PStr "node";
                  raw_node 2 (PStr "button") "B"])
  = parse_accessibility_tree decimal_numerals default_AccessibilityConfig
      (snapshot_of [raw_node 1 (PStr "button") "A";
                    raw_node 2 (PStr "button") "B"]).
Proof.
  apply (X3_malformed_node_skipped decimal_numerals default_AccessibilityConfig
           [raw_node 1 (PStr "button") "A"] [raw_node 2 (PStr "button") "B"]
           (PStr "node") AttributeError).
  reflexivity.
Defined.

Lemma classify_all_raises (config : AccessibilityConfig)
  (nodes : list ParsedAXNode) (n : ParsedAXNode) (e : exn) :
  n ∈ nodes → _is_node_interactive config n = Raise e →
  ∃ e', classify_all config nodes = Raise e'.
Proof.
  induction nodes as [|x nodes IH]; intros Hin Hn; [by apply elem_of_nil in Hin|].
  simpl. cbv [mbind Res_bind].
  destruct (_is_node_interactive config x) as [b|e0] eqn:Hx; [|by eexists].
  apply elem_of_cons in Hin as [->|Hin]; [congruence|].
  destruct (IH Hin Hn) as [e' ->]. by eexists.
Qed.

(** X4. One accepted raw node whose role value is not hashable (a list or
    an object) makes the classification pass raise, and the parser then
    returns no node at all for the snapshot. *)
Theorem X4_unhashable_role_empties_snapshot (P : Pydantic) (config : AccessibilityConfig)
  (items : list PyVal) (raw : PyVal) (p : ParsedAXNode)
  (Hin : raw ∈ items) (Hparse : _parse_single_node config raw = Ok p)
  (Hrole : hashable (role p) = false) :
  parse_accessibility_tree P config (snapshot_of items) = [].
Proof.
  rewrite parse_accessibility_tree_snapshot.
  destruct (classify_all_raises config (parse_all config items) p TypeError)
    as [e' ->]; [| |done].
  - unfold parse_all. apply list_elem_of_omap. exists raw.
    split; [done|]. by rewrite Hparse.
  - unfold _is_node_interactive.
    by destruct (role p) as [| | | |l|kv0]; try discriminate Hrole.
Qed.

(** A button followed by a node whose role is a list. *)
Lemma X4_unhashable_role_empties_snapshot_witness :
  parse_accessibility_tree decimal_numerals default_AccessibilityConfig
    (snapshot_of [raw_node 1 (PStr "button") "A";
                  raw_node 2 (PList [PStr "button"]) "B"]) = [].
Proof.
  assert (Hp : ∃ p, _parse_single_node default_AccessibilityConfig
                      (raw_node 2 (PList [PStr "button"]) "B") = Ok p
                    ∧ hashable (role p) = false).
  { eexists. split; vm_compute; reflexivity. }
  destruct Hp as (p & Hp & Hrole).
  apply (X4_unhashable_role_empties_snapshot decimal_numerals default_AccessibilityConfig _
           (raw_node 2 (PList [PStr "button"]) "B") p); [|exact Hp|exact Hrole].
  apply list_elem_of_further, list_elem_of_here.
Defined.

(** Identifiers given as strings, as the browser sends them, are read by
    the model's validation: the node comes out with integer identifiers. *)
Example string_identifiers_read :
  ∃ a,
    parse_accessibility_tree decimal_numerals default_AccessibilityConfig
      (snapshot_of
         [PDict [("nodeId", PStr "7");
                 ("role", PDict [("value", PStr "button")]);
                 ("name", PDict [("value", PStr "Go")]);
                 ("childIds", PList [PStr "8"; PStr "9"]);
                 ("parentId", PStr "-3");
                 ("backendDOMNodeId", PBool true)]])
    = [a]
    ∧ Types.node_id a = 7 ∧ Types.children a = [8; 9]
    ∧ Types.parent_id a = Some (-3)
    ∧ Types.backend_dom_node_id a = Some 1.
Proof. eexists. split; [vm_compute; reflexivity|]. repeat split. Qed.

End ParserProps.

(* ===================================================================== *)
(** * Further properties of the indexer *)
(* ===================================================================== *)

Module IndexerProps.
Import Indexer IndexerSpec PyFacts IndexerFacts.

(** ** Element states *)

Lemma ElementState_member_not_value (k : string) :
  mem_str k ElementState_members = true →
  ElementState_of_value k = Raise ValueError.
Proof.
  intros Hk. apply mem_str_spec in Hk.
  unfold ElementState_members, all_states in Hk. simpl in Hk.
  repeat (apply elem_of_cons in Hk as [->|Hk]; [reflexivity|]).
  by apply elem_of_nil in Hk.
Qed.

Lemma omap_none {A B} (f : A → option B) (l : list A) :
  (∀ x, f x = None) → omap f l = [].
Proof.
  intros Hf. induction l as [|x l IH]; [done|]. simpl. by rewrite Hf.
Qed.

Lemma convert_states_empty (st : gmap string PyVal) : convert_states st = [].
Proof.
  unfold convert_states. apply omap_none. intros kv.
  destruct (mem_str kv.1 ElementState_members) eqn:Hk; [|done].
  by rewrite (ElementState_member_not_value _ Hk).
Qed.

Lemma _convert_to_indexed_element_states (n : IndexedNode) (e : IndexedElement) :
  _convert_to_indexed_element n = Ok e → Types.states e = [].
Proof.
  unfold _convert_to_indexed_element. cbv [mbind Res_bind].
  destruct (if String.eqb (node_role (node n)) "" then Ok GENERIC
            else ElementRole_of_value (node_role (node n))) as [r|]; [|discriminate].
  intros [= <-]. simpl. apply convert_states_empty.
Qed.

(** X5. The state list of an [IndexedElement] is always empty: a state
    label is kept only when it is a member name of [ElementState] and also
    the value of a member, and no string is both. *)
Theorem X5_element_states_always_empty (n : IndexedNode) (e : IndexedElement)
  (Hconv : _convert_to_indexed_element n = Ok e) :
  Types.states e = [].
Proof.
  unfold _convert_to_indexed_element in Hconv. cbv [mbind Res_bind] in Hconv.
  destruct (if String.eqb (node_role (node n)) "" then Ok GENERIC
            else ElementRole_of_value (node_role (node n))) as [r|]; [|discriminate].
  inversion Hconv; subst e. simpl.
  unfold convert_states. apply omap_none. intros kv.
  destruct (mem_str kv.1 ElementState_members) eqn:Hk; [|done].
  by rewrite (ElementState_member_not_value _ Hk).
Qed.

(** A checked, visible checkbox. *)
Lemma X5_element_states_always_empty_witness :
  ∃ e, _convert_to_indexed_element
         (indexed_node_of fresh_indexer
            (mk_node 5 "checkbox" "Agree"
               [("checked", PBool true); ("visible", PBool true)] None) 0 0)
       = Ok e
       ∧ Types.states e = [].
Proof.
  assert (He : ∃ e, _convert_to_indexed_element
                 (indexed_node_of fresh_indexer
                    (mk_node 5 "checkbox" "Agree"
                       [("checked", PBool true); ("visible", PBool true)] None) 0 0)
               = Ok e) by (eexists; reflexivity).
  destruct He as [e He]. exists e. split; [exact He|].
  exact (X5_element_states_always_empty _ _ He).
Defined.

(** ** Repeating a pass *)

Lemma index_elements_config (md5 : string → string) (fuel : nat) (t : Q)
  (self self' : ElementIndexer) (nodes : list AccessibilityNode)
  (out : list IndexedElement) :
  index_elements md5 fuel t self nodes = Some (self', out) →
  config self' = config self.
Proof.
  intros Hrun. apply index_elements_loop in Hrun as (self1 & Hloop & ->).
  destruct (index_loop_invariant nodes _ _ _ _ _
              (begin_pass_invariant md5 t self nodes nodes) (reflexivity _) Hloop)
    as (_ & Hcfg & _). exact Hcfg.
Qed.

(** X6. A pass is repeatable: the elements it returns depend on the
    configuration and the snapshot only. Any indexer with the same
    configuration returns the same list for the snapshot, whatever passes it
    ran before; so does the indexer left by the pass itself, and so does
    that indexer after [clear_cache]. *)
Theorem X6_pass_repeatable (md5 : string → string) (fuel : nat) (t : Q)
  (self self' : ElementIndexer) (nodes : list AccessibilityNode)
  (out : list IndexedElement)
  (Hrun : index_elements md5 fuel t self nodes = Some (self', out)) :
  (∀ other t', config other = config self →
     ∃ other', index_elements md5 fuel t' other nodes = Some (other', out)
               ∧ _node_id_to_index other' = _node_id_to_index self')
  ∧ (∀ t', ∃ self'', index_elements md5 fuel t' self' nodes = Some (self'', out))
  ∧ (∀ t', ∃ self'',
       index_elements md5 fuel t' (clear_cache self') nodes = Some (self'', out)).
Proof.
  assert (Hgen : ∀ other t', config other = config self →
     ∃ other', index_elements md5 fuel t' other nodes = Some (other', out)
               ∧ _node_id_to_index other' = _node_id_to_index self').
  { intros other t' Hcfg.
    pose proof (index_elements_ignores_history md5 fuel t t' self other nodes
                  (eq_sym Hcfg)) as Hsame.
    rewrite Hrun in Hsame. unfold same_outcome in Hsame.
    destruct (index_elements md5 fuel t' other nodes) as [[other' out']|];
      [|done].
    simpl in Hsame. destruct Hsame as [<- Hids]. by exists other'. }
  pose proof (index_elements_config _ _ _ _ _ _ _ Hrun) as Hcfg.
  split; [exact Hgen|]. split.
  - intros t'. destruct (Hgen self' t' Hcfg) as (s & Hs & _). by exists s.
  - intros t'. destruct (Hgen (clear_cache self') t' Hcfg) as (s & Hs & _).
    by exists s.
Qed.

(** The form, indexed twice. *)
Lemma X6_pass_repeatable_witness :
  ∃ self1 out self2,
    index_elements id 2 0 fresh_indexer form_snapshot = Some (self1, out)
    ∧ index_elements id 2 1 self1 form_snapshot = Some (self2, out).
Proof.
  assert (H1 : ∃ self1 out,
            index_elements id 2 0 fresh_indexer form_snapshot = Some (self1, out))
    by (do 2 eexists; vm_compute; reflexivity).
  destruct H1 as (self1 & out & H1).
  destruct (X6_pass_repeatable id 2 0 fresh_indexer self1 form_snapshot out H1)
    as (_ & Hagain & _).
  destruct (Hagain 1%Q) as [self2 H2].
  by exists self1, out, self2.
Defined.

(** ** Completion of a pass *)

Lemma depth_walk_mono (fuel fuel' : nat) (self : ElementIndexer)
  (start : option Z) (depth d : Z) :
  depth_walk fuel self start depth = Some d → (fuel ≤ fuel')%nat →
  depth_walk fuel' self start depth = Some d.
Proof.
  revert fuel' start depth.
  induction fuel as [|fuel IH]; intros fuel' start depth Hwalk Hle.
  - destruct start; simpl in Hwalk; [discriminate|].
    by destruct fuel'.
  - destruct start as [p|]; [|by destruct fuel'].
    destruct fuel' as [|fuel']; [lia|]. simpl in *.
    destruct (_node_id_to_index self !! p) as [pi|]; [|done].
    destruct (_index_to_node self !! pi) as [pn|]; [|done].
    apply IH; [done | lia].
Qed.

Lemma _index_single_node_mono (fuel fuel' : nat) (self : ElementIndexer)
  (node : AccessibilityNode) (res : ElementIndexer * option IndexedElement) :
  _index_single_node fuel self node = Some res → (fuel ≤ fuel')%nat →
  _index_single_node fuel' self node = Some res.
Proof.
  rewrite !_index_single_node_unfold. intros Hstep Hle.
  destruct (negb (_should_index_node self node)); [done|].
  destruct (get_or_create self node) as [self1 idx].
  unfold _calculate_depth in *.
  destruct (depth_walk fuel self1 (parent_id node) 0) as [d|] eqn:Hwalk;
    [|discriminate].
  by rewrite (depth_walk_mono _ _ _ _ _ _ Hwalk Hle).
Qed.

Lemma index_loop_mono (fuel fuel' : nat) (nodes : list AccessibilityNode)
  (self : ElementIndexer) (res : ElementIndexer * list IndexedElement) :
  index_loop fuel self nodes = Some res → (fuel ≤ fuel')%nat →
  index_loop fuel' self nodes = Some res.
Proof.
  revert self res. induction nodes as [|node nodes IH]; intros self res Hloop Hle;
    [done|].
  simpl in *.
  destruct (_index_single_node fuel self node) as [[self1 r]|] eqn:Hstep;
    [|discriminate].
  rewrite (_index_single_node_mono _ _ _ _ _ Hstep Hle).
  destruct (index_loop fuel self1 nodes) as [[self2 out]|] eqn:Hrest;
    [|discriminate].
  by rewrite (IH _ _ Hrest Hle).
Qed.

Lemma index_elements_mono (md5 : string → string) (fuel fuel' : nat) (t : Q)
  (self : ElementIndexer) (nodes : list AccessibilityNode)
  (res : ElementIndexer * list IndexedElement) :
  index_elements md5 fuel t self nodes = Some res → (fuel ≤ fuel')%nat →
  index_elements md5 fuel' t self nodes = Some res.
Proof.
  unfold index_elements. intros Hrun Hle.
  destruct (index_loop fuel _ nodes) as [[self1 out]|] eqn:Hloop; [|discriminate].
  by rewrite (index_loop_mono _ _ _ _ _ Hloop Hle).
Qed.

Lemma index_loop_length (fuel : nat) (nodes : list AccessibilityNode)
  (self self' : ElementIndexer) (out : list IndexedElement) :
  index_loop fuel self nodes = Some (self', out) →
  (length out ≤ length (eligible self nodes))%nat.
Proof.
  intros Hloop. destruct (index_loop_sources _ _ _ _ _ Hloop)
    as (srcs & Hsub & Hel & Hok).
  rewrite <- (Forall2_length _ _ _ Hel).
  apply sublist_length. unfold eligible.
  clear -Hsub Hok. induction Hsub as [|x l1 l2 Hs IH|x l1 l2 Hs IH]; simpl.
  - constructor.
  - apply Forall_cons in Hok as [Hx Hok]. rewrite Hx.
    apply sublist_skip. by apply IH.
  - destruct (_should_index_node self x); [apply sublist_cons|]; by apply IH.
Qed.

(** X7. A pass over a snapshot whose parent links are acyclic completes:
    with the walks allowed as many iterations as the longest chain needs, the
    pass returns, its result is the same for every larger allowance, and it
    returns at most one element for each eligible node. *)
Theorem X7_pass_completes (md5 : string → string) (t : Q)
  (self : ElementIndexer) (nodes : list AccessibilityNode) (rank : Z → nat)
  (Hranked : parents_ranked nodes rank) :
  ∃ self' out,
    (∀ fuel, (pass_fuel rank nodes ≤ fuel)%nat →
       index_elements md5 fuel t self nodes = Some (self', out))
    ∧ (length out ≤ length (eligible self nodes))%nat.
Proof.
  destruct (index_elements_terminates md5 t self nodes rank Hranked
              (pass_fuel rank nodes) (reflexivity _)) as (self' & out & Hrun).
  exists self', out. split.
  - intros fuel Hle. by apply (index_elements_mono _ _ _ _ _ _ _ Hrun).
  - apply index_elements_loop in Hrun as (self1 & Hloop & _).
    apply index_loop_length in Hloop.
    unfold eligible in *.
    erewrite filter_ext; [exact Hloop|].
    intros x. simpl. symmetry. by apply _should_index_node_config.
Qed.

(** The form has depth two. *)
Lemma X7_pass_completes_witness :
  ∃ self' out,
    index_elements id 2 0 fresh_indexer form_snapshot = Some (self', out)
    ∧ (length out ≤ 3)%nat.
Proof.
  assert (Hranked : parents_ranked form_snapshot Z.to_nat).
  { intros n p Hn Hp. unfold form_snapshot in Hn.
    repeat (apply elem_of_cons in Hn as [->|Hn];
            [simpl in Hp; try discriminate Hp; inversion Hp; subst p;
             vm_compute; lia|]).
    by apply elem_of_nil in Hn. }
  destruct (X7_pass_completes id 0 fresh_indexer form_snapshot Z.to_nat Hranked)
    as (self' & out & Hrun & Hlen).
  exists self', out. split; [|exact Hlen].
  apply Hrun. vm_compute. lia.
Defined.


(** ** Passes over distinct identifiers *)

Lemma index_loop_miss_run (fuel : nat) (nodes : list AccessibilityNode)
  (self self' : ElementIndexer) (out : list IndexedElement) :
  index_loop fuel self nodes = Some (self', out) →
  distinct_ids self nodes →
  (∀ n, n ∈ nodes → _should_index_node self n = true →
        _node_id_to_index self !! node_id n = None) →
  miss_run fuel self nodes self' out.
Proof.
  unfold distinct_ids, eligible. revert self self' out.
  induction nodes as [|node nodes IH]; intros self self' out Hloop Hnd Hfresh.
  - simpl in Hloop. inversion Hloop; subst. constructor.
  - simpl in Hloop.
    destruct (_index_single_node fuel self node) as [[self1 r]|] eqn:Hstep;
      [|discriminate].
    destruct (index_loop fuel self1 nodes) as [[self2 out2]|] eqn:Hrest;
      [|discriminate].
    inversion Hloop; subst self2 out. clear Hloop.
    simpl in Hnd.
    destruct (_should_index_node self node) eqn:Hok.
    2:{ rewrite (_index_single_node_excluded _ _ _ Hok) in Hstep.
        inversion Hstep; subst self1 r.
        apply miss_run_skip; [done|].
        apply (IH _ _ _ Hrest Hnd). intros n Hn. apply Hfresh. by right. }
    destruct (_index_single_node_eligible _ _ _ _ _ Hok Hstep)
      as (self0 & idx & depth & Hget & Hdepth & -> & ->).
    destruct (get_or_create_cases _ _ _ _ Hget) as (c & s & -> & Hcase).
    destruct Hcase as [(-> & -> & ->)|(_ & _ & Hcached & _)].
    2:{ rewrite Hfresh in Hcached; [discriminate | by left | done]. }
    simpl in Hnd. apply NoDup_cons in Hnd as [Hhead Hnd].
    fold (missed self) in *. fold (filed self node depth) in *.
    assert (Hsame : ∀ x, _should_index_node
                           (store (missed self) (filed self node depth)) x
                         = _should_index_node self x)
      by (intros x; by apply _should_index_node_config).
    assert (Htail : miss_run fuel (store (missed self) (filed self node depth))
                      nodes self' out2).
    { apply (IH _ _ _ Hrest).
      { erewrite filter_ext; [exact Hnd|]. intros x. apply Hsame. }
      intros x Hx Hokx. rewrite Hsame in Hokx. simpl.
      rewrite lookup_insert_ne; [apply Hfresh; [by right|done]|].
      intros Heq. apply Hhead. apply list_elem_of_fmap.
      exists x. split; [done|]. apply list_elem_of_In, filter_In.
      split; [by apply list_elem_of_In|done]. }
    assert (Hnone : _node_id_to_index self !! node_id node = None)
      by (apply Hfresh; [by left | done]).
    pose proof (miss_run_take fuel self node nodes self' out2 depth
                  Hok Hnone Hdepth Htail) as Hrun.
    by destruct (_convert_to_indexed_element (filed self node depth)).
Qed.

Lemma index_elements_miss_run (md5 : string → string) (fuel : nat) (t : Q)
  (self self' : ElementIndexer) (nodes : list AccessibilityNode)
  (out : list IndexedElement) :
  index_elements md5 fuel t self nodes = Some (self', out) →
  distinct_ids self nodes →
  ∃ self1, miss_run fuel (begin_pass md5 t self nodes) nodes self1 out
           ∧ self' = _save_current_indices
                       (_update_indexing_stats self1 (Z.of_nat (length out))).
Proof.
  intros Hrun Hnd. apply index_elements_loop in Hrun as (self1 & Hloop & ->).
  exists self1. split; [|done].
  apply index_loop_miss_run; [done| |done].
  unfold distinct_ids, eligible in *.
  erewrite filter_ext; [exact Hnd|]. intros x.
  by apply _should_index_node_config.
Qed.


Lemma _convert_to_indexed_element_fields (n : IndexedNode) (e : IndexedElement) :
  _convert_to_indexed_element n = Ok e →
  Types.index e = index n
  ∧ Types.is_interactive e = is_interactive n
  ∧ Types.parent_index e = parent_index n
  ∧ Types.children_indices e = children_indices n
  ∧ Types.attributes e = attributes n
  ∧ Types.text e = name (node n).
Proof.
  unfold _convert_to_indexed_element. cbv [mbind Res_bind].
  destruct (if String.eqb (node_role (node n)) "" then Ok GENERIC
            else ElementRole_of_value (node_role (node n))) as [r|]; [|discriminate].
  by intros [= <-].
Qed.

Lemma miss_run_stored (fuel : nat) (self self' : ElementIndexer)
  (nodes : list AccessibilityNode) (out : list IndexedElement) :
  miss_run fuel self nodes self' out →
  (∀ idx n, _index_to_node self !! idx = Some n → idx < _element_counter self) →
  (∀ idx, idx < _element_counter self →
     _index_to_node self' !! idx = _index_to_node self !! idx)
  ∧ (∀ e, e ∈ out →
       ∃ n, _index_to_node self' !! Types.index e = Some n
            ∧ _convert_to_indexed_element n = Ok e)
  ∧ (∀ idx n e, _element_counter self ≤ idx →
       _index_to_node self' !! idx = Some n →
       _convert_to_indexed_element n = Ok e → e ∈ out).
Proof.
  induction 1 as [self|self node nodes self' out Hok Hrun IH
                 |self node nodes self' out depth Hok Hnone Hdepth Hrun IH];
    intros Hbound.
  - split; [done|]. split; [intros e He; by apply elem_of_nil in He|].
    intros idx n e Hle Hl _. apply Hbound in Hl. lia.
  - by apply IH.
  - destruct IH as (Hold & Hout & Hnew).
    { intros idx n. simpl.
      destruct (decide (_element_counter self = idx)) as [<-|Hne].
      - intros _. lia.
      - rewrite lookup_insert_ne by done. intros Hl. apply Hbound in Hl. lia. }
    simpl in Hold, Hnew.
    assert (Hhere : _index_to_node self' !! _element_counter self
                    = Some (filed self node depth)).
    { rewrite Hold by lia. by rewrite lookup_insert_eq. }
    split; [|split].
    + intros idx Hlt. rewrite Hold by lia.
      by rewrite lookup_insert_ne by lia.
    + intros e He.
      destruct (_convert_to_indexed_element (filed self node depth))
        as [e0|] eqn:Hconv; [|by apply Hout].
      apply elem_of_cons in He as [->|He]; [|by apply Hout].
      exists (filed self node depth). split; [|done].
      apply _convert_to_indexed_element_fields in Hconv as (-> & _).
      exact Hhere.
    + intros idx n e Hle Hl Hconv.
      destruct (decide (idx = _element_counter self)) as [->|Hne].
      * rewrite Hhere in Hl. inversion Hl; subst n. rewrite Hconv. by left.
      * assert (He : e ∈ out) by (apply (Hnew idx n e); [lia|done|done]).
        destruct (_convert_to_indexed_element (filed self node depth));
          [by right | done].
Qed.

Lemma miss_run_sorted (fuel : nat) (self self' : ElementIndexer)
  (nodes : list AccessibilityNode) (out : list IndexedElement) :
  miss_run fuel self nodes self' out →
  Forall (λ e, _element_counter self ≤ Types.index e) out
  ∧ StronglySorted Z.lt (indices out).
Proof.
  induction 1 as [self|self node nodes self' out Hok Hrun IH
                 |self node nodes self' out depth Hok Hnone Hdepth Hrun IH].
  - split; constructor.
  - done.
  - destruct IH as [Hge Hsorted]. simpl in Hge.
    assert (Hge' : Forall (λ e, _element_counter self ≤ Types.index e) out)
      by (eapply Forall_impl; [exact Hge|]; simpl; intros; lia).
    destruct (_convert_to_indexed_element (filed self node depth))
      as [e|] eqn:Hconv; [|done].
    apply _convert_to_indexed_element_fields in Hconv as (Hidx & _).
    simpl in Hidx. split; [constructor; [lia|done]|].
    unfold indices. simpl. constructor; [done|].
    rewrite Forall_forall. intros i Hi.
    apply list_elem_of_fmap in Hi as (e' & -> & He').
    rewrite Forall_forall in Hge. specialize (Hge _ He'). lia.
Qed.

Lemma sorted_same_members (l1 l2 : list IndexedElement) :
  StronglySorted Z.lt (indices l1) → StronglySorted Z.lt (indices l2) →
  (∀ e, e ∈ l1 ↔ e ∈ l2) → l1 = l2.
Proof.
  revert l2. induction l1 as [|a l1 IH]; intros l2 H1 H2 Hmem.
  - destruct l2 as [|b l2]; [done|].
    assert (Hb : b ∈ ([] : list IndexedElement)) by (apply Hmem; by left).
    by apply elem_of_nil in Hb.
  - destruct l2 as [|b l2].
    { assert (Ha : a ∈ ([] : list IndexedElement)) by (apply Hmem; by left).
      by apply elem_of_nil in Ha. }
    unfold indices in H1, H2. simpl in H1, H2.
    apply StronglySorted_inv in H1 as [H1 Ha].
    apply StronglySorted_inv in H2 as [H2 Hb].
    rewrite Forall_forall in Ha, Hb.
    assert (Hlt1 : ∀ e, e ∈ l1 → Types.index a < Types.index e)
      by (intros e He; apply Ha, list_elem_of_fmap; by exists e).
    assert (Hlt2 : ∀ e, e ∈ l2 → Types.index b < Types.index e)
      by (intros e He; apply Hb, list_elem_of_fmap; by exists e).
    assert (Hab : a = b).
    { assert (Ha2 : a ∈ b :: l2) by (apply Hmem; by left).
      assert (Hb1 : b ∈ a :: l1) by (apply Hmem; by left).
      apply elem_of_cons in Ha2 as [?|Ha2]; [done|].
      apply elem_of_cons in Hb1 as [?|Hb1]; [done|].
      apply Hlt2 in Ha2. apply Hlt1 in Hb1. lia. }
    subst b. f_equal. apply IH; [done|done|].
    intros e. split; intros He.
    + assert (He2 : e ∈ a :: l2) by (apply Hmem; by right).
      apply elem_of_cons in He2 as [->|He2]; [|done].
      apply Hlt1 in He. lia.
    + assert (He1 : e ∈ a :: l1) by (apply Hmem; by right).
      apply elem_of_cons in He1 as [->|He1]; [|done].
      apply Hlt2 in He. lia.
Qed.

Lemma select_sorted (p : IndexedElement → bool) (out : list IndexedElement) :
  StronglySorted Z.lt (indices out) →
  StronglySorted Z.lt (indices (select p out)).
Proof.
  unfold select, indices. induction out as [|e out IH]; simpl; intros Hs;
    [constructor|].
  apply StronglySorted_inv in Hs as [Hs He].
  destruct (p e); [|by apply IH]. simpl. constructor; [by apply IH|].
  rewrite Forall_forall in He |- *. intros i Hi. apply He.
  apply list_elem_of_fmap in Hi as (x & -> & Hx).
  apply list_elem_of_fmap. exists x. split; [done|].
  apply list_elem_of_In, filter_In in Hx as [Hx _]. by apply list_elem_of_In.
Qed.

Lemma select_elem_of (p : IndexedElement → bool) (out : list IndexedElement)
  (e : IndexedElement) :
  e ∈ select p out ↔ e ∈ out ∧ p e = true.
Proof. unfold select. by rewrite !list_elem_of_In, filter_In. Qed.

Lemma miss_run_index_loop (fuel : nat) (self self' : ElementIndexer)
  (nodes : list AccessibilityNode) (out : list IndexedElement) :
  miss_run fuel self nodes self' out →
  index_loop fuel self nodes = Some (self', out).
Proof.
  induction 1 as [self|self node nodes self' out Hok Hrun IH
                 |self node nodes self' out depth Hok Hnone Hdepth Hrun IH];
    simpl.
  - done.
  - by rewrite (_index_single_node_excluded _ _ _ Hok), IH.
  - rewrite _index_single_node_unfold, Hok. simpl.
    assert (Hget : get_or_create self node = (missed self, _element_counter self)).
    { unfold get_or_create, _get_or_create_interactive_index,
        _get_or_create_element_index. rewrite Hnone. by destruct (String.eqb _ _). }
    rewrite Hget, Hdepth. fold (filed self node depth).
    destruct (_convert_to_indexed_element (filed self node depth));
      by rewrite IH.
Qed.

(** What a pass over distinct identifiers leaves in the node map. *)
Lemma index_elements_stored (md5 : string → string) (fuel : nat) (t : Q)
  (self self' : ElementIndexer) (nodes : list AccessibilityNode)
  (out : list IndexedElement) :
  index_elements md5 fuel t self nodes = Some (self', out) →
  distinct_ids self nodes →
  StronglySorted Z.lt (indices out)
  ∧ (∀ e, e ∈ out →
       ∃ n, _index_to_node self' !! Types.index e = Some n
            ∧ _convert_to_indexed_element n = Ok e)
  ∧ (∀ idx n e, _index_to_node self' !! idx = Some n →
       _convert_to_indexed_element n = Ok e → e ∈ out ∧ Types.index e = idx).
Proof.
  intros Hrun Hnd.
  destruct (index_elements_miss_run _ _ _ _ _ _ _ Hrun Hnd) as (self1 & Hmiss & ->).
  apply index_elements_loop in Hrun as (self1' & Hloop & Heq).
  destruct (index_loop_invariant nodes _ _ _ _ _
              (begin_pass_invariant md5 t self nodes nodes) (reflexivity _) Hloop)
    as ((_ & _ & Hix) & _).
  rewrite (miss_run_index_loop _ _ _ _ _ Hmiss) in Hloop.
  inversion Hloop; subst self1'. clear Hloop.
  destruct (miss_run_stored _ _ _ _ _ Hmiss) as (Hold & Hout & Hnew).
  { intros idx n. simpl. by rewrite lookup_empty. }
  destruct (miss_run_sorted _ _ _ _ _ Hmiss) as [_ Hsorted].
  split; [done|]. split; [exact Hout|].
  intros idx n e Hl Hconv. simpl in Hl.
  destruct (Hix _ _ Hl) as (Hidx & _ & Hrange & _). split.
  - apply (Hnew idx n e); [simpl; lia | done | done].
  - apply _convert_to_indexed_element_fields in Hconv as (-> & _). done.
Qed.

(** X10. Round trip. After a pass over a snapshot in which no two eligible
    nodes share an identifier, [get_element_by_index] finds every returned
    element under its own index, and finds nothing else. *)
Theorem X10_returned_elements_retrievable (md5 : string → string) (fuel : nat)
  (t : Q) (self self' : ElementIndexer) (nodes : list AccessibilityNode)
  (out : list IndexedElement)
  (Hrun : index_elements md5 fuel t self nodes = Some (self', out))
  (Hdistinct : distinct_ids self nodes) :
  (∀ e, e ∈ out → get_element_by_index self' (Types.index e) = Ok (Some e))
  ∧ (∀ i e, get_element_by_index self' i = Ok (Some e) →
       e ∈ out ∧ Types.index e = i).
Proof.
  destruct (index_elements_stored _ _ _ _ _ _ _ Hrun Hdistinct)
    as (_ & Hout & Hnew).
  split.
  - intros e He. destruct (Hout e He) as (n & Hl & Hconv).
    unfold get_element_by_index. rewrite Hl. cbv [mbind Res_bind].
    by rewrite Hconv.
  - intros i e. unfold get_element_by_index.
    destruct (_index_to_node self' !! i) as [n|] eqn:Hl; [|discriminate].
    cbv [mbind Res_bind].
    destruct (_convert_to_indexed_element n) as [e'|] eqn:Hconv; [|discriminate].
    intros [= <-]. by apply (Hnew i n).
Qed.

(** The three elements of the form. *)
Lemma X10_returned_elements_retrievable_witness :
  ∃ self' out,
    index_elements id 2 0 fresh_indexer form_snapshot = Some (self', out)
    ∧ Forall (λ e, get_element_by_index self' (Types.index e) = Ok (Some e)) out.
Proof.
  assert (H1 : ∃ self' out,
            index_elements id 2 0 fresh_indexer form_snapshot = Some (self', out))
    by (do 2 eexists; vm_compute; reflexivity).
  destruct H1 as (self' & out & H1). exists self', out. split; [exact H1|].
  assert (Hd : distinct_ids fresh_indexer form_snapshot).
  { unfold distinct_ids. vm_compute.
    repeat (constructor; [rewrite ?elem_of_cons, elem_of_nil; intuition discriminate|]).
    constructor. }
  rewrite Forall_forall.
  exact (proj1 (X10_returned_elements_retrievable id 2 0 _ _ _ _ H1 Hd)).
Defined.


(** ** Queries after a pass *)

Lemma has_role_spec (role : ElementRole) (e : IndexedElement) :
  has_role role e = true
  ↔ ElementRole_value (Types.role e) = ElementRole_value role.
Proof. unfold has_role. apply String.eqb_eq. Qed.

(** X8. After a pass over a snapshot in which no two eligible nodes share
    an identifier, the queries select from the list the pass returned, in
    its order: [get_elements_by_role] returns the returned elements of that
    role, for every role but [GENERIC], and never raises;
    [get_interactive_elements], when it returns, returns the returned
    elements flagged interactive. *)
Theorem X8_queries_select_from_pass (md5 : string → string) (fuel : nat) (t : Q)
  (self self' : ElementIndexer) (nodes : list AccessibilityNode)
  (out : list IndexedElement)
  (Hrun : index_elements md5 fuel t self nodes = Some (self', out))
  (Hdistinct : distinct_ids self nodes) :
  (∀ role, role ≠ GENERIC →
     get_elements_by_role self' role = Ok (select (has_role role) out))
  ∧ (∀ l, get_interactive_elements self' = Ok l →
       l = select Types.is_interactive out).
Proof.
  destruct (index_elements_stored _ _ _ _ _ _ _ Hrun Hdistinct)
    as (Hsorted & Hout & Hnew).
  split.
  - intros role Hrole.
    destruct (queries_after_pass _ _ _ _ _ _ _ role Hrun)
      as (_ & l & -> & Hl & Hmem).
    f_equal. apply sorted_same_members; [done | by apply select_sorted |].
    intros e. rewrite Hmem, select_elem_of, has_role_spec. split.
    + intros (n & Hn & Hr & Hconv).
      apply stored_nodes_lookup in Hn as [idx Hidx].
      destruct (Hnew _ _ _ Hidx Hconv) as [He _]. split; [done|].
      apply _convert_to_indexed_element_index in Hconv as (_ & _ & Hcase).
      rewrite Hr, ElementRole_value_nonempty in Hcase. by rewrite Hcase.
    + intros [He Hr]. destruct (Hout e He) as (n & Hl' & Hconv).
      exists n. split; [apply stored_nodes_lookup; by eexists|].
      split; [|done].
      apply _convert_to_indexed_element_index in Hconv as (_ & _ & Hcase).
      destruct (String.eqb (node_role (node n)) ""); [|congruence].
      rewrite Hcase in Hr. by destruct role.
  - intros l Hl.
    destruct (queries_after_pass _ _ _ _ _ _ _ GENERIC Hrun) as (Hint & _).
    destruct (Hint l Hl) as [Hls Hmem].
    apply sorted_same_members; [done | by apply select_sorted |].
    intros e. rewrite Hmem, select_elem_of. split.
    + intros (n & Hn & Hi & Hconv).
      apply stored_nodes_lookup in Hn as [idx Hidx].
      destruct (Hnew _ _ _ Hidx Hconv) as [He _]. split; [done|].
      apply _convert_to_indexed_element_fields in Hconv as (_ & -> & _). done.
    + intros [He Hi]. destruct (Hout e He) as (n & Hl' & Hconv).
      exists n. split; [apply stored_nodes_lookup; by eexists|].
      split; [|done].
      apply _convert_to_indexed_element_fields in Hconv as (_ & <- & _). done.
Qed.

(** The buttons of the form, and its interactive elements. *)
Lemma X8_queries_select_from_pass_witness :
  ∃ self' out,
    index_elements id 2 0 fresh_indexer form_snapshot = Some (self', out)
    ∧ get_elements_by_role self' BUTTON = Ok (select (has_role BUTTON) out).
Proof.
  assert (H1 : ∃ self' out,
            index_elements id 2 0 fresh_indexer form_snapshot = Some (self', out))
    by (do 2 eexists; vm_compute; reflexivity).
  destruct H1 as (self' & out & H1). exists self', out. split; [exact H1|].
  assert (Hd : distinct_ids fresh_indexer form_snapshot).
  { unfold distinct_ids. vm_compute.
    repeat (constructor; [rewrite ?elem_of_cons, elem_of_nil; intuition discriminate|]).
    constructor. }
  apply (proj1 (X8_queries_select_from_pass id 2 0 _ _ _ _ H1 Hd) BUTTON).
  discriminate.
Defined.

(** A property of stored nodes that every node filed by the loop has holds
    of the node map after the loop. *)
Lemma index_loop_stored_forall (Q : IndexedNode → Prop) (fuel : nat)
  (nodes : list AccessibilityNode) (self self' : ElementIndexer)
  (out : list IndexedElement) :
  (∀ s node idx depth, node ∈ nodes → Q (indexed_node_of s node idx depth)) →
  (∀ idx n, _index_to_node self !! idx = Some n → Q n) →
  index_loop fuel self nodes = Some (self', out) →
  ∀ idx n, _index_to_node self' !! idx = Some n → Q n.
Proof.
  revert self self' out.
  induction nodes as [|node nodes IH]; intros self self' out HQ Hself Hloop;
    simpl in Hloop.
  - by inversion Hloop; subst.
  - destruct (_index_single_node fuel self node) as [[self1 r]|] eqn:Hstep;
      [|discriminate].
    destruct (index_loop fuel self1 nodes) as [[self2 out2]|] eqn:Hrest;
      [|discriminate].
    inversion Hloop; subst self2 out.
    assert (HQ' : ∀ s x i d, x ∈ nodes → Q (indexed_node_of s x i d))
      by (intros s x i d Hx; apply HQ; by right).
    apply (IH self1 self' out2 HQ'); [|exact Hrest].
    destruct (_should_index_node self node) eqn:Hok.
    2:{ rewrite (_index_single_node_excluded _ _ _ Hok) in Hstep.
        by inversion Hstep; subst. }
    destruct (_index_single_node_eligible _ _ _ _ _ Hok Hstep)
      as (self0 & idx & depth & Hget & _ & -> & _).
    destruct (get_or_create_cases _ _ _ _ Hget) as (c & s & -> & _).
    intros idx' n'. simpl.
    destruct (decide (idx = idx')) as [<-|Hne].
    + rewrite lookup_insert_eq. intros [= <-]. apply HQ. by left.
    + rewrite lookup_insert_ne by done. apply Hself.
Qed.

(** What the interactive query returns after a pass over parser output. *)
Lemma interactive_query_of_parsed_page (P : Pydantic) (md5 : string → string)
  (fuel : nat) (t : Q) (config : AccessibilityConfig) (ax_tree_data : PyVal)
  (self self' : ElementIndexer) (out : list IndexedElement)
  (Hrun : index_elements md5 fuel t self
            (Parser.parse_accessibility_tree P config ax_tree_data)
          = Some (self', out)) :
  ∃ l, get_interactive_elements self' = Ok l
       ∧ StronglySorted Z.lt (indices l)
       ∧ Forall (λ e, Types.is_interactive e = true
                      ∧ ElementRole_value (Types.role e)
                        ∈ indexer_interactive_roles
                      ∧ Types.states e = []) l.
Proof.
  set (nodes := Parser.parse_accessibility_tree P config ax_tree_data) in *.
  pose proof (parse_accessibility_tree_category P config ax_tree_data) as Hcat.
  fold nodes in Hcat.
  destruct (index_elements_interactive_query _ _ _ _ _ _ _ Hcat Hrun) as [l Hl].
  destruct (queries_after_pass _ _ _ _ _ _ _ GENERIC Hrun) as (Hint & _).
  destruct (Hint l Hl) as [Hsorted Hmem].
  exists l. split; [done|]. split; [done|].
  apply index_elements_loop in Hrun as (self1 & Hloop & ->).
  assert (Hstored : ∀ idx n, _index_to_node self1 !! idx = Some n →
            is_interactive n = true →
            node_role (node n) ∈ indexer_interactive_roles).
  { apply (index_loop_stored_forall
             (λ n, is_interactive n = true →
                   node_role (node n) ∈ indexer_interactive_roles)
             fuel nodes (begin_pass md5 t self nodes) self1 out); [| |exact Hloop].
    - intros s x idx depth Hx. simpl. intros Hi.
      rewrite Forall_forall in Hcat. apply (Hcat x Hx).
      by apply String.eqb_eq.
    - intros idx n. simpl. by rewrite lookup_empty. }
  rewrite Forall_forall. intros e He.
  apply Hmem in He as (n & Hn & Hi & Hconv).
  apply stored_nodes_lookup in Hn as [idx Hidx]. simpl in Hidx.
  specialize (Hstored _ _ Hidx Hi).
  pose proof (_convert_to_indexed_element_states _ _ Hconv) as Hstates.
  apply _convert_to_indexed_element_index in Hconv as (_ & Hie & Hcase).
  split; [congruence|]. split; [|done].
  destruct (String.eqb (node_role (node n)) "") eqn:Hempty.
  - apply String.eqb_eq in Hempty. rewrite Hempty in Hstored.
    unfold indexer_interactive_roles in Hstored.
    repeat (apply elem_of_cons in Hstored as [?|Hstored]; [discriminate|]).
    by apply elem_of_nil in Hstored.
  - by rewrite Hcase.
Qed.

(** X9. From the page to the interactive query. After a pass over the
    nodes the parser returned for a raw tree, [get_interactive_elements]
    does not raise; it returns elements in strictly increasing index order,
    each flagged interactive and each of a role in the indexer's list of
    interactive roles. *)
Theorem X9_interactive_query_of_parsed_page (P : Pydantic) (md5 : string → string)
  (fuel : nat) (t : Q) (config : AccessibilityConfig) (ax_tree_data : PyVal)
  (self self' : ElementIndexer) (out : list IndexedElement)
  (Hrun : index_elements md5 fuel t self
            (Parser.parse_accessibility_tree P config ax_tree_data)
          = Some (self', out)) :
  ∃ l, get_interactive_elements self' = Ok l
       ∧ StronglySorted Z.lt (indices l)
       ∧ Forall (λ e, Types.is_interactive e = true
                      ∧ ElementRole_value (Types.role e)
                        ∈ indexer_interactive_roles) l.
Proof.
  destruct (interactive_query_of_parsed_page _ _ _ _ _ _ _ _ _ Hrun)
    as (l & Hl & Hsorted & Hall).
  exists l. split; [done|]. split; [done|].
  eapply Forall_impl; [exact Hall|]. simpl. tauto.
Qed.

(** The one-button page. *)
Lemma X9_interactive_query_of_parsed_page_witness :
  ∃ self' out l,
    index_elements id 1 0 fresh_indexer
      (Parser.parse_accessibility_tree decimal_numerals default_AccessibilityConfig
         AnalyzerSpec.one_button_tree) = Some (self', out)
    ∧ get_interactive_elements self' = Ok l
    ∧ Forall (λ e, Types.is_interactive e = true) l.
Proof.
  assert (H1 : ∃ self' out,
            index_elements id 1 0 fresh_indexer
              (Parser.parse_accessibility_tree decimal_numerals default_AccessibilityConfig
                 AnalyzerSpec.one_button_tree) = Some (self', out))
    by (do 2 eexists; vm_compute; reflexivity).
  destruct H1 as (self' & out & H1).
  destruct (X9_interactive_query_of_parsed_page decimal_numerals id 1 0 _ _ _ _ _ H1)
    as (l & Hl & _ & Hall).
  exists self', out, l. split; [exact H1|]. split; [exact Hl|].
  eapply Forall_impl; [exact Hall|]. simpl. tauto.
Defined.


(** ** Parent and children links *)

Lemma omap_none_list {A B} (f : A → option B) (l : list A) :
  (∀ x, x ∈ l → f x = None) → omap f l = [].
Proof.
  induction l as [|x l IH]; intros Hf; [done|]. simpl.
  rewrite (Hf x) by (by left). apply IH. intros y Hy. apply Hf. by right.
Qed.

Lemma index_loop_children (fuel : nat) (nodes : list AccessibilityNode)
  (self self' : ElementIndexer) (out : list IndexedElement) (seen : list Z) :
  (∀ id, is_Some (_node_id_to_index self !! id) → id ∈ seen) →
  (∀ l1 n l2, nodes = (l1 ++ n :: l2)%list →
     ∀ c, c ∈ children n → (c ∉ seen) ∧ (c ∉ map node_id l1)) →
  index_loop fuel self nodes = Some (self', out) →
  Forall (λ e, Types.children_indices e = []) out.
Proof.
  revert self self' out seen.
  induction nodes as [|node nodes IH]; intros self self' out seen Hseen Hfirst Hloop;
    simpl in Hloop.
  - inversion Hloop; subst. constructor.
  - destruct (_index_single_node fuel self node) as [[self1 r]|] eqn:Hstep;
      [|discriminate].
    destruct (index_loop fuel self1 nodes) as [[self2 out2]|] eqn:Hrest;
      [|discriminate].
    inversion Hloop; subst self2 out. clear Hloop.
    assert (Htail : ∀ l1 n l2, nodes = (l1 ++ n :: l2)%list →
              ∀ c, c ∈ children n →
                   (c ∉ node_id node :: seen) ∧ (c ∉ map node_id l1)).
    { intros l1 n l2 -> c Hc.
      destruct (Hfirst (node :: l1) n l2 eq_refl c Hc) as [Hs Hl1].
      simpl in Hl1. rewrite not_elem_of_cons in Hl1. destruct Hl1 as [Hne Hl1].
      split; [|done]. rewrite not_elem_of_cons. done. }
    destruct (_should_index_node self node) eqn:Hok.
    2:{ rewrite (_index_single_node_excluded _ _ _ Hok) in Hstep.
        inversion Hstep; subst self1 r.
        apply (IH self self' out2 (node_id node :: seen)); [|done|done].
        intros id' Hid. right. by apply Hseen. }
    destruct (_index_single_node_eligible _ _ _ _ _ Hok Hstep)
      as (self0 & idx & depth & Hget & _ & -> & ->).
    destruct (get_or_create_cases _ _ _ _ Hget) as (c & s & -> & _).
    assert (Hrest' : Forall (λ e, Types.children_indices e = []) out2).
    { eapply (IH _ self' out2 (node_id node :: seen)); [|exact Htail|exact Hrest].
      intros id'. simpl.
      destruct (decide (node_id node = id')) as [<-|Hne]; [by left|].
      rewrite lookup_insert_ne by done. intros Hid. right. by apply Hseen. }
    destruct (_convert_to_indexed_element _) as [e|] eqn:Hconv; [|done].
    constructor; [|done].
    apply _convert_to_indexed_element_fields in Hconv as (_ & _ & _ & -> & _).
    simpl. unfold _get_children_indices. simpl.
    apply omap_none_list. intros ch Hch.
    destruct (Hfirst [] node nodes eq_refl ch Hch) as [Hs _].
    destruct (_node_id_to_index self !! ch) eqn:Hl; [|done].
    exfalso. apply Hs, Hseen. by eexists.
Qed.

(** X11. When every node of the snapshot comes before its children, as in
    a tree listed from the root down, no element a pass returns has a child
    index: the children of a node are looked up when the node is filed, and
    none of them is filed yet. *)
Theorem X11_children_unknown_when_parents_first (md5 : string → string)
  (fuel : nat) (t : Q) (self self' : ElementIndexer)
  (nodes : list AccessibilityNode) (out : list IndexedElement)
  (Hrun : index_elements md5 fuel t self nodes = Some (self', out))
  (Hfirst : parents_first nodes) :
  Forall (λ e, Types.children_indices e = []) out.
Proof.
  apply index_elements_loop in Hrun as (self1 & Hloop & _).
  apply (index_loop_children fuel nodes (begin_pass md5 t self nodes) self1 out []);
    [| |exact Hloop].
  - intros id'. simpl. rewrite lookup_empty. by intros [? ?].
  - intros l1 n l2 Heq c Hc. split; [apply not_elem_of_nil|].
    by apply (Hfirst l1 n l2).
Qed.

(** The dialog of the form lists its two fields as children and gets
    none. *)
Lemma X11_children_unknown_when_parents_first_witness :
  ∃ self' out,
    index_elements id 2 0 fresh_indexer form_snapshot = Some (self', out)
    ∧ Forall (λ e, Types.children_indices e = []) out.
Proof.
  assert (H1 : ∃ self' out,
            index_elements id 2 0 fresh_indexer form_snapshot = Some (self', out))
    by (do 2 eexists; vm_compute; reflexivity).
  destruct H1 as (self' & out & H1). exists self', out. split; [exact H1|].
  apply (X11_children_unknown_when_parents_first id 2 0 _ _ _ _ H1).
  intros l1 n l2 Heq c Hc. unfold form_snapshot in Heq.
  destruct l1 as [|a l1]; simpl in Heq; [apply not_elem_of_nil|].
  inversion Heq; subst a. clear Heq.
  destruct l1 as [|a l1]; simpl in *.
  { inversion H2; subst n. by apply elem_of_nil in Hc. }
  inversion H2; subst a. clear H2.
  destruct l1 as [|a l1]; simpl in *.
  { inversion H3; subst n. by apply elem_of_nil in Hc. }
  inversion H3. by destruct l1.
Defined.

Lemma miss_run_links (fuel : nat) (self self' : ElementIndexer)
  (nodes : list AccessibilityNode) (out : list IndexedElement) :
  miss_run fuel self nodes self' out →
  0 ≤ _element_counter self →
  (∀ id idx, _node_id_to_index self !! id = Some idx →
     0 ≤ idx < _element_counter self
     ∧ ∃ n, _index_to_node self !! idx = Some n ∧ node_id (node n) = id) →
  (∀ idx n, _index_to_node self !! idx = Some n → idx < _element_counter self) →
  Forall (λ e, ∃ m, _index_to_node self' !! Types.index e = Some m
                    ∧ _convert_to_indexed_element m = Ok e
                    ∧ links_backward self' m e) out.
Proof.
  induction 1 as [self|self node nodes self' out Hok Hrun IH
                 |self node nodes self' out depth Hok Hnone Hdepth Hrun IH];
    intros Hcounter Hfiled Hbound.
  - constructor.
  - by apply IH.
  - assert (Hbound' : ∀ idx n,
              _index_to_node (store (missed self) (filed self node depth)) !! idx
              = Some n →
              idx < _element_counter (store (missed self) (filed self node depth))).
    { intros idx n. simpl.
      destruct (decide (_element_counter self = idx)) as [<-|Hne].
      - intros _. lia.
      - rewrite lookup_insert_ne by done. intros Hl. apply Hbound in Hl. lia. }
    destruct (miss_run_stored _ _ _ _ _ Hrun Hbound') as (Hold & _ & _).
    simpl in Hold.
    assert (Hkept : ∀ idx, idx < _element_counter self →
              _index_to_node self' !! idx = _index_to_node self !! idx).
    { intros idx Hlt. rewrite Hold by lia. by rewrite lookup_insert_ne by lia. }
    assert (Hhere : _index_to_node self' !! _element_counter self
                    = Some (filed self node depth)).
    { rewrite Hold by lia. by rewrite lookup_insert_eq. }
    assert (Hrest : Forall (λ e, ∃ m,
               _index_to_node self' !! Types.index e = Some m
               ∧ _convert_to_indexed_element m = Ok e
               ∧ links_backward self' m e) out).
    { apply IH; [simpl; lia| |exact Hbound'].
      intros id' idx'. simpl.
      destruct (decide (node_id node = id')) as [<-|Hne].
      - rewrite lookup_insert_eq. intros [= <-]. split; [lia|].
        exists (filed self node depth). by rewrite lookup_insert_eq.
      - rewrite lookup_insert_ne by done. intros Hl.
        destruct (Hfiled _ _ Hl) as (Hr & n & Hn & Hid). split; [lia|].
        exists n. by rewrite lookup_insert_ne by lia. }
    destruct (_convert_to_indexed_element (filed self node depth))
      as [e|] eqn:Hconv; [|done].
    constructor; [|done].
    exists (filed self node depth).
    pose proof Hconv as Hfields.
    apply _convert_to_indexed_element_fields in Hfields
      as (Hidx & _ & Hpar & Hkids & _).
    simpl in Hidx. rewrite Hidx. split; [exact Hhere|]. split; [exact Hconv|].
    unfold links_backward. rewrite Hidx, Hpar, Hkids. simpl. split.
    + intros pi. unfold _get_parent_index. simpl.
      destruct (parent_id node) as [p|]; [|discriminate]. intros Hl.
      destruct (Hfiled _ _ Hl) as (Hr & n & Hn & Hid). split; [exact Hr|].
      exists n. rewrite Hkept by lia. by rewrite Hid.
    + unfold _get_children_indices. simpl. rewrite Forall_forall.
      intros c Hc. apply list_elem_of_omap in Hc as (ch & Hch & Hl).
      destruct (Hfiled _ _ Hl) as (Hr & n & Hn & Hid). split; [exact Hr|].
      exists n. rewrite Hkept by lia. by rewrite Hid.
Qed.


(** X12. After a pass over a snapshot in which no two eligible nodes share
    an identifier, the links of a returned element point backward. The
    element is made from the node stored under its index. Its parent index,
    when it has one, is the index under which the node named by the parent
    identifier was filed earlier in the pass, and each of its child indices
    is the index under which a node named among the child identifiers was
    filed earlier in the pass; each is non-negative and smaller than the
    index of the element. A node filed under such an index need not have
    produced an element; when it has, that element is in the returned list
    with that index. *)
Theorem X12_links_point_backward (md5 : string → string) (fuel : nat) (t : Q)
  (self self' : ElementIndexer) (nodes : list AccessibilityNode)
  (out : list IndexedElement)
  (Hrun : index_elements md5 fuel t self nodes = Some (self', out))
  (Hdistinct : distinct_ids self nodes) :
  Forall (λ e, ∃ m, _index_to_node self' !! Types.index e = Some m
                    ∧ _convert_to_indexed_element m = Ok e
                    ∧ links_backward self' m e) out
  ∧ (∀ idx n e, _index_to_node self' !! idx = Some n →
       _convert_to_indexed_element n = Ok e → e ∈ out ∧ Types.index e = idx).
Proof.
  split; [|by apply (index_elements_stored md5 fuel t self self' nodes out)].
  destruct (index_elements_miss_run _ _ _ _ _ _ _ Hrun Hdistinct)
    as (self1 & Hmiss & ->).
  apply (miss_run_links _ _ _ _ _ Hmiss); [simpl; lia| |].
  - intros id' idx'. simpl. by rewrite lookup_empty.
  - intros idx n. simpl. by rewrite lookup_empty.
Qed.

(** The button of the page points to the root, which is stored under index
    0 and is not among the returned elements. *)
Lemma X12_links_point_backward_witness :
  ∃ self' e,
    index_elements id 2 0 fresh_indexer page_snapshot = Some (self', [e])
    ∧ Types.parent_index e = Some 0
    ∧ 0 < Types.index e
    ∧ ∃ n, _index_to_node self' !! 0 = Some n
           ∧ node_id (node n) = 1
           ∧ ∀ e', _convert_to_indexed_element n ≠ Ok e'.
Proof.
  assert (H1 : ∃ self' e,
            index_elements id 2 0 fresh_indexer page_snapshot = Some (self', [e])
            ∧ Types.parent_index e = Some 0)
    by (do 2 eexists; split; vm_compute; reflexivity).
  destruct H1 as (self' & e & H1 & Hpar). exists self', e.
  split; [exact H1|]. split; [exact Hpar|].
  assert (Hd : distinct_ids fresh_indexer page_snapshot).
  { unfold distinct_ids. vm_compute.
    repeat (constructor; [rewrite ?elem_of_cons, elem_of_nil; intuition discriminate|]).
    constructor. }
  destruct (X12_links_point_backward id 2 0 _ _ _ _ H1 Hd) as [Hlinks Hstored].
  apply Forall_cons in Hlinks as [(m & Hm & Hconv & Hup & _) _].
  destruct (Hup 0 Hpar) as (Hrange & n & Hn & Hparent).
  split; [lia|]. exists n. split; [exact Hn|].
  assert (Hone : ∀ x, x ∈ [e] → Types.index x ≠ 0).
  { intros x Hx. apply elem_of_cons in Hx as [->|Hx]; [lia|].
    by apply elem_of_nil in Hx. }
  assert (Hm1 : parent_id (node m) = Some 1).
  { apply _convert_to_indexed_element_fields in Hconv as (Hidx & _).
    assert (Hrun : ∃ m0, _index_to_node self' !! Types.index e = Some m0
                         ∧ parent_id (node m0) = Some 1).
    { vm_compute in H1. inversion H1; subst. eexists. split; vm_compute; reflexivity. }
    destruct Hrun as (m0 & Hm0 & Hp0). rewrite Hm in Hm0. by inversion Hm0; subst. }
  split; [congruence|].
  intros e' He'. destruct (Hstored 0 n e' Hn He') as [Hin Hidx].
  by apply (Hone e' Hin).
Defined.

(** ** Counters and statistics *)

Lemma eligible_config (self self' : ElementIndexer)
  (nodes : list AccessibilityNode) :
  config self' = config self → eligible self' nodes = eligible self nodes.
Proof.
  intros Hcfg. unfold eligible. apply filter_ext. intros x.
  by apply _should_index_node_config.
Qed.

(** What the loop leaves alone, and how it moves the two cache counters. *)
Lemma index_loop_requests (fuel : nat) (nodes : list AccessibilityNode)
  (self self' : ElementIndexer) (out : list IndexedElement) :
  index_loop fuel self nodes = Some (self', out) →
  _indexing_context self' = _indexing_context self
  ∧ cached_hits (_indexing_stats self') + cache_misses (_indexing_stats self')
    = cached_hits (_indexing_stats self) + cache_misses (_indexing_stats self)
      + Z.of_nat (length (eligible self nodes))
  ∧ cached_hits (_indexing_stats self) ≤ cached_hits (_indexing_stats self')
  ∧ cache_misses (_indexing_stats self) ≤ cache_misses (_indexing_stats self').
Proof.
  revert self self' out.
  induction nodes as [|node nodes IH]; intros self self' out Hloop;
    simpl in Hloop.
  - inversion Hloop; subst. simpl. repeat split; lia.
  - destruct (_index_single_node fuel self node) as [[self1 r]|] eqn:Hstep;
      [|discriminate].
    destruct (index_loop fuel self1 nodes) as [[self2 out2]|] eqn:Hrest;
      [|discriminate].
    inversion Hloop; subst self2 out. clear Hloop.
    destruct (IH _ _ _ Hrest) as (Hctx & Hsum & Hh & Hm).
    unfold eligible in *. simpl.
    destruct (_should_index_node self node) eqn:Hok.
    2:{ rewrite (_index_single_node_excluded _ _ _ Hok) in Hstep.
        by inversion Hstep; subst self1 r. }
    destruct (_index_single_node_eligible _ _ _ _ _ Hok Hstep)
      as (self0 & idx & depth & Hget & _ & -> & _).
    destruct (get_or_create_cases _ _ _ _ Hget) as (c & s & -> & Hcase).
    rewrite (filter_ext _ (_should_index_node self)) in Hsum
      by (intros x; by apply _should_index_node_config).
    simpl in *. split; [done|].
    destruct Hcase as [(_ & _ & ->)|(_ & -> & _)]; simpl in *; lia.
Qed.

Lemma miss_run_counters (fuel : nat) (self self' : ElementIndexer)
  (nodes : list AccessibilityNode) (out : list IndexedElement) :
  miss_run fuel self nodes self' out →
  cached_hits (_indexing_stats self') = cached_hits (_indexing_stats self)
  ∧ _element_counter self'
    = _element_counter self + Z.of_nat (length (eligible self nodes)).
Proof.
  induction 1 as [self|self node nodes self' out Hok Hrun IH
                 |self node nodes self' out depth Hok Hnone Hdepth Hrun IH];
    unfold eligible in *; simpl.
  - split; [done | lia].
  - by rewrite Hok.
  - rewrite Hok. destruct IH as [Hh Hc].
    rewrite (filter_ext _ (_should_index_node self)) in Hc
      by (intros x; by apply _should_index_node_config).
    simpl in *. split; [done | lia].
Qed.

(** X13. The cache counters of the indexer count requests within one pass.
    A pass adds one request for each eligible node; a request is a hit only
    when an earlier node of the same snapshot has the same identifier. Over
    a snapshot of distinct identifiers a pass adds no hit, hands out the
    indices 0 to k - 1 for its k eligible nodes, and leaves the cache
    efficiency at zero when there was no hit before. *)
Theorem X13_cache_counters (md5 : string → string) (fuel : nat) (t : Q)
  (self self' : ElementIndexer) (nodes : list AccessibilityNode)
  (out : list IndexedElement)
  (Hrun : index_elements md5 fuel t self nodes = Some (self', out)) :
  let k := Z.of_nat (length (eligible self nodes)) in
  let st := _indexing_stats self in
  let st' := _indexing_stats self' in
  cached_hits st' + cache_misses st' = cached_hits st + cache_misses st + k
  ∧ cached_hits st ≤ cached_hits st'
  ∧ cache_misses st ≤ cache_misses st'
  ∧ (distinct_ids self nodes →
     cached_hits st' = cached_hits st
     ∧ cache_misses st' = cache_misses st + k
     ∧ _element_counter self' = k
     ∧ (cached_hits st = 0 → (get_cache_efficiency self' == 0)%Q)).
Proof.
  intros k st st'.
  pose proof Hrun as Hrun'.
  apply index_elements_loop in Hrun' as (self1 & Hloop & Heq).
  destruct (index_loop_requests _ _ _ _ _ Hloop) as (_ & Hsum & Hh & Hm).
  rewrite (eligible_config self) in Hsum by done.
  assert (Hst : cached_hits st' = cached_hits (_indexing_stats self1)
                ∧ cache_misses st' = cache_misses (_indexing_stats self1)
                ∧ _element_counter self' = _element_counter self1)
    by (subst st' self'; done).
  destruct Hst as (Hh' & Hm' & Hc').
  simpl in Hsum, Hh, Hm. fold st in Hsum, Hh, Hm. fold k in Hsum.
  split; [lia|]. split; [lia|]. split; [lia|].
  intros Hdistinct.
  destruct (index_elements_miss_run _ _ _ _ _ _ _ Hrun Hdistinct)
    as (self1' & Hmiss & _).
  rewrite (miss_run_index_loop _ _ _ _ _ Hmiss) in Hloop.
  inversion Hloop; subst self1'.
  destruct (miss_run_counters _ _ _ _ _ Hmiss) as [Hhits Hcount].
  rewrite (eligible_config self) in Hcount by done.
  simpl in Hhits, Hcount. fold st in Hhits. fold k in Hcount.
  split; [lia|]. split; [lia|]. split; [lia|].
  intros Hzero. unfold get_cache_efficiency. fold st'.
  destruct (cached_hits st' + cache_misses st' =? 0); [reflexivity|].
  replace (cached_hits st') with 0 by lia.
  unfold Qeq, Qdiv, Qmult. simpl. lia.
Qed.

(** The form: three requests, three misses. *)
Lemma X13_cache_counters_witness :
  ∃ self' out,
    index_elements id 2 0 fresh_indexer form_snapshot = Some (self', out)
    ∧ cached_hits (_indexing_stats self') = 0
    ∧ cache_misses (_indexing_stats self') = 3
    ∧ (get_cache_efficiency self' == 0)%Q.
Proof.
  assert (H1 : ∃ self' out,
            index_elements id 2 0 fresh_indexer form_snapshot = Some (self', out))
    by (do 2 eexists; vm_compute; reflexivity).
  destruct H1 as (self' & out & H1). exists self', out. split; [exact H1|].
  assert (Hd : distinct_ids fresh_indexer form_snapshot).
  { unfold distinct_ids. vm_compute.
    repeat (constructor; [rewrite ?elem_of_cons, elem_of_nil; intuition discriminate|]).
    constructor. }
  destruct (X13_cache_counters id 2 0 _ _ _ _ H1) as (_ & _ & _ & Hdist).
  destruct (Hdist Hd) as (Hh & Hm & _ & Heff).
  split; [exact Hh|]. split; [exact Hm|]. by apply Heff.
Defined.


Lemma filter_map_snd_length {K A} (p : A → bool) (l : list (K * A)) :
  length (List.filter p (map snd l))
  = length (List.filter (λ kv : K * A, p (snd kv)) l).
Proof.
  induction l as [|[k a] l IH]; [done|]. simpl.
  destruct (p a); simpl; by rewrite IH.
Qed.

Lemma get_interactive_elements_length (self : ElementIndexer)
  (l : list IndexedElement) :
  get_interactive_elements self = Ok l →
  Z.of_nat (length l) = count_interactive (_index_to_node self).
Proof.
  unfold get_interactive_elements, count_interactive. cbv [mbind Res_bind].
  destruct (mapM _ _) as [l0|] eqn:Hmap; [|discriminate].
  intros [= <-]. f_equal. unfold sorted_by_index.
  rewrite (Permutation_length (merge_sort_Permutation index_le l0)).
  apply mapM_Ok_Forall2, Forall2_length in Hmap. rewrite <- Hmap.
  unfold stored_nodes. apply filter_map_snd_length.
Qed.

(** X14. The statistics report after a pass. [total_indexed] is the number
    of elements the pass returned, [interactive_indexed] the number of
    elements the interactive query returns, [timestamp] the clock reading at
    the start of the pass; [new_elements] and [removed_elements] are zero
    after every pass, whatever the snapshot and whatever came before. *)
Theorem X14_indexing_stats_report (md5 : string → string) (fuel : nat) (t : Q)
  (self self' : ElementIndexer) (nodes : list AccessibilityNode)
  (out : list IndexedElement)
  (Hrun : index_elements md5 fuel t self nodes = Some (self', out)) :
  get_indexing_stats self' !! "total_indexed"
  = Some (SInt (Z.of_nat (length out)))
  ∧ get_indexing_stats self' !! "timestamp" = Some (SFloat t)
  ∧ get_indexing_stats self' !! "new_elements" = Some (SInt 0)
  ∧ get_indexing_stats self' !! "removed_elements" = Some (SInt 0)
  ∧ (∀ l, get_interactive_elements self' = Ok l →
       get_indexing_stats self' !! "interactive_indexed"
       = Some (SInt (Z.of_nat (length l)))).
Proof.
  apply index_elements_loop in Hrun as (self1 & Hloop & ->).
  destruct (index_loop_requests _ _ _ _ _ Hloop) as (Hctx & _).
  simpl in Hctx.
  unfold get_indexing_stats, _save_current_indices, _update_indexing_stats.
  simpl. rewrite Hctx. simpl.
  split; [by repeat (rewrite lookup_insert_ne by done); rewrite lookup_insert_eq|].
  split; [by repeat (rewrite lookup_insert_ne by done); rewrite lookup_insert_eq|].
  split; [by repeat (rewrite lookup_insert_ne by done); rewrite lookup_insert_eq|].
  split; [by rewrite lookup_insert_eq|].
  intros l Hl. apply get_interactive_elements_length in Hl. simpl in Hl.
  repeat (rewrite lookup_insert_ne by done). rewrite lookup_insert_eq.
  by rewrite Hl.
Qed.

(** The report for the form. *)
Lemma X14_indexing_stats_report_witness :
  ∃ self' out,
    index_elements id 2 0 fresh_indexer form_snapshot = Some (self', out)
    ∧ get_indexing_stats self' !! "total_indexed" = Some (SInt 3)
    ∧ get_indexing_stats self' !! "new_elements" = Some (SInt 0).
Proof.
  assert (H1 : ∃ self' out,
            index_elements id 2 0 fresh_indexer form_snapshot = Some (self', out)
            ∧ length out = 3%nat)
    by (do 2 eexists; split; vm_compute; reflexivity).
  destruct H1 as (self' & out & H1 & Hlen). exists self', out.
  split; [exact H1|].
  destruct (X14_indexing_stats_report id 2 0 _ _ _ _ H1) as (Htot & _ & Hnew & _).
  rewrite Hlen in Htot. split; [exact Htot | exact Hnew].
Defined.

(** ** The identifier map after a pass *)

Lemma index_loop_filed (fuel : nat) (nodes : list AccessibilityNode)
  (self self' : ElementIndexer) (out : list IndexedElement) :
  index_loop fuel self nodes = Some (self', out) →
  ∀ id, is_Some (_node_id_to_index self' !! id)
        ↔ is_Some (_node_id_to_index self !! id)
          ∨ id ∈ map node_id (eligible self nodes).
Proof.
  revert self self' out.
  induction nodes as [|node nodes IH]; intros self self' out Hloop id';
    simpl in Hloop.
  - inversion Hloop; subst. simpl. rewrite elem_of_nil. tauto.
  - destruct (_index_single_node fuel self node) as [[self1 r]|] eqn:Hstep;
      [|discriminate].
    destruct (index_loop fuel self1 nodes) as [[self2 out2]|] eqn:Hrest;
      [|discriminate].
    inversion Hloop; subst self2 out. clear Hloop.
    rewrite (IH _ _ _ Hrest). unfold eligible. simpl.
    destruct (_should_index_node self node) eqn:Hok.
    2:{ rewrite (_index_single_node_excluded _ _ _ Hok) in Hstep.
        by inversion Hstep; subst self1 r. }
    destruct (_index_single_node_eligible _ _ _ _ _ Hok Hstep)
      as (self0 & idx & depth & Hget & _ & -> & _).
    destruct (get_or_create_cases _ _ _ _ Hget) as (c & s & -> & _).
    rewrite (filter_ext _ (_should_index_node self))
      by (intros x; by apply _should_index_node_config).
    simpl. rewrite elem_of_cons.
    destruct (decide (node_id node = id')) as [<-|Hne].
    + rewrite lookup_insert_eq. split; [intros _; right; by left|].
      intros _. left. by eexists.
    + rewrite lookup_insert_ne by done. split; [tauto|].
      intros [?|[?|?]]; [tauto | congruence | tauto].
Qed.

(** X16. After a pass the identifier map holds exactly the identifiers of
    the eligible nodes of that snapshot: nothing filed by an earlier pass
    survives. The maps kept for the next pass are copies of the current
    ones, so no eligible node of the snapshot counts as new afterwards. *)
Theorem X16_filed_identifiers (md5 : string → string) (fuel : nat) (t : Q)
  (self self' : ElementIndexer) (nodes : list AccessibilityNode)
  (out : list IndexedElement)
  (Hrun : index_elements md5 fuel t self nodes = Some (self', out)) :
  (∀ id, is_Some (_node_id_to_index self' !! id)
         ↔ id ∈ map node_id (eligible self nodes))
  ∧ _previous_indices self' = _node_id_to_index self'
  ∧ _previous_xpaths self' = _xpath_to_index self'
  ∧ (∀ n, n ∈ eligible self nodes → _is_node_new self' n = false).
Proof.
  apply index_elements_loop in Hrun as (self1 & Hloop & ->).
  assert (Hfiled : ∀ id, is_Some (_node_id_to_index self1 !! id)
                         ↔ id ∈ map node_id (eligible self nodes)).
  { intros id'. rewrite (index_loop_filed _ _ _ _ _ Hloop).
    rewrite (eligible_config self) by done. simpl. rewrite lookup_empty.
    split; [intros [[? ?]|?]; [discriminate | done] | by right]. }
  split; [exact Hfiled|]. split; [done|]. split; [done|].
  intros n Hn. unfold _is_node_new. simpl.
  rewrite bool_decide_eq_true_2; [done|].
  apply Hfiled. apply list_elem_of_fmap. by exists n.
Qed.

(** The form leaves the identifiers 1, 2 and 3. *)
Lemma X16_filed_identifiers_witness :
  ∃ self' out,
    index_elements id 2 0 fresh_indexer form_snapshot = Some (self', out)
    ∧ is_Some (_node_id_to_index self' !! 3)
    ∧ ¬ is_Some (_node_id_to_index self' !! 4).
Proof.
  assert (H1 : ∃ self' out,
            index_elements id 2 0 fresh_indexer form_snapshot = Some (self', out))
    by (do 2 eexists; vm_compute; reflexivity).
  destruct H1 as (self' & out & H1). exists self', out. split; [exact H1|].
  destruct (X16_filed_identifiers id 2 0 _ _ _ _ H1) as (Hfiled & _).
  assert (Hel : map node_id (eligible fresh_indexer form_snapshot) = [1; 2; 3])
    by (vm_compute; reflexivity).
  rewrite Hel in Hfiled. split.
  - apply Hfiled. rewrite !elem_of_cons. tauto.
  - rewrite Hfiled, !elem_of_cons, elem_of_nil. intuition discriminate.
Defined.


(** ** Attributes *)

Lemma _extract_attributes_state (node : AccessibilityNode) (k : string) :
  k ∉ ["role"; "name"; "value"] →
  _extract_attributes node !! k
  = state node !! k
    ≫= (λ v, if is_True v then Some "true"
             else if is_False v then Some "false" else None).
Proof.
  rewrite !not_elem_of_cons. intros (Hr & Hn & Hv & _).
  unfold _extract_attributes, set_if.
  destruct (opt_str_truthy (value node));
    [rewrite lookup_insert_ne by done|];
    (destruct (negb (String.eqb (name node) ""));
       [rewrite lookup_insert_ne by done|]);
    (destruct (negb (String.eqb (node_role node) ""));
       [rewrite lookup_insert_ne by done|]);
    apply lookup_omap.
Qed.

Lemma _extract_attributes_role_name (node : AccessibilityNode) :
  (node_role node ≠ "" → _extract_attributes node !! "role" = Some (node_role node))
  ∧ (name node ≠ "" → _extract_attributes node !! "name" = Some (name node)).
Proof.
  unfold _extract_attributes, set_if. split; intros Hne;
    apply String.eqb_neq in Hne; rewrite ?Hne; simpl.
  - destruct (opt_str_truthy (value node));
      [rewrite lookup_insert_ne by done|];
      (destruct (negb (String.eqb (name node) ""));
         [rewrite lookup_insert_ne by done|]);
      by rewrite lookup_insert_eq.
  - destruct (opt_str_truthy (value node));
      [rewrite lookup_insert_ne by done|];
      by rewrite lookup_insert_eq.
Qed.

(** X15. The states of a node reach its element as attributes, not as
    states. For a node the parser returned and an element made from it,
    every state label of the node is an attribute with the text "true"; the
    role and the name, when not empty, are the attributes "role" and "name";
    and the element has no attribute besides the state labels and the three
    keys "role", "name" and "value". *)
Theorem X15_states_exposed_as_attributes (P : Pydantic) (config : AccessibilityConfig)
  (ax_tree_data : PyVal) (a : AccessibilityNode) (e : IndexedElement)
  (Hin : a ∈ Parser.parse_accessibility_tree P config ax_tree_data)
  (Hmade : element_of a e) :
  (∀ label, is_Some (state a !! label) →
     Types.attributes e !! label = Some "true")
  ∧ (node_role a ≠ "" → Types.attributes e !! "role" = Some (node_role a))
  ∧ (name a ≠ "" → Types.attributes e !! "name" = Some (name a))
  ∧ (∀ k, is_Some (Types.attributes e !! k) →
       is_Some (state a !! k) ∨ k ∈ ["role"; "name"; "value"]).
Proof.
  destruct Hmade as (s & idx & depth & Hconv).
  apply _convert_to_indexed_element_fields in Hconv as (_ & _ & _ & _ & -> & _).
  simpl.
  pose proof (ParserProps.parse_accessibility_tree_state_values _ _ _ _ Hin)
    as Hvalues.
  destruct (_extract_attributes_role_name a) as [Hrole Hname].
  split; [|split; [exact Hrole|split; [exact Hname|]]].
  - intros label [v Hv]. destruct (Hvalues _ _ Hv) as [-> Hvoc].
    rewrite _extract_attributes_state; [by rewrite Hv|].
    intros Hk. unfold Parser.important_states in Hvoc.
    rewrite !elem_of_cons, elem_of_nil in Hk.
    destruct Hk as [->|[->|[->|[]]]];
      repeat (apply elem_of_cons in Hvoc as [?|Hvoc]; [discriminate|]);
      by apply elem_of_nil in Hvoc.
  - intros k Hk.
    destruct (decide (k ∈ ["role"; "name"; "value"])) as [?|Hout]; [by right|].
    left. rewrite (_extract_attributes_state a k Hout) in Hk.
    destruct (state a !! k); [by eexists|]. by destruct Hk.
Qed.

(** The button of the one-button page carries its visibility as an
    attribute. *)
Lemma X15_states_exposed_as_attributes_witness :
  ∃ a e,
    a ∈ Parser.parse_accessibility_tree decimal_numerals default_AccessibilityConfig
          AnalyzerSpec.one_button_tree
    ∧ element_of a e
    ∧ Types.attributes e !! "visible" = Some "true".
Proof.
  assert (Ha : ∃ a e,
            Parser.parse_accessibility_tree decimal_numerals default_AccessibilityConfig
              AnalyzerSpec.one_button_tree = [a]
            ∧ _convert_to_indexed_element (indexed_node_of fresh_indexer a 0 0)
              = Ok e
            ∧ state a !! "visible" = Some (PBool true)).
  { do 2 eexists. split; [|split]; vm_compute; reflexivity. }
  destruct Ha as (a & e & Ha & He & Hv). exists a, e.
  assert (Hin : a ∈ Parser.parse_accessibility_tree decimal_numerals default_AccessibilityConfig
                      AnalyzerSpec.one_button_tree)
    by (rewrite Ha; apply list_elem_of_here).
  assert (Hmade : element_of a e) by (by exists fresh_indexer, 0, 0).
  split; [exact Hin|]. split; [exact Hmade|].
  destruct (X15_states_exposed_as_attributes decimal_numerals _ _ _ _ Hin Hmade) as (Hstates & _).
  apply Hstates. by eexists.
Defined.

End IndexerProps.

(* ===================================================================== *)
(** * Further properties of the analyzer *)
(* ===================================================================== *)

Module AnalyzerProps.
Import Analyzer AnalyzerSpec AnalyzerFacts.

(** The three ways a call of [analyze_page] ends: served from the cache,
    failed after a miss, completed after a miss. *)
Lemma analyze_page_cases (P : Pydantic) (md5 : string → string) (fuel : nat) (w : World)
  (self self' : DOMAnalyzer) (target : string) (force_refresh : bool)
  (r : Res PageAnalysisResult) :
  analyze_page md5 P fuel w self target force_refresh = Some (self', r) →
  (negb force_refresh && _should_use_cached_result self (t_check w) target = true
   ∧ self' = bump_cache_hits self
   ∧ r = match _analysis_cache self !! target with
         | Some cached_result => Ok cached_result
         | None => Raise KeyError
         end)
  ∨ (negb force_refresh && _should_use_cached_result self (t_check w) target
     = false
     ∧ (∃ e, r = Raise e)
     ∧ _analysis_cache self' = _analysis_cache self
     ∧ _last_analysis_time self' = _last_analysis_time self
     ∧ _analysis_stats self' = _analysis_stats (bump_cache_misses self)
     ∧ config self' = config self)
  ∨ (negb force_refresh && _should_use_cached_result self (t_check w) target
     = false
     ∧ ∃ tree ix elems inter result,
         get_accessibility_tree w = Ok tree
         ∧ Indexer.index_elements md5 fuel (t_index w) (element_indexer self)
             (Parser.parse_accessibility_tree P (accessibility (config self)) tree)
           = Some (ix, elems)
         ∧ Indexer.get_interactive_elements ix = Ok inter
         ∧ r = Ok result
         ∧ target_id result = target
         ∧ timestamp result = t_start w
         ∧ indexed_elements result = elems
         ∧ interactive_elements result = inter
         ∧ total_elements result = Z.of_nat (length elems)
         ∧ interactive_count result = Z.of_nat (length inter)
         ∧ self' = _update_analysis_stats
                     (save_result
                        (with_indexer (with_connected (bump_cache_misses self)) ix)
                        target result (t_start w))
                     (t_end w - t_start w)%Q).
Proof.
  unfold analyze_page.
  destruct (negb force_refresh && _) eqn:Huse.
  { intros Hrun. left. split; [done|].
    change (_analysis_cache (bump_cache_hits self)) with (_analysis_cache self)
      in Hrun.
    destruct (_analysis_cache self !! target); by inversion Hrun. }
  intros Hrun. right.
  destruct (if cdp_connected (bump_cache_misses self) then Ok tt
            else ensure_cdp_connection w);
    [|left; inversion Hrun; subst; split; [done|]; split; [by eexists|done]].
  destruct (get_page_info w) as [[page_url page_title]|];
    [|left; inversion Hrun; subst; split; [done|]; split; [by eexists|done]].
  destruct (get_accessibility_tree w) as [tree|];
    [|left; inversion Hrun; subst; split; [done|]; split; [by eexists|done]].
  destruct (Indexer.index_elements _ _ _ _ _) as [[ix elems]|] eqn:Hix;
    [|discriminate].
  destruct (Indexer.get_interactive_elements ix) as [inter|] eqn:Hinter;
    [|left; inversion Hrun; subst; split; [done|]; split; [by eexists|done]].
  right. split; [done|]. inversion Hrun; subst self' r. clear Hrun.
  exists tree, ix, elems, inter. eexists.
  split; [done|]. split; [exact Hix|]. split; [done|]. split; [reflexivity|].
  simpl. by repeat split.
Qed.

Lemma _should_use_cached_result_stored (self : DOMAnalyzer) (now : Q)
  (target : string) :
  _should_use_cached_result self now target = true →
  is_Some (_analysis_cache self !! target).
Proof.
  unfold _should_use_cached_result.
  destruct (_analysis_cache self !! target); [by eexists | discriminate].
Qed.

(** A completed analysis returns a well-formed result. *)
Lemma completed_result_wellformed (P : Pydantic) (md5 : string → string) (fuel : nat) (t : Q)
  (config : AccessibilityConfig) (tree : PyVal)
  (ix0 ix : Indexer.ElementIndexer) (elems inter : list IndexedElement)
  (target : string) (result : PageAnalysisResult) :
  Indexer.index_elements md5 fuel t ix0
    (Parser.parse_accessibility_tree P config tree) = Some (ix, elems) →
  Indexer.get_interactive_elements ix = Ok inter →
  target_id result = target →
  indexed_elements result = elems →
  interactive_elements result = inter →
  total_elements result = Z.of_nat (length elems) →
  interactive_count result = Z.of_nat (length inter) →
  result_wellformed target result.
Proof.
  intros Hix Hinter Htarget Helems Hint Htotal Hcount.
  destruct (IndexerProps.interactive_query_of_parsed_page _ _ _ _ _ _ _ _ _ Hix)
    as (l & Hl & Hsorted & Hall).
  rewrite Hinter in Hl. inversion Hl; subst l.
  unfold result_wellformed. rewrite Helems, Hint. by repeat split.
Qed.

Lemma analyze_page_invariant (P : Pydantic) (md5 : string → string) (fuel : nat) (w : World)
  (self self' : DOMAnalyzer) (target : string) (force_refresh : bool)
  (r : Res PageAnalysisResult) :
  analyzer_invariant self →
  analyze_page md5 P fuel w self target force_refresh = Some (self', r) →
  analyzer_invariant self'
  ∧ ∀ result, r = Ok result →
      result_wellformed target result
      ∧ _analysis_cache self' !! target = Some result.
Proof.
  intros (Hcons & Hwf & Hhits & Htotal & Hfirst) Hrun.
  pose proof (analyze_page_consistent _ _ _ _ _ _ _ _ _ Hcons Hrun) as Hcons'.
  destruct (analyze_page_cases _ _ _ _ _ _ _ _ _ Hrun)
    as [(Huse & -> & ->)
       |[(Huse & [e ->] & Hcache & Htime & Hstats & _)
        |(Huse & tree & ix & elems & inter & result & Htree & Hix & Hinter & ->
          & Htarget & Hstamp & Helems & Hint & Htot & Hcnt & ->)]].
  - apply andb_true_iff in Huse as [_ Huse].
    pose proof (_should_use_cached_result_stored _ _ _ Huse) as [c Hc].
    split.
    + split; [done|]. split; [exact Hwf|]. simpl.
      assert (0 < total_analyses (_analysis_stats self))
        by (apply Hfirst; right; exists target; by eexists).
      split; [lia|]. split; [lia|]. intros _. lia.
    + intros result. rewrite Hc. intros [= <-]. split; [by apply Hwf | done].
  - split; [|intros result; discriminate].
    split; [done|]. split; [by rewrite Hcache|]. rewrite Hstats. simpl.
    split; [lia|]. split; [lia|].
    intros Hor. apply Hfirst. by rewrite Hcache in Hor.
  - assert (Hres : result_wellformed target result)
      by (eapply completed_result_wellformed; eauto).
    split.
    + split; [done|]. split.
      { intros k r. simpl.
        destruct (decide (target = k)) as [<-|Hne].
        - rewrite lookup_insert_eq. by intros [= <-].
        - rewrite lookup_insert_ne by done. apply Hwf. }
      simpl. split; [lia|]. split; [lia|]. intros _. lia.
    + intros result' [= <-]. split; [done|]. simpl. by rewrite lookup_insert_eq.
Qed.

Lemma clear_cache_invariant (self : DOMAnalyzer) (target : option string) :
  analyzer_invariant self → analyzer_invariant (clear_cache self target).
Proof.
  intros (Hcons & Hwf & Hhits & Htotal & Hfirst).
  split; [by apply clear_cache_consistent|].
  unfold clear_cache. destruct (Indexer.opt_str_truthy target) as [t|]; simpl.
  - split.
    { intros k r Hk. apply lookup_delete_Some in Hk as [_ Hk]. by apply Hwf. }
    split; [done|]. split; [done|].
    intros [?|[k [r Hk]]]; apply Hfirst; [by left|right].
    apply lookup_delete_Some in Hk as [_ Hk]. exists k. by eexists.
  - split; [intros k r; by rewrite lookup_empty|].
    split; [done|]. split; [done|].
    intros [?|[k [r Hk]]]; [apply Hfirst; by left|].
    by rewrite lookup_empty in Hk.
Qed.

Lemma __init___invariant (config : DOMAnalyzerConfig) :
  analyzer_invariant (__init__ config).
Proof.
  split; [apply __init___consistent|]. simpl.
  split; [intros k r; by rewrite lookup_empty|].
  split; [done|]. split; [done|].
  intros [?|[k [r Hk]]]; [lia|]. by rewrite lookup_empty in Hk.
Qed.

Lemma reachable_invariant (P : Pydantic) (md5 : string → string) (self : DOMAnalyzer) :
  reachable md5 P self → analyzer_invariant self.
Proof.
  induction 1 as [config|self self' fuel w target force r _ IH Hrun
                 |self target _ IH].
  - apply __init___invariant.
  - by destruct (analyze_page_invariant _ _ _ _ _ _ _ _ _ IH Hrun).
  - by apply clear_cache_invariant.
Qed.

(** X17. The invariant of the analyzer. In every analyzer reached from a
    new one by calls of [analyze_page] and [clear_cache], the result table
    and the time table have the same keys and each time is the time stamp of
    its result; every cached result is filed under its own target, reports
    the lengths of its element lists as its counts, and lists its interactive
    elements in strictly increasing index order, each flagged interactive and
    of an interactive role; the completed analyses are among the misses; and
    there is no hit and no cached result before the first completed
    analysis. *)
Theorem X17_analyzer_invariant (P : Pydantic) (md5 : string → string) (self : DOMAnalyzer)
  (Hreach : reachable md5 P self) :
  analyzer_invariant self.
Proof.
  induction Hreach as [config|self self' fuel w target force r _ IH Hrun
                      |self target _ IH].
  - apply __init___invariant.
  - by destruct (analyze_page_invariant _ _ _ _ _ _ _ _ _ IH Hrun).
  - by apply clear_cache_invariant.
Qed.

(** An analysis of the three-node page, a second call served from the
    cache, then a full clear. *)
Lemma X17_analyzer_invariant_witness :
  ∃ self1 r1 self2 r2,
    analyze_page id decimal_numerals 1 (three_node_world 0) (__init__ DEFAULT_CONFIG) "tab-1" false
    = Some (self1, r1)
    ∧ analyze_page id decimal_numerals 1 (three_node_world 5) self1 "tab-1" false
      = Some (self2, r2)
    ∧ analyzer_invariant (clear_cache self2 None).
Proof.
  assert (H1 : ∃ self1 r1,
            analyze_page id decimal_numerals 1 (three_node_world 0) (__init__ DEFAULT_CONFIG)
              "tab-1" false = Some (self1, r1))
    by (do 2 eexists; vm_compute; reflexivity).
  destruct H1 as (self1 & r1 & H1).
  assert (H2 : ∃ self2 r2,
            analyze_page id decimal_numerals 1 (three_node_world 5) self1 "tab-1" false
            = Some (self2, r2)).
  { vm_compute in H1. inversion H1; subst self1.
    do 2 eexists. vm_compute. reflexivity. }
  destruct H2 as (self2 & r2 & H2).
  exists self1, r1, self2, r2. split; [exact H1|]. split; [exact H2|].
  apply (X17_analyzer_invariant decimal_numerals id).
  apply reachable_clear.
  apply (reachable_analyze id decimal_numerals self1 self2 1 (three_node_world 5) "tab-1" false r2);
    [|exact H2].
  apply (reachable_analyze id decimal_numerals (__init__ DEFAULT_CONFIG) self1 1
           (three_node_world 0) "tab-1" false r1); [|exact H1].
  apply reachable_init.
Defined.


(** ** Statistics of the analyzer *)

Lemma py_truediv_inject_Z (a : Q) (z : Z) :
  z ≠ 0 → py_truediv a (inject_Z z) = Some (a / inject_Z z)%Q.
Proof.
  intros Hz. unfold py_truediv.
  destruct (Qeq_bool (inject_Z z) 0) eqn:Heq; [|done].
  apply Qeq_bool_eq in Heq. unfold Qeq in Heq. simpl in Heq. lia.
Qed.

Lemma Qdiv_inject_Z_bounds (h d : Z) :
  0 ≤ h ≤ d → 0 < d →
  (0 <= inject_Z h / inject_Z d)%Q ∧ (inject_Z h / inject_Z d <= 1)%Q.
Proof.
  intros Hh Hd. destruct d as [|p|p]; try lia.
  unfold Qdiv, Qinv, Qmult, Qle. simpl. lia.
Qed.

(** X18. In every analyzer reached from a new one by calls of
    [analyze_page] and [clear_cache], [get_analysis_stats] returns: neither
    of its two divisions is by zero. The hit rate it reports lies between 0
    and 1 and is the share of the hits among all cache decisions taken so
    far, zero when none was taken. *)
Theorem X18_analysis_stats_report (P : Pydantic) (md5 : string → string) (self : DOMAnalyzer)
  (Hreach : reachable md5 P self) :
  let hits := cache_hits (_analysis_stats self) in
  let requests := hits + cache_misses (_analysis_stats self) in
  ∃ report,
    get_analysis_stats self = Some report
    ∧ (0 <= AnalysisReport.cache_hit_rate report)%Q
    ∧ (AnalysisReport.cache_hit_rate report <= 1)%Q
    ∧ (AnalysisReport.cache_hit_rate report
       == if requests =? 0 then 0 else inject_Z hits / inject_Z requests)%Q.
Proof.
  intros hits requests.
  destruct (reachable_invariant _ _ _ Hreach) as (_ & _ & Hhits & Htotal & Hfirst).
  unfold get_analysis_stats. fold hits. fold requests.
  destruct (0 <? total_analyses (_analysis_stats self)) eqn:Hpos.
  - apply Z.ltb_lt in Hpos.
    assert (Hreq : 0 < requests) by (subst requests hits; lia).
    rewrite py_truediv_inject_Z by lia. simpl.
    rewrite py_truediv_inject_Z by lia. simpl.
    eexists. split; [reflexivity|]. simpl.
    destruct (Qdiv_inject_Z_bounds hits requests) as [Hlo Hhi];
      [subst requests hits; lia | done |].
    split; [done|]. split; [done|].
    destruct (requests =? 0) eqn:Hz; [apply Z.eqb_eq in Hz; lia | reflexivity].
  - apply Z.ltb_ge in Hpos.
    assert (Hzero : hits = 0).
    { destruct (decide (0 < hits)) as [Hlt|]; [|subst hits; lia].
      assert (0 < total_analyses (_analysis_stats self))
        by (apply Hfirst; by left).
      lia. }
    eexists. split; [reflexivity|]. simpl.
    split; [discriminate|]. split; [discriminate|].
    destruct (requests =? 0); [reflexivity|].
    rewrite Hzero. unfold Qeq, Qdiv, Qmult. simpl. lia.
Qed.

(** One analysis, then one call served from the cache: a hit rate of one
    half. *)
Lemma X18_analysis_stats_report_witness :
  ∃ self1 r1 self2 r2 report,
    analyze_page id decimal_numerals 1 (three_node_world 0) (__init__ DEFAULT_CONFIG) "tab-1" false
    = Some (self1, r1)
    ∧ analyze_page id decimal_numerals 1 (three_node_world 5) self1 "tab-1" false
      = Some (self2, r2)
    ∧ get_analysis_stats self2 = Some report
    ∧ (AnalysisReport.cache_hit_rate report == 1 # 2)%Q.
Proof.
  assert (H1 : ∃ self1 r1,
            analyze_page id decimal_numerals 1 (three_node_world 0) (__init__ DEFAULT_CONFIG)
              "tab-1" false = Some (self1, r1))
    by (do 2 eexists; vm_compute; reflexivity).
  destruct H1 as (self1 & r1 & H1).
  assert (H2 : ∃ self2 r2,
            analyze_page id decimal_numerals 1 (three_node_world 5) self1 "tab-1" false
            = Some (self2, r2)
            ∧ cache_hits (_analysis_stats self2) = 1
            ∧ cache_misses (_analysis_stats self2) = 1).
  { vm_compute in H1. inversion H1; subst self1.
    do 2 eexists. split; [|split]; vm_compute; reflexivity. }
  destruct H2 as (self2 & r2 & H2 & Hh & Hm).
  assert (Hreach : reachable id decimal_numerals self2).
  { apply (reachable_analyze id decimal_numerals self1 self2 1 (three_node_world 5) "tab-1"
             false r2); [|exact H2].
    apply (reachable_analyze id decimal_numerals (__init__ DEFAULT_CONFIG) self1 1
             (three_node_world 0) "tab-1" false r1); [|exact H1].
    apply reachable_init. }
  destruct (X18_analysis_stats_report decimal_numerals id self2 Hreach)
    as (report & Hrep & _ & _ & Hrate).
  exists self1, r1, self2, r2, report.
  split; [exact H1|]. split; [exact H2|]. split; [exact Hrep|].
  rewrite Hrate, Hh, Hm. reflexivity.
Defined.

(** ** A failed analysis *)

(** X21. A call of [analyze_page] that raises leaves the cache as it was:
    the result table, the time table, the number of completed analyses and
    the total analysis time are unchanged, the call is counted as one miss
    and no hit, and every later cache decision is the one the analyzer would
    have taken before the call. *)
Theorem X21_failed_analysis_keeps_cache (P : Pydantic) (md5 : string → string) (fuel : nat)
  (w : World) (self self' : DOMAnalyzer) (target : string)
  (force_refresh : bool) (e : exn)
  (Hrun : analyze_page md5 P fuel w self target force_refresh
          = Some (self', Raise e)) :
  _analysis_cache self' = _analysis_cache self
  ∧ _last_analysis_time self' = _last_analysis_time self
  ∧ total_analyses (_analysis_stats self') = total_analyses (_analysis_stats self)
  ∧ total_analysis_time (_analysis_stats self')
    = total_analysis_time (_analysis_stats self)
  ∧ cache_misses (_analysis_stats self') = cache_misses (_analysis_stats self) + 1
  ∧ cache_hits (_analysis_stats self') = cache_hits (_analysis_stats self)
  ∧ (∀ now k, _should_use_cached_result self' now k
              = _should_use_cached_result self now k).
Proof.
  destruct (analyze_page_cases _ _ _ _ _ _ _ _ _ Hrun)
    as [(Huse & _ & Hr)
       |[(_ & _ & Hcache & Htime & Hstats & Hcfg)
        |(_ & tree & ix & elems & inter & result & _ & _ & _ & Hr & _)]].
  - apply andb_true_iff in Huse as [_ Huse].
    destruct (_should_use_cached_result_stored _ _ _ Huse) as [c Hc].
    rewrite Hc in Hr. discriminate Hr.
  - split; [done|]. split; [done|]. rewrite Hstats. simpl.
    do 4 (split; [done|]).
    intros now k. unfold _should_use_cached_result.
    by rewrite Hcache, Htime, Hcfg.
  - discriminate Hr.
Qed.

(** The browser cannot be reached. *)
Lemma X21_failed_analysis_keeps_cache_witness :
  ∃ self',
    analyze_page id decimal_numerals 1 (offline_world 0) (__init__ DEFAULT_CONFIG) "tab-1" false
    = Some (self', Raise ValueError)
    ∧ _analysis_cache self' = ∅
    ∧ cache_misses (_analysis_stats self') = 1.
Proof.
  assert (H1 : ∃ self',
            analyze_page id decimal_numerals 1 (offline_world 0) (__init__ DEFAULT_CONFIG)
              "tab-1" false = Some (self', Raise ValueError))
    by (eexists; vm_compute; reflexivity).
  destruct H1 as (self' & H1). exists self'. split; [exact H1|].
  destruct (X21_failed_analysis_keeps_cache decimal_numerals id 1 _ _ _ _ _ _ H1)
    as (Hcache & _ & _ & _ & Hm & _).
  split; [exact Hcache | exact Hm].
Defined.


(** ** Lookups through the analyzer *)

Lemma sorted_indices_unique (l : list IndexedElement) (e e' : IndexedElement) :
  StronglySorted Z.lt (IndexerSpec.indices l) →
  e ∈ l → e' ∈ l → Types.index e = Types.index e' → e = e'.
Proof.
  unfold IndexerSpec.indices.
  induction l as [|a l IH]; intros Hs He He'; [by apply elem_of_nil in He|].
  simpl in Hs. apply StronglySorted_inv in Hs as [Hs Ha].
  rewrite Forall_forall in Ha.
  assert (Hlt : ∀ x, x ∈ l → Types.index a < Types.index x)
    by (intros x Hx; apply Ha, list_elem_of_fmap; by exists x).
  apply elem_of_cons in He as [->|He]; apply elem_of_cons in He' as [->|He'];
    intros Heq.
  - done.
  - apply Hlt in He'. lia.
  - apply Hlt in He. lia.
  - by apply IH.
Qed.

(** X19. What [DOMAnalyzer.get_element_by_index] can find. In an analyzer
    reached from a new one by calls of [analyze_page] and [clear_cache], an
    element found under an index has that index, is flagged interactive, has
    an interactive role and an empty state list; it is made from an
    interactive element of the result now cached for the target, the only
    one with that index. An element that is not interactive is never found,
    whatever its index. *)
Theorem X19_lookup_finds_interactive_only (P : Pydantic) (md5 : string → string) (fuel : nat)
  (w : World) (self self' : DOMAnalyzer) (target : string) (i : Z)
  (info : ElementInteractionInfo.t)
  (Hreach : reachable md5 P self)
  (Hfound : get_element_by_index md5 P fuel w self target i
            = Some (self', Some info)) :
  ElementInteractionInfo.index info = i
  ∧ ElementInteractionInfo.is_interactive info = true
  ∧ ElementInteractionInfo.role info ∈ Indexer.indexer_interactive_roles
  ∧ ElementInteractionInfo.states info = []
  ∧ ∃ result e,
      _analysis_cache self' !! target = Some result
      ∧ e ∈ interactive_elements result
      ∧ info = interaction_info e
      ∧ ∀ e', e' ∈ interactive_elements result → Types.index e' = i → e' = e.
Proof.
  unfold get_element_by_index, get_interactive_elements in Hfound.
  destruct (analyze_page md5 P fuel w self target false) as [[self1 r]|] eqn:Hrun;
    [|discriminate].
  destruct r as [result|]; [|discriminate].
  inversion Hfound as [[Hself Hfind]]. subst self1. clear Hfound.
  destruct (analyze_page_invariant _ _ _ _ _ _ _ _ _
              (reachable_invariant _ _ _ Hreach) Hrun) as [_ Hres].
  destruct (Hres result eq_refl) as [(_ & _ & _ & Hsorted & Hall) Hcached].
  apply find_some in Hfind as [Hin Hidx].
  apply list_elem_of_In, list_elem_of_fmap in Hin as (e & -> & He).
  apply Z.eqb_eq in Hidx. simpl in Hidx.
  rewrite Forall_forall in Hall. destruct (Hall e He) as (Hi & Hrole & Hstates).
  simpl. rewrite Hstates.
  split; [done|]. split; [done|]. split; [done|]. split; [done|].
  exists result, e. split; [done|]. split; [done|]. split; [done|].
  intros e' He' Hidx'. apply (sorted_indices_unique _ _ _ Hsorted He' He).
  congruence.
Qed.

(** On the three-node page the button has index 1 and is found; the
    heading has index 0. *)
Lemma X19_lookup_finds_interactive_only_witness :
  ∃ self' info,
    get_element_by_index id decimal_numerals 1 (three_node_world 0) (__init__ DEFAULT_CONFIG)
      "tab-1" 1 = Some (self', Some info)
    ∧ ElementInteractionInfo.is_interactive info = true
    ∧ get_element_by_index id decimal_numerals 1 (three_node_world 0) (__init__ DEFAULT_CONFIG)
        "tab-1" 0 = Some (self', None).
Proof.
  assert (H1 : ∃ self' info,
            get_element_by_index id decimal_numerals 1 (three_node_world 0)
              (__init__ DEFAULT_CONFIG) "tab-1" 1 = Some (self', Some info)
            ∧ get_element_by_index id decimal_numerals 1 (three_node_world 0)
                (__init__ DEFAULT_CONFIG) "tab-1" 0 = Some (self', None))
    by (do 2 eexists; split; vm_compute; reflexivity).
  destruct H1 as (self' & info & H1 & H0). exists self', info.
  split; [exact H1|]. split; [|exact H0].
  exact (proj1 (proj2 (X19_lookup_finds_interactive_only decimal_numerals id 1 _ _ _ _ _ _
                         (reachable_init id decimal_numerals DEFAULT_CONFIG) H1))).
Defined.

(** ** The role distribution of the page summary *)

Lemma count_role_lookup (m : gmap string Z) (e : IndexedElement) (k : string) :
  count_role m e !! k
  = if String.eqb (ElementRole_value (Types.role e)) k
    then Some (default 0 (m !! k) + 1)
    else m !! k.
Proof.
  unfold count_role.
  destruct (String.eqb (ElementRole_value (Types.role e)) k) eqn:Hk.
  - apply String.eqb_eq in Hk. subst k. rewrite lookup_insert_eq.
    destruct (m !! ElementRole_value (Types.role e)) as [c|] eqn:Hm; simpl.
    + by rewrite (lookup_total_correct _ _ _ Hm).
    + by rewrite (lookup_total_correct _ _ 0 (lookup_insert_eq _ _ _)).
  - apply String.eqb_neq in Hk. rewrite lookup_insert_ne by done.
    destruct (m !! ElementRole_value (Types.role e)); [done|].
    by rewrite lookup_insert_ne.
Qed.

Lemma role_stats_lookup (l : list IndexedElement) (m : gmap string Z)
  (k : string) :
  foldl count_role m l !! k
  = let c := Z.of_nat (length (List.filter
                (λ e, String.eqb (ElementRole_value (Types.role e)) k) l)) in
    match m !! k with
    | Some c0 => Some (c0 + c)
    | None => if c =? 0 then None else Some c
    end.
Proof.
  revert m. induction l as [|e l IH]; intros m; simpl.
  - destruct (m !! k); [f_equal; lia | done].
  - rewrite IH, count_role_lookup.
    destruct (String.eqb (ElementRole_value (Types.role e)) k); simpl.
    + destruct (m !! k) as [c0|]; simpl.
      * f_equal. lia.
      * destruct (Z.eqb_spec (Z.pos (Pos.of_succ_nat
                   (length (List.filter (λ e0, String.eqb
                      (ElementRole_value (Types.role e0)) k) l)))) 0) as [H|_];
          [lia|]. f_equal. lia.
    + done.
Qed.

Lemma total_count_count_role (m : gmap string Z) (e : IndexedElement) :
  total_count (count_role m e) = total_count m + 1.
Proof.
  unfold total_count, count_role.
  set (role := ElementRole_value (Types.role e)).
  assert (Hcomm : ∀ (m' : gmap string Z) (j1 j2 : string) (z1 z2 y : Z),
            j1 ≠ j2 → m' !! j1 = Some z1 → m' !! j2 = Some z2 →
            z1 + (z2 + y) = z2 + (z1 + y)) by (intros; lia).
  destruct (m !! role) as [c|] eqn:Hm.
  - rewrite (lookup_total_correct _ _ _ Hm).
    rewrite <- (insert_delete_eq m role (c + 1)).
    rewrite map_fold_insert_L; [|by apply Hcomm|by rewrite lookup_delete_eq].
    rewrite (map_fold_delete_L _ _ role c m); [lia|by apply Hcomm|done].
  - rewrite (lookup_total_correct _ _ 0 (lookup_insert_eq _ _ _)).
    rewrite insert_insert_eq.
    rewrite map_fold_insert_L; [lia|by apply Hcomm|done].
Qed.

Lemma total_count_role_stats (l : list IndexedElement) (m : gmap string Z) :
  total_count (foldl count_role m l) = total_count m + Z.of_nat (length l).
Proof.
  revert m. induction l as [|e l IH]; intros m; simpl; [lia|].
  rewrite IH, total_count_count_role. lia.
Qed.

(** X20. The role distribution of a page summary counts the elements of
    the analysis result now cached for the target: a role is a key exactly
    when some element has it, its count is the number of elements with that
    role, every key is the value of a role, and the counts add up to the
    total number of elements the summary reports. *)
Theorem X20_role_distribution (P : Pydantic) (md5 : string → string) (fuel : nat) (w : World)
  (self self' : DOMAnalyzer) (target : string) (summary : PageSummary.t)
  (Hreach : reachable md5 P self)
  (Hsum : get_page_summary md5 P fuel w self target = Some (self', Ok summary)) :
  ∃ result,
    _analysis_cache self' !! target = Some result
    ∧ PageSummary.total_elements summary
      = Z.of_nat (length (indexed_elements result))
    ∧ (∀ role,
         PageSummary.role_distribution summary !! ElementRole_value role
         = let c := Z.of_nat (length (IndexerSpec.select
                                        (IndexerSpec.has_role role)
                                        (indexed_elements result))) in
           if c =? 0 then None else Some c)
    ∧ (∀ k, is_Some (PageSummary.role_distribution summary !! k) →
            ∃ role, k = ElementRole_value role)
    ∧ total_count (PageSummary.role_distribution summary)
      = PageSummary.total_elements summary.
Proof.
  unfold get_page_summary in Hsum.
  destruct (analyze_page md5 P fuel w self target false) as [[self1 r]|] eqn:Hrun;
    [|discriminate].
  destruct r as [result|]; [|discriminate].
  inversion Hsum; subst self1 summary. clear Hsum.
  destruct (analyze_page_invariant _ _ _ _ _ _ _ _ _
              (reachable_invariant _ _ _ Hreach) Hrun) as [_ Hres].
  destruct (Hres result eq_refl) as [(_ & Htotal & _) Hcached].
  exists result. simpl. split; [done|]. split; [done|]. split; [|split].
  - intros role. rewrite role_stats_lookup, lookup_empty. reflexivity.
  - intros k. rewrite role_stats_lookup, lookup_empty. simpl.
    destruct (List.filter _ _) as [|e l] eqn:Hf; simpl; [by intros [? ?]|].
    intros _. exists (Types.role e).
    assert (Hin : In e (List.filter
               (λ e0, String.eqb (ElementRole_value (Types.role e0)) k)
               (indexed_elements result))) by (rewrite Hf; by left).
    apply filter_In in Hin as [_ Hk]. apply String.eqb_eq in Hk. done.
  - rewrite total_count_role_stats, Htotal.
    unfold total_count. rewrite map_fold_empty. lia.
Qed.

(** The three-node page: the heading has no role in [ElementRole] and
    gives no element; a button and a link remain. *)
Lemma X20_role_distribution_witness :
  ∃ self' summary,
    get_page_summary id decimal_numerals 1 (three_node_world 0) (__init__ DEFAULT_CONFIG) "tab-1"
    = Some (self', Ok summary)
    ∧ PageSummary.role_distribution summary !! "button" = Some 1
    ∧ total_count (PageSummary.role_distribution summary)
      = PageSummary.total_elements summary.
Proof.
  assert (H1 : ∃ self' summary,
            get_page_summary id decimal_numerals 1 (three_node_world 0) (__init__ DEFAULT_CONFIG)
              "tab-1" = Some (self', Ok summary)
            ∧ PageSummary.role_distribution summary !! "button" = Some 1)
    by (do 2 eexists; split; vm_compute; reflexivity).
  destruct H1 as (self' & summary & H1 & Hb). exists self', summary.
  split; [exact H1|]. split; [exact Hb|].
  destruct (X20_role_distribution decimal_numerals id 1 _ _ _ _ _
              (reachable_init id decimal_numerals DEFAULT_CONFIG) H1) as (result & _ & _ & _ & _ & Hs).
  exact Hs.
Defined.


(** X22. What [DOMAnalyzer.find_element_by_role] can find. In an analyzer
    reached from a new one by calls of [analyze_page] and [clear_cache], the
    elements found for a role have that role and are flagged interactive,
    since only the interactive elements are searched; for a role outside the
    indexer's list of interactive roles (tabpanel, status, tooltip, row,
    column, rowheader, columnheader, generic) nothing is ever found. *)
Theorem X22_find_by_role_interactive_only (P : Pydantic) (md5 : string → string) (fuel : nat)
  (w : World) (self self' : DOMAnalyzer) (target : string) (role : ElementRole)
  (found : list ElementInteractionInfo.t)
  (Hreach : reachable md5 P self)
  (Hfind : find_element_by_role md5 P fuel w self target role
           = Some (self', found)) :
  Forall (λ info, ElementInteractionInfo.role info = ElementRole_value role
                  ∧ ElementInteractionInfo.is_interactive info = true) found
  ∧ (ElementRole_value role ∉ Indexer.indexer_interactive_roles → found = []).
Proof.
  unfold find_element_by_role, get_interactive_elements in Hfind.
  destruct (analyze_page md5 P fuel w self target false) as [[self1 r]|] eqn:Hrun;
    [|discriminate].
  destruct r as [result|];
    [|inversion Hfind; subst; split; [constructor | done]].
  assert (Hself : self1 = self') by (by inversion Hfind). subst self1.
  assert (Hfound : found
            = List.filter
                (λ elem, String.eqb (ElementInteractionInfo.role elem)
                           (ElementRole_value role))
                (map interaction_info (interactive_elements result)))
    by (by inversion Hfind).
  clear Hfind.
  destruct (analyze_page_invariant _ _ _ _ _ _ _ _ _
              (reachable_invariant _ _ _ Hreach) Hrun) as [_ Hres].
  destruct (Hres result eq_refl) as [(_ & _ & _ & _ & Hall) _].
  rewrite Forall_forall in Hall.
  assert (Hmem : ∀ info, info ∈ found →
            ElementInteractionInfo.role info = ElementRole_value role
            ∧ ElementInteractionInfo.is_interactive info = true
            ∧ ElementInteractionInfo.role info ∈ Indexer.indexer_interactive_roles).
  { intros info Hin. rewrite Hfound in Hin.
    apply list_elem_of_In, filter_In in Hin as [Hin Hrole].
    apply String.eqb_eq in Hrole.
    apply list_elem_of_In, list_elem_of_fmap in Hin as (e & -> & He).
    destruct (Hall e He) as (Hi & Hr & _). done. }
  split.
  - rewrite Forall_forall. intros info Hin.
    destruct (Hmem info Hin) as (? & ? & _). done.
  - intros Hout. destruct found as [|info found']; [done|].
    destruct (Hmem info) as (Hr & _ & Hin); [by left|].
    rewrite Hr in Hin. done.
Qed.

(** On the one-button page a search for buttons finds the button. *)
Lemma X22_find_by_role_interactive_only_witness :
  ∃ self' found,
    find_element_by_role id decimal_numerals 1 (world_at 0) (__init__ DEFAULT_CONFIG) "tab-1"
      BUTTON = Some (self', found)
    ∧ length found = 1%nat
    ∧ Forall (λ info, ElementInteractionInfo.is_interactive info = true) found.
Proof.
  assert (H1 : ∃ self' found,
            find_element_by_role id decimal_numerals 1 (world_at 0) (__init__ DEFAULT_CONFIG)
              "tab-1" BUTTON = Some (self', found)
            ∧ length found = 1%nat)
    by (do 2 eexists; split; vm_compute; reflexivity).
  destruct H1 as (self' & found & H1 & Hlen). exists self', found.
  split; [exact H1|]. split; [exact Hlen|].
  destruct (X22_find_by_role_interactive_only decimal_numerals id 1 _ _ _ _ _ _
              (reachable_init id decimal_numerals DEFAULT_CONFIG) H1) as [Hall _].
  eapply Forall_impl; [exact Hall|]. simpl. tauto.
Defined.

End AnalyzerProps.
